(** * Deluge core: the [Torrent] entity of [deluge/core/torrent.py]

    A shallow embedding of the methods of [Torrent] that carry the
    invariants of the core: option setters and [set_options], the state
    classifier [update_state], [get_eta], [get_tracker_host], the
    differential status cache of [get_status], the first/last piece planner,
    the piece availability view and the folder rename coordinator; further
    [sanitize_filepath], [TorrentOptions], [cleanup_prev_status], [pause]
    and [rename_files].

    The program is Python 2.  Python objects are modelled by the universe
    [Value]; dictionaries are finite maps; exceptions are values of [exn]
    returned on the left of a sum; methods that mutate the torrent thread
    it explicitly and return it next to their outcome. *)

From Stdlib Require Import ZArith String Ascii Floats Lia.
From stdpp Require Import base option list gmap strings sorting pretty.

#[global] Set Warnings "-clear-no-such-hyp".

(* ===================================================================== *)
(** * Part I. The embedding                                              *)
(* ===================================================================== *)

(** ** Python values and exceptions *)

Inductive exn :=
  | KeyError (key : string)
  | ValueError (msg : string)
  | TypeError
  | IndexError
  | ZeroDivisionError
  | AlreadyCalledError.

(** The outcome of an expression that may raise. *)
Definition result (A : Type) : Type := (exn + A)%type.

Definition ret {A} (x : A) : result A := inr x.
Definition raise {A} (e : exn) : result A := inl e.
Definition bind {A B} (m : result A) (k : A → result B) : result B :=
  match m with
  | inl e => inl e
  | inr x => k x
  end.

Declare Scope py_scope.
Delimit Scope py_scope with py.
Notation "'do' x <- m ; k" := (bind m (fun x => k))
  (at level 10, x name, m at level 100, k at level 200) : py_scope.
Open Scope py_scope.

#[warning="-register-all"]
Inductive Value :=
  | VNone
  | VBool (b : bool)
  | VInt (z : Z)
  | VFloat (x : float)
  | VStr (s : string)
  | VList (l : list Value)
  | VDict (d : list (string * Value)).

(** Truth value of an object, as [if x:] and [not x] compute it. *)
Definition truthy (v : Value) : bool :=
  match v with
  | VNone => false
  | VBool b => b
  | VInt z => negb (z =? 0)%Z
  | VFloat x => negb (PrimFloat.eqb x 0%float)
  | VStr s => negb (String.eqb s "")
  | VList l => match l with [] => false | _ => true end
  | VDict d => match d with [] => false | _ => true end
  end.

(** [d[key]] on a dictionary: a missing key raises [KeyError]. *)
Definition getitem {A} (d : gmap string A) (key : string) : result A :=
  match d !! key with
  | Some v => ret v
  | None => raise (KeyError key)
  end.

(** *** Numbers

    Python 2 arithmetic on [int] and [float].  A [bool] is an [int].  The
    integers that reach these operators come from 64-bit engine counters, so
    the conversion of an [int] operand to [float] is always finite. *)

Inductive num :=
  | NInt (z : Z)
  | NFloat (x : float).

Definition as_num (v : Value) : result num :=
  match v with
  | VBool b => ret (NInt (Z.b2z b))
  | VInt z => ret (NInt z)
  | VFloat x => ret (NFloat x)
  | _ => raise TypeError
  end.

Definition of_num (n : num) : Value :=
  match n with
  | NInt z => VInt z
  | NFloat x => VFloat x
  end.

(** [float(z)]: the nearest binary64 number, ties to even. *)
Definition float_of_int (z : Z) : float :=
  SF2Prim (binary_normalize prec emax z 0 false).

(** [int(x)] for a finite [x]: truncation towards zero. *)
Definition int_of_float (x : float) : Z :=
  match Prim2SF x with
  | S754_finite s m e =>
      let mag := if (0 <=? e)%Z then (Z.pos m * 2 ^ e)%Z
                 else (Z.pos m / 2 ^ (- e))%Z in
      if s then (- mag)%Z else mag
  | _ => 0%Z
  end.

Definition num_to_float (n : num) : float :=
  match n with
  | NInt z => float_of_int z
  | NFloat x => x
  end.

Definition num_mul (a b : num) : num :=
  match a, b with
  | NInt x, NInt y => NInt (x * y)
  | _, _ => NFloat (PrimFloat.mul (num_to_float a) (num_to_float b))
  end.

Definition num_sub (a b : num) : num :=
  match a, b with
  | NInt x, NInt y => NInt (x - y)
  | _, _ => NFloat (PrimFloat.sub (num_to_float a) (num_to_float b))
  end.

Definition num_is_zero (n : num) : bool :=
  match n with
  | NInt z => (z =? 0)%Z
  | NFloat x => PrimFloat.eqb x 0%float
  end.

(** The quotient [a / b] for a non-zero [b], without
    [from __future__ import division]: floor division on two integers,
    float division otherwise. *)
Definition num_quot (a b : num) : num :=
  match a, b with
  | NInt x, NInt y => NInt (x / y)
  | _, _ => NFloat (PrimFloat.div (num_to_float a) (num_to_float b))
  end.

(** [a / b]: a zero divisor raises. *)
Definition num_div (a b : num) : result num :=
  if num_is_zero b then raise ZeroDivisionError else ret (num_quot a b).

(** The operators on objects.  A non-numeric operand is reported as
    [TypeError]. *)
Definition py_mul (a b : Value) : result Value :=
  do x <- as_num a; do y <- as_num b; ret (of_num (num_mul x y)).
Definition py_sub (a b : Value) : result Value :=
  do x <- as_num a; do y <- as_num b; ret (of_num (num_sub x y)).
Definition py_div (a b : Value) : result Value :=
  do x <- as_num a; do y <- as_num b; do q <- num_div x y; ret (of_num q).

(** ** Python strings *)

Module Py.

Definition len (s : string) : nat := String.length s.

(** The backslash character. *)
Definition backslash : ascii := ascii_of_nat 92.

(** [s.startswith(p)] *)
Definition startswith (s p : string) : bool := String.prefix p s.

(** [s[n:]] *)
Fixpoint drop (n : nat) (s : string) : string :=
  match n, s with
  | O, _ => s
  | S _, EmptyString => EmptyString
  | S k, String _ t => drop k t
  end.

(** [s[:n]] *)
Fixpoint take (n : nat) (s : string) : string :=
  match n, s with
  | O, _ => EmptyString
  | S _, EmptyString => EmptyString
  | S k, String c t => String c (take k t)
  end.

(** [needle in hay] on strings: substring test. *)
Fixpoint contains (hay needle : string) : bool :=
  String.prefix needle hay ||
  match hay with
  | EmptyString => false
  | String _ t => contains t needle
  end.

(** [s.find(c)] for a one-character [c]: the first position, if any. *)
Fixpoint find_char (c : ascii) (s : string) : option nat :=
  match s with
  | EmptyString => None
  | String a t => if Ascii.eqb a c then Some O else S <$> find_char c t
  end.

Definition has_char (c : ascii) (s : string) : bool :=
  match find_char c s with Some _ => true | None => false end.

(** [s.replace(old, new, 1)]: the first occurrence only.  An empty [old]
    matches at position 0. *)
Fixpoint replace_first (old new s : string) : string :=
  if String.prefix old s then new +:+ drop (len old) s
  else match s with
       | EmptyString => EmptyString
       | String c t => String c (replace_first old new t)
       end.

(** [s.replace(old, new)] for a non-empty [old]: every occurrence, left
    to right, without overlap.  [skip] counts the characters of a match
    that are still to be consumed. *)
Fixpoint replace_go (old new : string) (skip : nat) (s : string) : string :=
  match s with
  | EmptyString => EmptyString
  | String c t =>
      match skip with
      | S k => replace_go old new k t
      | O => if String.prefix old s
             then new +:+ replace_go old new (len old - 1) t
             else String c (replace_go old new O t)
      end
  end.
Definition replace (old new s : string) : string := replace_go old new O s.

(** Replacement of one character by another, as in the replacement of
    backslashes by slashes. *)
Fixpoint replace_char (old new : ascii) (s : string) : string :=
  match s with
  | EmptyString => EmptyString
  | String c t =>
      String (if Ascii.eqb c old then new else c) (replace_char old new t)
  end.

(** [s.split(c)] for a one-character separator: always at least one
    field. *)
Fixpoint split_go (c : ascii) (cur : string) (s : string) : list string :=
  match s with
  | EmptyString => [String.rev cur]
  | String a t =>
      if Ascii.eqb a c then String.rev cur :: split_go c EmptyString t
      else split_go c (String a cur) t
  end.
Definition split (c : ascii) (s : string) : list string :=
  split_go c EmptyString s.

(** [sep.join(l)] *)
Definition join (sep : string) (l : list string) : string :=
  String.concat sep l.

(** Characters removed by [s.strip()]: space, tab, newline, carriage
    return, vertical tab, form feed. *)
Definition is_space (c : ascii) : bool :=
  let n := nat_of_ascii c in
  (n =? 32)%nat || ((9 <=? n)%nat && (n <=? 13)%nat).

Fixpoint lstrip (s : string) : string :=
  match s with
  | EmptyString => EmptyString
  | String c t => if is_space c then lstrip t else s
  end.
Definition strip (s : string) : string :=
  String.rev (lstrip (String.rev (lstrip s))).

(** [s.lower()] on ASCII letters. *)
Definition lower_char (c : ascii) : ascii :=
  let n := nat_of_ascii c in
  if (65 <=? n)%nat && (n <=? 90)%nat then ascii_of_nat (n + 32) else c.
Fixpoint lower (s : string) : string :=
  match s with
  | EmptyString => EmptyString
  | String c t => String (lower_char c) (lower t)
  end.

(** [l[-n:]] on a list. *)
Definition last_n {A} (n : nat) (l : list A) : list A :=
  List.skipn (length l - n) l.

(** [l[-n]] for [n >= 1]. *)
Definition from_end {A} (n : nat) (l : list A) : option A :=
  if (n <=? length l)%nat then l !! (length l - n)%nat else None.

End Py.


(** ** The engine: libtorrent objects

    The engine is an external collaborator.  Its objects are records of the
    attributes the torrent reads; its mutators are recorded in a call log,
    and those whose effect is read back later also update the record. *)

(** [lt.torrent_status]: an immutable snapshot. *)
Record Status := {
  st_state : Z;
  st_paused : bool;
  st_auto_managed : bool;
  st_error : string;
  st_upload_payload_rate : Z;
  st_download_payload_rate : Z;
  st_all_time_download : Z;
  st_all_time_upload : Z;
  st_total_wanted : Z;
  st_total_wanted_done : Z;
  st_current_tracker : string;
  st_pieces : list bool;
}.

(** [lt.peer_info]: the two attributes read by the piece view and the flag
    word read by [get_peers]. *)
Record PeerInfo := {
  pi_flags : Z;
  pi_downloading_piece_index : Z;
}.

(** An entry of [torrent_info.files()]. *)
Record FileEntry := {
  fe_path : string;
  fe_size : Z;
  fe_offset : Z;
}.

(** [lt.torrent_info].  [ti_map_file i off] is [map_file(i, off, 0).piece]:
    the index of the piece that holds byte [off] of file [i]. *)
Record TorrentInfo := {
  ti_files : list FileEntry;
  ti_map_file : nat → Z → nat;
}.

(** Calls made on the handle. *)
Inductive HandleCall :=
  | Call_set_priority (priority : Z)
  | Call_auto_managed (flag : bool)
  | Call_prioritize_pieces (priorities : list Z)
  | Call_rename_file (index : nat) (new_path : string).

(** [lt.torrent_handle] *)
Record Handle := {
  h_status : Status;
  h_piece_priorities : list Z;
  h_peer_info : list PeerInfo;
  h_piece_availability : list Z;
  h_calls : list HandleCall;
}.

Definition status_with_auto_managed (b : bool) (s : Status) : Status :=
  {| st_state := st_state s; st_paused := st_paused s; st_auto_managed := b;
     st_error := st_error s;
     st_upload_payload_rate := st_upload_payload_rate s;
     st_download_payload_rate := st_download_payload_rate s;
     st_all_time_download := st_all_time_download s;
     st_all_time_upload := st_all_time_upload s;
     st_total_wanted := st_total_wanted s;
     st_total_wanted_done := st_total_wanted_done s;
     st_current_tracker := st_current_tracker s;
     st_pieces := st_pieces s |}.

Definition status_with_current_tracker (url : string) (s : Status) : Status :=
  {| st_state := st_state s; st_paused := st_paused s;
     st_auto_managed := st_auto_managed s; st_error := st_error s;
     st_upload_payload_rate := st_upload_payload_rate s;
     st_download_payload_rate := st_download_payload_rate s;
     st_all_time_download := st_all_time_download s;
     st_all_time_upload := st_all_time_upload s;
     st_total_wanted := st_total_wanted s;
     st_total_wanted_done := st_total_wanted_done s;
     st_current_tracker := url;
     st_pieces := st_pieces s |}.

Definition log_call (c : HandleCall) (h : Handle) : Handle :=
  {| h_status := h_status h; h_piece_priorities := h_piece_priorities h;
     h_peer_info := h_peer_info h;
     h_piece_availability := h_piece_availability h;
     h_calls := h_calls h ++ [c] |}.

(** [handle.set_priority(p)] *)
Definition handle_set_priority (p : Z) (h : Handle) : Handle :=
  log_call (Call_set_priority p) h.

(** [handle.auto_managed(flag)]: the flag shows in the next status. *)
Definition handle_auto_managed (flag : bool) (h : Handle) : Handle :=
  log_call (Call_auto_managed flag)
    {| h_status := status_with_auto_managed flag (h_status h);
       h_piece_priorities := h_piece_priorities h;
       h_peer_info := h_peer_info h;
       h_piece_availability := h_piece_availability h;
       h_calls := h_calls h |}.

(** [handle.prioritize_pieces(l)]: read back by [piece_priorities()]. *)
Definition handle_prioritize_pieces (l : list Z) (h : Handle) : Handle :=
  log_call (Call_prioritize_pieces l)
    {| h_status := h_status h; h_piece_priorities := l;
       h_peer_info := h_peer_info h;
       h_piece_availability := h_piece_availability h;
       h_calls := h_calls h |}.

(** [handle.rename_file(index, path)]: asynchronous, the file list changes
    only when the engine reports completion. *)
Definition handle_rename_file (index : nat) (path : string) (h : Handle) : Handle :=
  log_call (Call_rename_file index path) h.

(** ** The torrent object *)

(** An entry of [self.trackers]. *)
Record Tracker := {
  tr_url : string;
  tr_tier : Z;
}.

(** The attributes of a [Torrent] instance.  [waiting_on_folder_rename]
    holds references to dictionary objects, which live in the heap of the
    rename coordinator below. *)
Record Torrent := {
  torrent_id : string;
  options : gmap string Value;
  handle : Handle;
  status : Status;
  torrent_info : TorrentInfo;
  has_metadata : bool;
  is_finished : bool;
  state : string;
  statusmsg : string;
  trackers : list Tracker;
  tracker_host : option string;
  prev_status : gmap Z (gmap string Value);
  waiting_on_folder_rename : list nat;
}.

Definition with_options (o : gmap string Value) (t : Torrent) : Torrent :=
  {| torrent_id := torrent_id t; options := o; handle := handle t;
     status := status t; torrent_info := torrent_info t;
     has_metadata := has_metadata t; is_finished := is_finished t;
     state := state t; statusmsg := statusmsg t; trackers := trackers t;
     tracker_host := tracker_host t; prev_status := prev_status t;
     waiting_on_folder_rename := waiting_on_folder_rename t |}.

Definition with_handle (h : Handle) (t : Torrent) : Torrent :=
  {| torrent_id := torrent_id t; options := options t; handle := h;
     status := status t; torrent_info := torrent_info t;
     has_metadata := has_metadata t; is_finished := is_finished t;
     state := state t; statusmsg := statusmsg t; trackers := trackers t;
     tracker_host := tracker_host t; prev_status := prev_status t;
     waiting_on_folder_rename := waiting_on_folder_rename t |}.

Definition with_status (s : Status) (t : Torrent) : Torrent :=
  {| torrent_id := torrent_id t; options := options t; handle := handle t;
     status := s; torrent_info := torrent_info t;
     has_metadata := has_metadata t; is_finished := is_finished t;
     state := state t; statusmsg := statusmsg t; trackers := trackers t;
     tracker_host := tracker_host t; prev_status := prev_status t;
     waiting_on_folder_rename := waiting_on_folder_rename t |}.

Definition with_state (s : string) (t : Torrent) : Torrent :=
  {| torrent_id := torrent_id t; options := options t; handle := handle t;
     status := status t; torrent_info := torrent_info t;
     has_metadata := has_metadata t; is_finished := is_finished t;
     state := s; statusmsg := statusmsg t; trackers := trackers t;
     tracker_host := tracker_host t; prev_status := prev_status t;
     waiting_on_folder_rename := waiting_on_folder_rename t |}.

Definition with_statusmsg (m : string) (t : Torrent) : Torrent :=
  {| torrent_id := torrent_id t; options := options t; handle := handle t;
     status := status t; torrent_info := torrent_info t;
     has_metadata := has_metadata t; is_finished := is_finished t;
     state := state t; statusmsg := m; trackers := trackers t;
     tracker_host := tracker_host t; prev_status := prev_status t;
     waiting_on_folder_rename := waiting_on_folder_rename t |}.

Definition with_tracker_host (h : option string) (t : Torrent) : Torrent :=
  {| torrent_id := torrent_id t; options := options t; handle := handle t;
     status := status t; torrent_info := torrent_info t;
     has_metadata := has_metadata t; is_finished := is_finished t;
     state := state t; statusmsg := statusmsg t; trackers := trackers t;
     tracker_host := h; prev_status := prev_status t;
     waiting_on_folder_rename := waiting_on_folder_rename t |}.

Definition with_prev_status (p : gmap Z (gmap string Value)) (t : Torrent) : Torrent :=
  {| torrent_id := torrent_id t; options := options t; handle := handle t;
     status := status t; torrent_info := torrent_info t;
     has_metadata := has_metadata t; is_finished := is_finished t;
     state := state t; statusmsg := statusmsg t; trackers := trackers t;
     tracker_host := tracker_host t; prev_status := p;
     waiting_on_folder_rename := waiting_on_folder_rename t |}.

Definition with_waiting (w : list nat) (t : Torrent) : Torrent :=
  {| torrent_id := torrent_id t; options := options t; handle := handle t;
     status := status t; torrent_info := torrent_info t;
     has_metadata := has_metadata t; is_finished := is_finished t;
     state := state t; statusmsg := statusmsg t; trackers := trackers t;
     tracker_host := tracker_host t; prev_status := prev_status t;
     waiting_on_folder_rename := w |}.

(** [self.options[key] = value] *)
Definition store_option (key : string) (value : Value) (t : Torrent) : Torrent :=
  with_options (<[key := value]> (options t)) t.

(** A method that mutates the torrent: its outcome and the torrent it
    leaves behind.  A raised exception keeps the mutations made so far. *)
Definition method (A : Type) : Type := Torrent → result A * Torrent.

(** ** Option setters *)

(** [Torrent.set_priority] *)
Definition set_priority (priority : Z) : method unit := λ self,
  if (0 <=? priority)%Z && (priority <=? 255)%Z then
    let self := store_option "priority" (VInt priority) self in
    (ret tt, with_handle (handle_set_priority priority (handle self)) self)
  else
    (raise (ValueError "Torrent priority, %s, is invalid, should be [0..255]"),
     self).

(** ** The state classifier *)

(** The table [deluge.common.LT_TORRENT_STATE], which maps the engine's
    state codes to names and the names back to codes.  [update_state] takes
    it as a parameter. *)
Record LtTorrentState := {
  lt_name : Z → option string;
  lt_Queued : Z;
  lt_Checking : Z;
  lt_Downloading_Metadata : Z;
  lt_Downloading : Z;
  lt_Finished : Z;
  lt_Seeding : Z;
  lt_Allocating : Z;
}.

(** [Torrent.set_status_message] *)
Definition set_status_message (message : string) (self : Torrent) : Torrent :=
  with_statusmsg message self.

(** [Torrent.update_state].  [session_is_paused] is the answer of
    [component.get("Core").session.is_paused()]; the debug logging is left
    out. *)
Definition update_state (LTSTATE : LtTorrentState) (session_is_paused : bool)
    (self : Torrent) : Torrent :=
  let status := h_status (handle self) in
  let ltstate := st_state status in
  let self :=
    match lt_name LTSTATE ltstate with
    | Some name => with_state name self
    | None => with_state (pretty ltstate) self
    end in
  if (0 <? Py.len (st_error status))%nat then
    let self := with_state "Error" self in
    let self := set_status_message (st_error status) self in
    if st_paused status
    then with_handle (handle_auto_managed false (handle self)) self
    else self
  else if Py.startswith (statusmsg self) "Error:" then
    let self := with_state "Error" self in
    if st_paused status
    then with_handle (handle_auto_managed false (handle self)) self
    else self
  else
    let self := set_status_message "OK" self in
    if (ltstate =? lt_Queued LTSTATE)%Z || (ltstate =? lt_Checking LTSTATE)%Z then
      if st_paused status then with_state "Paused" self
      else with_state "Checking" self
    else
      let self :=
        if (ltstate =? lt_Downloading LTSTATE)%Z
           || (ltstate =? lt_Downloading_Metadata LTSTATE)%Z
        then with_state "Downloading" self
        else if (ltstate =? lt_Finished LTSTATE)%Z
                || (ltstate =? lt_Seeding LTSTATE)%Z
        then with_state "Seeding" self
        else if (ltstate =? lt_Allocating LTSTATE)%Z
        then with_state "Allocating" self
        else self in
      if negb session_is_paused && st_paused status && st_auto_managed status
      then with_state "Queued" self
      else if session_is_paused
              || (st_paused status && negb (st_auto_managed status))
      then with_state "Paused" self
      else self.

(** Modelled from the spec: the table [deluge.common.LT_TORRENT_STATE] is
    not among the sources.  The names are those of the specification's
    table of raw states; the codes are the engine's state enumeration. *)
Definition LT_TORRENT_STATE : LtTorrentState := {|
  lt_name := λ code,
    if (code =? 0)%Z then Some "Queued"
    else if (code =? 1)%Z then Some "Checking"
    else if (code =? 2)%Z then Some "Downloading Metadata"
    else if (code =? 3)%Z then Some "Downloading"
    else if (code =? 4)%Z then Some "Finished"
    else if (code =? 5)%Z then Some "Seeding"
    else if (code =? 6)%Z then Some "Allocating"
    else if (code =? 7)%Z then Some "Checking Resume Data"
    else None;
  lt_Queued := 0; lt_Checking := 1; lt_Downloading_Metadata := 2;
  lt_Downloading := 3; lt_Finished := 4; lt_Seeding := 5; lt_Allocating := 6;
|}.

(** ** Computed status fields *)

(** [Torrent.get_eta] *)
Definition get_eta (self : Torrent) : result Value :=
  let status := status self in
  do seeding_to_ratio <-
    (if is_finished self
     then do v <- getitem (options self) "stop_at_ratio"; ret (truthy v)
     else ret false);
  if seeding_to_ratio then
    if (st_upload_payload_rate status =? 0)%Z then ret (VInt 0)
    else
      do stop_ratio <- getitem (options self) "stop_ratio";
      do wanted <- py_mul (VInt (st_all_time_download status)) stop_ratio;
      do todo <- py_sub wanted (VInt (st_all_time_upload status));
      py_div todo (VInt (st_upload_payload_rate status))
  else
    let left := (st_total_wanted status - st_total_wanted_done status)%Z in
    if (left <=? 0)%Z || (st_download_payload_rate status =? 0)%Z then ret (VInt 0)
    else
      match py_div (VInt left) (VInt (st_download_payload_rate status)) with
      | inl ZeroDivisionError => ret (VInt 0)
      | eta => eta
      end.

Section TrackerHost.

(** [urlparse(u).hostname]: [None] or the host in lower case; a malformed
    address raises. *)
Variable url_hostname : string → result (option string).
(** Whether [socket.inet_aton(host)] returns instead of raising
    [socket.error]. *)
Variable inet_aton : string → bool.

(** [Torrent.get_tracker_host].  The result is [Some host] for a string
    and [None] for Python's [None].  A parsed address always has the
    attribute [hostname], so the test [hasattr(url, "hostname")] is
    true. *)
Definition get_tracker_host : method (option string) := λ self,
  let cached :=
    match tracker_host self with
    | Some host => negb (String.eqb host "")
    | None => false
    end in
  if cached then (ret (tracker_host self), self)
  else
    let tracker := st_current_tracker (status self) in
    let tracker :=
      if String.eqb tracker ""
      then match trackers self with
           | first :: _ => tr_url first
           | [] => tracker
           end
      else tracker in
    if negb (String.eqb tracker "") then
      match url_hostname (Py.replace "udp://" "http://" tracker) with
      | inl e => (inl e, self)
      | inr hostname =>
          let host :=
            match hostname with
            | Some h => if String.eqb h "" then "DHT" else h
            | None => "DHT"
            end in
          if inet_aton host then (ret hostname, self)
          else
            let parts := Py.split "." host in
            let host :=
              if (2 <? length parts)%nat then
                if bool_decide (Py.from_end 2 parts ∈
                      [Some "co"; Some "com"; Some "net"; Some "org"])
                   || from_option (Py.contains "uk") false (Py.from_end 1 parts)
                then Py.join "." (Py.last_n 3 parts)
                else Py.join "." (Py.last_n 2 parts)
              else host in
            (ret (Some host), with_tracker_host (Some host) self)
      end
    else (ret (Some ""), self).

End TrackerHost.

(** ** Library functions used by [get_tracker_host]

    Models of [urlparse.urlparse(u).hostname] of the Python 2.7 library and
    of the C library's [inet_aton], which [socket.inet_aton] calls.  The
    theorems on [get_tracker_host] hold for any two such functions; these
    models run the scenarios. *)

Module Lib.

Fixpoint all_chars (P : ascii → bool) (s : string) : bool :=
  match s with
  | EmptyString => true
  | String c t => P c && all_chars P t
  end.

Fixpoint take_while (P : ascii → bool) (s : string) : string :=
  match s with
  | EmptyString => EmptyString
  | String c t => if P c then String c (take_while P t) else EmptyString
  end.

Fixpoint drop_while (P : ascii → bool) (s : string) : string :=
  match s with
  | EmptyString => EmptyString
  | String c t => if P c then drop_while P t else s
  end.

Definition is_digit (c : ascii) : bool :=
  let n := nat_of_ascii c in (48 <=? n)%nat && (n <=? 57)%nat.

Definition is_letter (c : ascii) : bool :=
  let n := nat_of_ascii c in
  ((65 <=? n)%nat && (n <=? 90)%nat) || ((97 <=? n)%nat && (n <=? 122)%nat).

(** [urlparse.scheme_chars] *)
Definition is_scheme_char (c : ascii) : bool :=
  is_letter c || is_digit c
  || Ascii.eqb c "+" || Ascii.eqb c "-" || Ascii.eqb c ".".

(** [urlparse._splitnetloc(url, 2)[0]] *)
Definition splitnetloc (url : string) : string :=
  take_while (λ c, negb (Ascii.eqb c "/" || Ascii.eqb c "?" || Ascii.eqb c "#"))
    (Py.drop 2 url).

(** The [netloc] component computed by [urlparse.urlsplit]. *)
Definition urlsplit_netloc (url : string) : result string :=
  let url :=
    match Py.find_char ":" url with
    | Some (S j) =>
        let scheme := Py.take (S j) url in
        let rest := Py.drop (S (S j)) url in
        if String.eqb scheme "http" then rest
        else if all_chars is_scheme_char scheme then
          if String.eqb rest "" || negb (all_chars is_digit rest)
          then rest else url
        else url
    | _ => url
    end in
  if String.eqb (Py.take 2 url) "//" then
    let netloc := splitnetloc url in
    if (Py.has_char "[" netloc && negb (Py.has_char "]" netloc))
       || (Py.has_char "]" netloc && negb (Py.has_char "[" netloc))
    then raise (ValueError "Invalid IPv6 URL")
    else ret netloc
  else ret "".

(** [ResultMixin.hostname] *)
Definition hostname_of_netloc (netloc : string) : option string :=
  let netloc := default "" (last (Py.split "@" netloc)) in
  if Py.has_char "[" netloc && Py.has_char "]" netloc then
    Some (Py.lower (Py.drop 1 (default "" (head (Py.split "]" netloc)))))
  else if Py.has_char ":" netloc then
    Some (Py.lower (default "" (head (Py.split ":" netloc))))
  else if String.eqb netloc "" then None
  else Some (Py.lower netloc).

Definition url_hostname (url : string) : result (option string) :=
  do netloc <- urlsplit_netloc url; ret (hostname_of_netloc netloc).

(** *** [inet_aton]

    One to four numbers separated by dots, each in C notation (decimal,
    [0] octal, [0x] hexadecimal); every number but the last is a byte and
    the last fills the remaining bytes; white space may follow. *)

Definition digit_value (c : ascii) : option Z :=
  let n := Z.of_nat (nat_of_ascii c) in
  if (48 <=? n)%Z && (n <=? 57)%Z then Some (n - 48)%Z
  else if (97 <=? n)%Z && (n <=? 102)%Z then Some (n - 87)%Z
  else if (65 <=? n)%Z && (n <=? 70)%Z then Some (n - 55)%Z
  else None.

Definition is_base_digit (base : Z) (c : ascii) : bool :=
  match digit_value c with
  | Some d => (d <? base)%Z
  | None => false
  end.

Fixpoint digits_value (base : Z) (acc : Z) (s : string) : Z :=
  match s with
  | EmptyString => acc
  | String c t => digits_value base (acc * base + default 0%Z (digit_value c)) t
  end.

(** [strtoul(s, &end, 0)] on a string that starts with a digit: the
    value and the unread rest. *)
Definition strtoul (s : string) : Z * string :=
  let scan base body :=
    (digits_value base 0 (take_while (is_base_digit base) body),
     drop_while (is_base_digit base) body) in
  match s with
  | String "0" (String x t) =>
      if (Ascii.eqb x "x" || Ascii.eqb x "X")
         && match t with String d _ => is_base_digit 16 d | _ => false end
      then scan 16%Z t
      else scan 8%Z s
  | _ => if String.eqb (Py.take 1 s) "0" then scan 8%Z s else scan 10%Z s
  end.

Definition part_limit (seen : nat) : Z :=
  match seen with
  | O => 4294967295%Z
  | S O => 16777215%Z
  | S (S O) => 65535%Z
  | _ => 255%Z
  end.

(** [fuel] bounds the number of parts that are read; four are enough. *)
Fixpoint inet_aton_go (fuel seen : nat) (s : string) : bool :=
  match fuel, s with
  | S fuel, String c _ =>
      if is_digit c then
        let '(val, rest) := strtoul s in
        if (4294967295 <? val)%Z then false
        else match rest with
             | String "." rest' =>
                 if (3 <=? seen)%nat || (255 <? val)%Z then false
                 else inet_aton_go fuel (S seen) rest'
             | String e _ => Py.is_space e && (val <=? part_limit seen)%Z
             | EmptyString => (val <=? part_limit seen)%Z
             end
      else false
  | _, _ => false
  end.

Definition inet_aton (s : string) : bool := inet_aton_go 4 0 s.

End Lib.


(** ** The status cache *)

Section StatusCache.

(** [self.status_funcs]: the registry of field accessors, closed over the
    torrent.  An accessor may cache what it computes and may raise. *)
Variable status_funcs : gmap string (method Value).
(** [a != b] on objects. *)
Variable py_ne : Value → Value → bool.

(** [Torrent.update_status] *)
Definition update_status (status : Status) (self : Torrent) : Torrent :=
  with_status status self.

(** The loop [for key in keys: status_dict[key] = self.status_funcs[key]()]. *)
Fixpoint fill_status_dict (keys : list string) (status_dict : gmap string Value)
    : method (gmap string Value) := λ self,
  match keys with
  | [] => (ret status_dict, self)
  | key :: keys =>
      match status_funcs !! key with
      | None => (raise (KeyError key), self)
      | Some func =>
          match func self with
          | (inl e, self) => (inl e, self)
          | (inr value, self) =>
              fill_status_dict keys (<[key := value]> status_dict) self
          end
      end
  end.

(** The loop that builds [status_diff] from a previous status. *)
Definition make_status_diff (prev status_dict : gmap string Value)
    : gmap string Value :=
  map_fold (λ key value status_diff,
    match prev !! key with
    | Some old =>
        if py_ne value old then <[key := value]> status_diff else status_diff
    | None => <[key := value]> status_diff
    end) ∅ status_dict.

(** [Torrent.get_status].  [session_id] is the answer of
    [self.rpcserver.get_session_id()]. *)
Definition get_status (session_id : Z) (keys : list string)
    (diff update all_keys : bool) : method (gmap string Value) := λ self,
  let self :=
    if update then update_status (h_status (handle self)) self else self in
  let keys := if all_keys then (map_to_list status_funcs).*1 else keys in
  match fill_status_dict keys ∅ self with
  | (inl e, self) => (inl e, self)
  | (inr status_dict, self) =>
      if diff then
        match prev_status self !! session_id with
        | Some prev =>
            let status_diff := make_status_diff prev status_dict in
            (ret status_diff,
             with_prev_status (<[session_id := status_dict]> (prev_status self)) self)
        | None =>
            (ret status_dict,
             with_prev_status (<[session_id := status_dict]> (prev_status self)) self)
        end
      else (ret status_dict, self)
  end.

End StatusCache.

(** ** The piece planner *)

(** [int(0.02 * size)] *)
Definition two_percent_bytes (size : Z) : Z :=
  int_of_float (PrimFloat.mul 0x1.47ae147ae147bp-6%float (float_of_int size)).

(** [priorities[a:b] = map(lambda p: p and 7, priorities[a:b])] for piece
    indices [a] and [b]: a slice is cut at the end of the list and is empty
    when [b <= a]. *)
Definition boost_slice (a b : nat) (priorities : list Z) : list Z :=
  take a priorities
  ++ ((λ p, if (p =? 0)%Z then p else 7%Z) <$> take (b - a) (drop a priorities))
  ++ drop (a `max` b) priorities.

(** The body of [for i in range(ti.num_files())], from file [i] on. *)
Fixpoint prioritize_files_from (ti : TorrentInfo) (i : nat) (files : list FileEntry)
    (prioritized_pieces : list (nat * nat)) (priorities : list Z)
    : list (nat * nat) * list Z :=
  match files with
  | [] => (prioritized_pieces, priorities)
  | f :: files =>
      let first_start := ti_map_file ti i 0 in
      let first_end := ti_map_file ti i (two_percent_bytes (fe_size f)) in
      let last_start :=
        ti_map_file ti i (fe_size f - two_percent_bytes (fe_size f)) in
      let last_end := ti_map_file ti i ((fe_size f - 1) `max` 0) in
      let first_end := first_end + 1 in
      let last_end := last_end + 1 in
      let prioritized_pieces :=
        prioritized_pieces ++ [(first_start, first_end); (last_start, last_end)] in
      let priorities := boost_slice first_start first_end priorities in
      let priorities := boost_slice last_start last_end priorities in
      prioritize_files_from ti (S i) files prioritized_pieces priorities
  end.

Section PiecePlanner.

(** [Torrent.set_file_priorities], which resets the piece priorities
    through the engine when the option is switched off. *)
Variable set_file_priorities : Value → method unit.

(** [Torrent.set_prioritize_first_last_pieces].  The result is [None]
    where the method returns nothing. *)
Definition set_prioritize_first_last_pieces (prioritize : Value)
    : method (option (list (nat * nat) * list Z)) := λ self,
  let self := store_option "prioritize_first_last_pieces" prioritize self in
  if negb (truthy prioritize) then
    match getitem (options self) "file_priorities" with
    | inl e => (inl e, self)
    | inr file_priorities =>
        match set_file_priorities file_priorities self with
        | (inl e, self) => (inl e, self)
        | (inr _, self) => (ret None, self)
        end
    end
  else if negb (has_metadata self) then (ret None, self)
  else
    match getitem (options self) "compact_allocation" with
    | inl e => (inl e, self)
    | inr compact =>
        if truthy compact then (ret None, self)
        else
          let priorities := h_piece_priorities (handle self) in
          let ti := torrent_info self in
          let '(prioritized_pieces, priorities) :=
            prioritize_files_from ti 0 (ti_files ti) [] priorities in
          (ret (Some (prioritized_pieces, priorities)),
           with_handle (handle_prioritize_pieces priorities (handle self)) self)
    end.

End PiecePlanner.

(** ** The piece availability view *)

(** The first loop of [_get_pieces_info]: the pieces in flight. *)
Definition downloading_pieces (peers : list PeerInfo) : gmap Z Z :=
  foldl (λ pieces peer_info,
    if (pi_downloading_piece_index peer_info <? 0)%Z then pieces
    else <[pi_downloading_piece_index peer_info := 2%Z]> pieces) ∅ peers.

(** The second loop, over [enumerate(self.status.pieces)] from [idx] on. *)
Fixpoint classify_rest (availability : list Z) (idx : nat) (have : list bool)
    (pieces : gmap Z Z) : result (gmap Z Z) :=
  match have with
  | [] => ret pieces
  | piece :: have =>
      if bool_decide (Z.of_nat idx ∈ dom pieces) then
        classify_rest availability (S idx) have pieces
      else if piece then
        classify_rest availability (S idx) have (<[Z.of_nat idx := 3%Z]> pieces)
      else
        match availability !! idx with
        | None => raise IndexError
        | Some avail =>
            if (0 <? avail)%Z then
              classify_rest availability (S idx) have (<[Z.of_nat idx := 1%Z]> pieces)
            else
              classify_rest availability (S idx) have (<[Z.of_nat idx := 0%Z]> pieces)
        end
  end.

(** [Torrent._get_pieces_info] *)
Definition _get_pieces_info (self : Torrent) : result (option (list Z)) :=
  if negb (has_metadata self) then ret None
  else
    let availability := h_piece_availability (handle self) in
    let pieces := downloading_pieces (h_peer_info (handle self)) in
    do pieces <- classify_rest availability 0 (st_pieces (status self)) pieces;
    let sorted_indexes := merge_sort Z.le (elements (dom pieces)) in
    ret (Some (omap (λ idx, pieces !! idx) sorted_indexes)).

(** The flags [lt.peer_info.connecting] and [lt.peer_info.handshake]. *)
Definition peer_connecting : Z := 128.
Definition peer_handshake : Z := 64.

(** The condition under which [get_peers] skips a peer: "We do not want to
    report peers that are half-connected". *)
Definition half_connected (peer : PeerInfo) : bool :=
  negb (Z.land (pi_flags peer) peer_connecting =? 0)%Z
  || negb (Z.land (pi_flags peer) peer_handshake =? 0)%Z.

(** The peers [get_peers] reports, in order; the dictionary it builds for
    each of them is left out. *)
Definition get_peers (self : Torrent) : list PeerInfo :=
  filter (λ peer, half_connected peer = false) (h_peer_info (handle self)).

(** ** [set_options] *)

(** The argument of [set_options]: the torrent's own options object, or a
    dictionary object of the caller with the given content. *)
Inductive options_arg :=
  | OwnOptions
  | CallerDict (u : gmap string Value).

Section SetOptions.

(** [getattr(self, "set_" + key, None)]: the bound setter, if the class
    has a method of that name.  Setters reach into the engine binding. *)
Variable getattr_set : string → option (Value → method unit).
(** [d.items()]: the items in the dictionary's iteration order. *)
Variable dict_items : gmap string Value → list (string * Value).

(** The loop [for key, value in options.items()], on the remaining items.
    [options_dict] is the content of the dictionary the loop deletes from;
    it is returned with the outcome. *)
Fixpoint set_options_loop (items : list (string * Value)) (skip_func : list string)
    (options_dict : gmap string Value) (self : Torrent)
    : result unit * Torrent * gmap string Value :=
  match items with
  | [] => (ret tt, self, options_dict)
  | (key, value) :: items =>
      if bool_decide (key ∈ dom (options self)) then
        match getattr_set key with
        | Some options_set_func =>
            if bool_decide (key ∉ skip_func) then
              match options_set_func value self with
              | (inl e, self) => (inl e, self, options_dict)
              | (inr _, self) =>
                  set_options_loop items skip_func (delete key options_dict) self
              end
            else
              set_options_loop items skip_func options_dict
                (store_option key value self)
        | None =>
            set_options_loop items skip_func options_dict
              (store_option key value self)
        end
      else set_options_loop items skip_func options_dict self
  end.

(** [Torrent.set_options].  Besides the outcome and the torrent, the
    result gives the final content of the dictionary that was iterated:
    the caller's object for [CallerDict], the private copy for
    [OwnOptions]. *)
Definition set_options (arg : options_arg) (self : Torrent)
    : result unit * Torrent * gmap string Value :=
  let options_dict :=
    match arg with
    | OwnOptions => options self
    | CallerDict u => u
    end in
  if bool_decide ("file_priorities" ∈ dom options_dict) then
    match getitem options_dict "prioritize_first_last_pieces" with
    | inl e => (inl e, self, options_dict)
    | inr flag =>
        let self := store_option "prioritize_first_last_pieces" flag self in
        set_options_loop (dict_items options_dict)
          ["prioritize_first_last_pieces"] options_dict self
    end
  else set_options_loop (dict_items options_dict) [] options_dict self.

End SetOptions.

(** The functions named by [skip_func] in [set_options] for an update with
    the given content. *)
Definition skipped (options_dict : gmap string Value) : list string :=
  if bool_decide ("file_priorities" ∈ dom options_dict)
  then ["prioritize_first_last_pieces"] else [].

(** The test under which the loop hands a key to its setter: the key is a
    recognised option, the class has a setter for it, and the setter is not
    skipped. *)
Definition dispatched (getattr_set : string → option (Value → method unit))
    (skip_func : list string) (self : Torrent) (key : string) : bool :=
  bool_decide (key ∈ dom (options self))
  && bool_decide (is_Some (getattr_set key))
  && bool_decide (key ∉ skip_func).

(** The keys [TorrentOptions.__init__] creates. *)
Definition default_option_keys : gset string :=
  list_to_set
    ["max_connections"; "max_upload_slots"; "max_upload_speed";
     "max_download_speed"; "prioritize_first_last_pieces";
     "sequential_download"; "compact_allocation"; "download_location";
     "auto_managed"; "stop_at_ratio"; "stop_ratio"; "remove_at_ratio";
     "move_completed"; "move_completed_path"; "add_paused"; "shared";
     "super_seeding"; "priority"; "file_priorities"; "mapped_files";
     "owner"; "name"].

(** Setters that only store their argument. *)
Definition set_stop_ratio (stop_ratio : Value) : method unit := λ self,
  (ret tt, store_option "stop_ratio" stop_ratio self).
Definition set_stop_at_ratio (stop_at_ratio : Value) : method unit := λ self,
  (ret tt, store_option "stop_at_ratio" stop_at_ratio self).
Definition set_remove_at_ratio (remove_at_ratio : Value) : method unit := λ self,
  (ret tt, store_option "remove_at_ratio" remove_at_ratio self).
Definition set_move_completed (move_completed : Value) : method unit := λ self,
  (ret tt, store_option "move_completed" move_completed self).
Definition set_move_completed_path (move_completed_path : Value) : method unit :=
  λ self, (ret tt, store_option "move_completed_path" move_completed_path self).
Definition set_download_location (download_location : Value) : method unit :=
  λ self, (ret tt, store_option "download_location" download_location self).

(** The setters above as a method table: the part of the class whose
    setters store their argument and do nothing else. *)
Definition store_only_setters (key : string) : option (Value → method unit) :=
  if String.eqb key "stop_ratio" then Some set_stop_ratio
  else if String.eqb key "stop_at_ratio" then Some set_stop_at_ratio
  else if String.eqb key "remove_at_ratio" then Some set_remove_at_ratio
  else if String.eqb key "move_completed" then Some set_move_completed
  else if String.eqb key "move_completed_path" then Some set_move_completed_path
  else if String.eqb key "download_location" then Some set_download_location
  else None.

(** [Torrent.set_priority] on the object [set_options] hands over.  The
    test [0 <= priority <= 255] is Python 2's comparison: numbers compare
    by value, [None] is smaller and every other object is greater than any
    number, so the test fails for what is not a number.  The binding's
    [set_priority] takes an [int]: it converts a [bool] and refuses a
    [float] with Boost.Python's [ArgumentError], a [TypeError], after the
    option was stored. *)
Definition set_priority_object (priority : Value) : method unit := λ self,
  let invalid :=
    ValueError "Torrent priority, %s, is invalid, should be [0..255]" in
  match priority with
  | VInt p => set_priority p self
  | VBool b =>
      let self := store_option "priority" (VBool b) self in
      (ret tt, with_handle (handle_set_priority (Z.b2z b) (handle self)) self)
  | VFloat x =>
      if PrimFloat.leb 0 x && PrimFloat.leb x 255
      then (raise TypeError, store_option "priority" (VFloat x) self)
      else (raise invalid, self)
  | _ => (raise invalid, self)
  end.

(** The method table with [set_priority] next to the setters that only
    store. *)
Definition priority_and_store_only_setters (key : string)
    : option (Value → method unit) :=
  if String.eqb key "priority" then Some set_priority_object
  else store_only_setters key.

(** ** The rename coordinator *)

(** [sanitize_filepath] *)
Definition clean_filename (filename : string) : string :=
  let filename := Py.strip filename in
  if String.eqb (Py.replace "." "" filename) "" then "" else filename.

Definition sanitize_filepath (filepath : string) (folder : bool) : string :=
  let newfilepath :=
    if Py.has_char Py.backslash filepath || Py.has_char "/" filepath then
      let folderpath := Py.split "/" (Py.replace_char Py.backslash "/" filepath) in
      let folderpath := clean_filename <$> folderpath in
      Py.join "/" (filter (λ x, x ≠ "") folderpath)
    else clean_filename filepath in
  if folder then newfilepath +:+ "/" else newfilepath.

(** [Torrent.get_files]: the index and the path of each file; the size and
    the offset are read from [torrent_info] where needed. *)
Definition get_files (self : Torrent) : list (nat * string) :=
  if negb (has_metadata self) then []
  else imap (λ index file, (index, Py.replace_char Py.backslash "/" (fe_path file)))
         (ti_files (torrent_info self)).

(** Events given to the event manager. *)
Inductive Event :=
  | TorrentFolderRenamedEvent (torrent_id folder new_folder : string).

(** *** Deferreds

    The part of [twisted.internet.defer] that [rename_folder] uses.  The
    callbacks a program attaches are closures; here they are the closures
    this program creates, as data.  A per-file [Deferred] carries
    [on_file_rename_complete] and the [_cbDeferred] hook of the
    [DeferredList] that watches it; the [DeferredList] carries
    [on_folder_rename_complete]. *)

Inductive file_callback :=
  | on_file_rename_complete (wait_dict : nat) (index : nat)
  | cbDeferred (deferred_list : nat).

Inductive list_callback :=
  | on_folder_rename_complete (folder new_folder : string).

Record Deferred := {
  called : bool;
  callbacks : list file_callback;
}.

(** [dl_len] is [len(self.resultList)], [dl_finished] is
    [self.finishedCount]. *)
Record DeferredList := {
  dl_called : bool;
  dl_callbacks : list list_callback;
  dl_len : nat;
  dl_finished : nat;
}.

(** The torrent with the objects its rename closures share and the
    collaborators they call: the dictionaries referenced from
    [waiting_on_folder_rename] (file index to [Deferred]), the
    [DeferredList]s, the events emitted, the folders handed to
    [remove_empty_folders] and the torrents whose resume data was
    requested. *)
Record World := {
  w_self : Torrent;
  w_dicts : gmap nat (gmap nat Deferred);
  w_lists : gmap nat DeferredList;
  w_events : list Event;
  w_removed : list string;
  w_resume : list string;
}.

Definition world_with_self (t : Torrent) (w : World) : World :=
  {| w_self := t; w_dicts := w_dicts w; w_lists := w_lists w;
     w_events := w_events w; w_removed := w_removed w; w_resume := w_resume w |}.

Definition world_with_dicts (d : gmap nat (gmap nat Deferred)) (w : World) : World :=
  {| w_self := w_self w; w_dicts := d; w_lists := w_lists w;
     w_events := w_events w; w_removed := w_removed w; w_resume := w_resume w |}.

Definition world_with_lists (l : gmap nat DeferredList) (w : World) : World :=
  {| w_self := w_self w; w_dicts := w_dicts w; w_lists := l;
     w_events := w_events w; w_removed := w_removed w; w_resume := w_resume w |}.

(** Truth value of a dictionary object: non-empty. *)
Definition dict_truthy (w : World) (ref : nat) : bool :=
  match w_dicts w !! ref with
  | Some d => negb (bool_decide (d = ∅))
  | None => false
  end.

(** The closure [on_folder_rename_complete] of [rename_folder]. *)
Definition run_list_callback (cb : list_callback) (w : World) : World :=
  match cb with
  | on_folder_rename_complete folder new_folder =>
      let self := w_self w in
      {| w_self :=
           with_waiting
             (filter (λ ref, dict_truthy w ref = true) (waiting_on_folder_rename self))
             self;
         w_dicts := w_dicts w; w_lists := w_lists w;
         w_events :=
           w_events w ++ [TorrentFolderRenamedEvent (torrent_id self) folder new_folder];
         w_removed := w_removed w ++ [folder];
         w_resume := w_resume w ++ [torrent_id self] |}
  end.

(** [DeferredList.callback(resultList)]: the list fires and runs the
    callbacks attached so far. *)
Definition fire_list (ref : nat) (dl : DeferredList) (w : World) : World :=
  let w :=
    world_with_lists
      (<[ref := {| dl_called := true; dl_callbacks := [];
                   dl_len := dl_len dl; dl_finished := dl_finished dl |}]> (w_lists w)) w in
  foldl (λ w cb, run_list_callback cb w) w (dl_callbacks dl).

(** [d.addBoth(on_folder_rename_complete, ...)]: a callback added to a
    fired deferred runs at once. *)
Definition list_addBoth (ref : nat) (cb : list_callback) (w : World) : World :=
  match w_lists w !! ref with
  | Some dl =>
      if dl_called dl then run_list_callback cb w
      else
        world_with_lists
          (<[ref := {| dl_called := false; dl_callbacks := dl_callbacks dl ++ [cb];
                       dl_len := dl_len dl; dl_finished := dl_finished dl |}]> (w_lists w)) w
  | None => w
  end.

(** One callback of a per-file [Deferred]. *)
Definition run_file_callback (cb : file_callback) (w : World) : World :=
  match cb with
  | on_file_rename_complete wait_dict index =>
      (* wait_dict.pop(index, None) *)
      world_with_dicts (alter (delete index) wait_dict (w_dicts w)) w
  | cbDeferred ref =>
      (* DeferredList._cbDeferred *)
      match w_lists w !! ref with
      | Some dl =>
          let dl := {| dl_called := dl_called dl; dl_callbacks := dl_callbacks dl;
                       dl_len := dl_len dl; dl_finished := S (dl_finished dl) |} in
          let w := world_with_lists (<[ref := dl]> (w_lists w)) w in
          if negb (dl_called dl) && (dl_finished dl =? dl_len dl)%nat
          then fire_list ref dl w else w
      | None => w
      end
  end.

(** [wait_dict[index].callback(None)] *)
Definition fire_file (wait_dict index : nat) (w : World) : result unit * World :=
  match w_dicts w !! wait_dict ≫= (.!! index) with
  | Some d =>
      if called d then (raise AlreadyCalledError, w)
      else
        let w :=
          world_with_dicts
            (alter (<[index := {| called := true; callbacks := [] |}]>) wait_dict
               (w_dicts w)) w in
        (ret tt, foldl (λ w cb, run_file_callback cb w) w (callbacks d))
  | None => (raise (KeyError (pretty index)), w)
  end.

(** [DeferredList(deferreds)] for the deferreds stored in the dictionary
    [wait_dict], none of which has fired: the new list object at [ref]. *)
Definition new_DeferredList (ref wait_dict : nat) (w : World) : World :=
  let deferreds := default ∅ (w_dicts w !! wait_dict) in
  let dl := {| dl_called := false; dl_callbacks := [];
               dl_len := size deferreds; dl_finished := 0 |} in
  let w := world_with_lists (<[ref := dl]> (w_lists w)) w in
  let w := if (size deferreds =? 0)%nat then fire_list ref dl w else w in
  world_with_dicts
    (alter (fmap (λ d, {| called := called d;
                          callbacks := callbacks d ++ [cbDeferred ref] |}))
       wait_dict (w_dicts w)) w.

(** The loop [for f in self.get_files()] of [rename_folder]. *)
Definition rename_matching (folder new_folder : string) (wait_dict : nat)
    (files : list (nat * string)) (w : World) : World :=
  foldl (λ w f,
    if Py.startswith f.2 folder then
      let d := {| called := false;
                  callbacks := [on_file_rename_complete wait_dict f.1] |} in
      let w := world_with_dicts (alter (<[f.1 := d]>) wait_dict (w_dicts w)) w in
      let new_path := Py.replace_first folder new_folder f.2 in
      world_with_self
        (with_handle (handle_rename_file f.1 new_path (handle (w_self w))) (w_self w)) w
    else w) w files.

(** [Torrent.rename_folder].  The result is the reference of the returned
    [DeferredList], or [None] where the method returns nothing. *)
Definition rename_folder (folder new_folder : string) (w : World) : option nat * World :=
  if (Py.len new_folder <? 1)%nat then (None, w)
  else
    let new_folder := sanitize_filepath new_folder true in
    let wait_on_folder := fresh (dom (w_dicts w)) in
    let w := world_with_dicts (<[wait_on_folder := ∅]> (w_dicts w)) w in
    let w :=
      world_with_self
        (with_waiting (waiting_on_folder_rename (w_self w) ++ [wait_on_folder])
           (w_self w)) w in
    let w := rename_matching folder new_folder wait_on_folder (get_files (w_self w)) w in
    let d := fresh (dom (w_lists w)) in
    let w := new_DeferredList d wait_on_folder w in
    let w := list_addBoth d (on_folder_rename_complete folder new_folder) w in
    (Some d, w).

(** Modelled from the spec: the delivery of a file-rename completion, which
    lives in the torrent manager's alert handler.  "Each file-rename
    completion (signaled by the engine, success or failure) removes its
    token from the wait-group": the first group of
    [waiting_on_folder_rename] that holds a token for the file index has
    that token fired; a completion no group waits for leaves the
    coordinator as it is. *)
Definition file_rename_completed (index : nat) (w : World) : result unit * World :=
  match
    list_find (λ ref, is_Some (w_dicts w !! ref ≫= (.!! index)))
      (waiting_on_folder_rename (w_self w))
  with
  | Some (_, wait_dict) => fire_file wait_dict index w
  | None => (ret tt, w)
  end.

(** Completions delivered one after the other. *)
Fixpoint deliver (indices : list nat) (w : World) : result unit * World :=
  match indices with
  | [] => (ret tt, w)
  | index :: indices =>
      match file_rename_completed index w with
      | (inl e, w) => (inl e, w)
      | (inr _, w) => deliver indices w
      end
  end.

(** ** A torrent to run the model on

    Three files in 100-byte pieces; the first two live under [d/].  The
    torrent is finished and seeds towards ratio 2.0 at 10 bytes a second. *)

Definition example_files : list FileEntry :=
  [ {| fe_path := "d/a.txt"; fe_size := 300; fe_offset := 0 |};
    {| fe_path := "d/b.txt"; fe_size := 500; fe_offset := 300 |};
    {| fe_path := "e/c.txt"; fe_size := 0; fe_offset := 800 |} ].

(** The engine's [map_file] for that layout: the piece of byte
    [offset(i) + off]. *)
Definition example_info : TorrentInfo := {|
  ti_files := example_files;
  ti_map_file := λ i off,
    Z.to_nat ((default 0%Z (fe_offset <$> example_files !! i) + off) / 100);
|}.

Definition example_status : Status := {|
  st_state := 5; st_paused := false; st_auto_managed := true; st_error := "";
  st_upload_payload_rate := 10; st_download_payload_rate := 0;
  st_all_time_download := 1000; st_all_time_upload := 300;
  st_total_wanted := 800; st_total_wanted_done := 800;
  st_current_tracker := "udp://tracker.example.co.uk/announce";
  st_pieces := [true; false; false; false];
|}.

Definition example_handle : Handle := {|
  h_status := example_status;
  h_piece_priorities := [1; 0; 1; 1; 1; 0; 4; 1]%Z;
  h_peer_info :=
    [ {| pi_flags := 128; pi_downloading_piece_index := 0 |};
      {| pi_flags := 0; pi_downloading_piece_index := 2 |};
      {| pi_flags := 0; pi_downloading_piece_index := -1 |} ];
  h_piece_availability := [0; 3; 0; 0]%Z;
  h_calls := [];
|}.

Definition example_options : gmap string Value :=
  list_to_map
    [ ("max_connections", VInt (-1)); ("max_upload_slots", VInt (-1));
      ("max_upload_speed", VInt (-1)); ("max_download_speed", VInt (-1));
      ("prioritize_first_last_pieces", VBool false);
      ("sequential_download", VBool false);
      ("compact_allocation", VBool false);
      ("download_location", VStr "/srv/torrents");
      ("auto_managed", VBool true); ("stop_at_ratio", VBool true);
      ("stop_ratio", VFloat 2); ("remove_at_ratio", VBool false);
      ("move_completed", VBool false); ("move_completed_path", VStr "");
      ("add_paused", VBool false); ("shared", VBool false);
      ("super_seeding", VBool false); ("priority", VInt 0);
      ("file_priorities", VList [VInt 1; VInt 1; VInt 1]);
      ("mapped_files", VDict []); ("owner", VNone); ("name", VNone) ].

Definition example_torrent : Torrent := {|
  torrent_id := "2fd4e1c67a2d28fced849ee1bb76e7391b93eb12";
  options := example_options;
  handle := example_handle;
  status := example_status;
  torrent_info := example_info;
  has_metadata := true;
  is_finished := true;
  state := "Seeding";
  statusmsg := "OK";
  trackers := [];
  tracker_host := None;
  prev_status := ∅;
  waiting_on_folder_rename := [];
|}.

(** Whether the float [x] has exactly the integer value [z].  Python
    compares an [int] with a [float] by value, without rounding the
    [int]. *)
Definition float_is_int (x : float) (z : Z) : bool :=
  match Prim2SF x with
  | S754_zero _ => (z =? 0)%Z
  | S754_finite s m e =>
      let mag :=
        if (0 <=? e)%Z then Some (Z.pos m * 2 ^ e)%Z
        else if (Z.pos m mod 2 ^ (- e) =? 0)%Z then Some (Z.pos m / 2 ^ (- e))%Z
        else None in
      match mag with
      | Some v => ((if s then - v else v) =? z)%Z
      | None => false
      end
  | _ => false
  end.

(** [d.get(key)] on the items of a dictionary object. *)
Fixpoint dict_get (key : string) (d : list (string * Value)) : option Value :=
  match d with
  | [] => None
  | (k, v) :: d => if String.eqb k key then Some v else dict_get key d
  end.

(** [a == b] on objects, by value: numbers by their exact value (a [bool]
    is an [int], a NaN equals nothing), strings by their characters, lists
    element by element, dictionaries key by key; objects of different
    kinds are different.  The shortcut by which a container compares equal
    to itself whatever it holds is a matter of object identity and is not
    modelled. *)
Fixpoint value_eq (a b : Value) {struct a} : bool :=
  match a, b with
  | VNone, VNone => true
  | VStr s, VStr t => String.eqb s t
  | VList l, VList l' =>
      (fix list_eq (l l' : list Value) {struct l} : bool :=
         match l, l' with
         | [], [] => true
         | x :: l, y :: l' => value_eq x y && list_eq l l'
         | _, _ => false
         end) l l'
  | VDict d, VDict d' =>
      (length d =? length d')%nat
      && (fix items_eq (d : list (string * Value)) {struct d} : bool :=
            match d with
            | [] => true
            | (k, v) :: d =>
                match dict_get k d' with
                | Some v' => value_eq v v'
                | None => false
                end && items_eq d
            end) d
  | _, _ =>
      match as_num a, as_num b with
      | inr (NInt x), inr (NInt y) => (x =? y)%Z
      | inr (NFloat x), inr (NFloat y) => PrimFloat.eqb x y
      | inr (NInt x), inr (NFloat y) => float_is_int y x
      | inr (NFloat x), inr (NInt y) => float_is_int x y
      | _, _ => false
      end
  end.

(** [a != b] on objects. *)
Definition scalar_ne (a b : Value) : bool := negb (value_eq a b).

(** Some entries of the registry [_create_status_funcs] builds: plain
    attribute reads, a computed field that may raise and one that caches. *)
Definition example_status_funcs : gmap string (method Value) :=
  list_to_map
    [ ("state", λ self, (ret (VStr (state self)), self));
      ("message", λ self, (ret (VStr (statusmsg self)), self));
      ("is_finished", λ self, (ret (VBool (is_finished self)), self));
      ("paused", λ self, (ret (VBool (st_paused (status self))), self));
      ("total_wanted", λ self, (ret (VInt (st_total_wanted (status self))), self));
      ("total_remaining", λ self,
         (ret (VInt (st_total_wanted (status self)
                     - st_total_wanted_done (status self))), self));
      ("eta", λ self, (get_eta self, self));
      ("tracker_host", λ self,
         match get_tracker_host Lib.url_hostname Lib.inet_aton self with
         | (inl e, self) => (inl e, self)
         | (inr (Some host), self) => (ret (VStr host), self)
         | (inr None, self) => (ret VNone, self)
         end) ].

(** An update for [set_options]: a ratio, which has a store-only setter, a
    flag without a setter and a key that is no option. *)
Definition example_update : gmap string Value :=
  {[ "stop_ratio" := VFloat 3; "shared" := VBool true; "colour" := VInt 1 ]}.

(** ** What the specification says, where it is compared with the code *)

(** The ETA as the specification words it: for a finished torrent that
    stops at a ratio, 0 when nothing is uploaded and otherwise
    [(all_time_download * stop_ratio - all_time_upload) / upload_rate]; in
    all other cases 0 when nothing is left or nothing is downloaded, and
    otherwise the remaining bytes divided by the download rate. *)
Definition eta_spec (finished stop_at_ratio : bool) (stop_ratio : num)
    (s : Status) : num :=
  if finished && stop_at_ratio then
    if (st_upload_payload_rate s =? 0)%Z then NInt 0
    else
      num_quot
        (num_sub (num_mul (NInt (st_all_time_download s)) stop_ratio)
           (NInt (st_all_time_upload s)))
        (NInt (st_upload_payload_rate s))
  else
    let remaining := (st_total_wanted s - st_total_wanted_done s)%Z in
    if (remaining <=? 0)%Z || (st_download_payload_rate s =? 0)%Z then NInt 0
    else NInt (remaining / st_download_payload_rate s).

(** What the planner does to one priority: a piece inside a boosted range
    goes to 7 unless it is marked do-not-download. *)
Definition boosted (inside : bool) (p : Z) : Z :=
  if inside && negb (p =? 0)%Z then 7%Z else p.

(** Whether piece [j] lies in one of the end-exclusive ranges. *)
Definition in_ranges (j : nat) (ranges : list (nat * nat)) : bool :=
  existsb (λ r, (r.1 <=? j)%nat && (j <? r.2)%nat) ranges.

(** The ranges the specification names, for the files from index [i] on:
    for every file the pieces that cover its first 2% of bytes and those
    that cover its last 2%, at least one piece each. *)
Fixpoint first_last_ranges (ti : TorrentInfo) (i : nat) (files : list FileEntry)
    : list (nat * nat) :=
  match files with
  | [] => []
  | f :: files =>
      (ti_map_file ti i 0,
       ti_map_file ti i (two_percent_bytes (fe_size f)) + 1)
      :: (ti_map_file ti i (fe_size f - two_percent_bytes (fe_size f)),
          ti_map_file ti i ((fe_size f - 1) `max` 0) + 1)
      :: first_last_ranges ti (S i) files
  end.

(** The ranges computed by a call with [prioritize = True]: none when the
    call stops early (no metadata yet, compact allocation). *)
Definition computed_ranges (self : Torrent) : list (nat * nat) :=
  if has_metadata self
     && negb (from_option truthy true (options self !! "compact_allocation"))
  then first_last_ranges (torrent_info self) 0 (ti_files (torrent_info self))
  else [].

(** Whether some peer of the list reports piece [k] as the piece it is
    downloading. *)
Definition in_flight (peers : list PeerInfo) (k : Z) : bool :=
  existsb (λ peer,
    negb (pi_downloading_piece_index peer <? 0)%Z
    && (pi_downloading_piece_index peer =? k)%Z) peers.

(** The class of piece [idx] in the words of the specification, for a given
    list of peers: 2 when a peer has it in flight, else 3 when it is
    complete, else 1 when its availability is positive, else 0. *)
Definition piece_class (peers : list PeerInfo) (have : list bool)
    (availability : list Z) (idx : nat) : Z :=
  if in_flight peers (Z.of_nat idx) then 2%Z
  else if default false (have !! idx) then 3%Z
  else if (0 <? default 0%Z (availability !! idx))%Z then 1%Z
  else 0%Z.

(** The tracker address [get_tracker_host] works from: the current
    tracker, or the first tracker of the list when there is no current
    one. *)
Definition announce_url (self : Torrent) : string :=
  let tracker := st_current_tracker (status self) in
  if String.eqb tracker ""
  then match trackers self with
       | first :: _ => tr_url first
       | [] => tracker
       end
  else tracker.

(** The indices of the files under [folder], in file order: the files for
    which [rename_folder] issues a rename. *)
Definition matching_files (folder : string) (self : Torrent) : list nat :=
  (filter (λ f, Py.startswith f.2 folder = true) (get_files self)).*1.

(** The per-file [Deferred] of a folder rename once the [DeferredList]
    watches it. *)
Definition pending_deferred (wait_dict deferred_list index : nat) : Deferred :=
  {| called := false;
     callbacks := [on_file_rename_complete wait_dict index;
                   cbDeferred deferred_list] |}.

(** The state of a folder rename in flight, seen from the world [w0] the
    request started in: the wait-group [wait_dict] holds a pending deferred
    for each of the [rest] indices and nothing else, the other dictionaries
    are as they were, the [DeferredList] counts the completions seen so far
    and has not fired, the wait-group is at the end of
    [waiting_on_folder_rename], and no event was emitted. *)
Record rename_in_flight (w0 : World) (wait_dict deferred_list : nat)
    (folder new_folder : string) (total : nat) (rest : list nat) (w : World)
    : Prop := {
  rif_group : ∃ group,
    w_dicts w !! wait_dict = Some group
    ∧ ∀ i, group !! i
           = if bool_decide (i ∈ rest)
             then Some (pending_deferred wait_dict deferred_list i) else None;
  rif_others : ∀ ref, ref ≠ wait_dict → w_dicts w !! ref = w_dicts w0 !! ref;
  rif_list :
    w_lists w !! deferred_list
    = Some {| dl_called := false;
              dl_callbacks := [on_folder_rename_complete folder new_folder];
              dl_len := total; dl_finished := total - length rest |};
  rif_waiting :
    waiting_on_folder_rename (w_self w)
    = waiting_on_folder_rename (w_self w0) ++ [wait_dict];
  rif_id : torrent_id (w_self w) = torrent_id (w_self w0);
  rif_events : w_events w = w_events w0;
  rif_count : length rest ≤ total;
}.

(** The state once the folder rename is complete: one event more than in
    [w0], the wait-group empty and out of [waiting_on_folder_rename]. *)
Record rename_complete (w0 : World) (wait_dict : nat)
    (folder new_folder : string) (w : World) : Prop := {
  rc_events :
    w_events w
    = w_events w0
      ++ [TorrentFolderRenamedEvent (torrent_id (w_self w0)) folder new_folder];
  rc_group : w_dicts w !! wait_dict = Some ∅;
  rc_waiting : wait_dict ∉ waiting_on_folder_rename (w_self w);
  rc_kept : ∀ ref, ref ∈ waiting_on_folder_rename (w_self w) ↔
                   ref ∈ waiting_on_folder_rename (w_self w0)
                   ∧ dict_truthy w0 ref = true;
}.

(** The example torrent with no rename in flight and nothing emitted. *)
Definition example_world : World := {|
  w_self := example_torrent;
  w_dicts := ∅;
  w_lists := ∅;
  w_events := [];
  w_removed := [];
  w_resume := [];
|}.

(** The inputs of the classifier carried by a torrent: what the handle
    reports (raw state, paused, auto-managed, error) and the current status
    message. *)
Definition classifier_inputs (self : Torrent) : Z * bool * bool * string * string :=
  let status := h_status (handle self) in
  (st_state status, st_paused status, st_auto_managed status, st_error status,
   statusmsg self).

(** What the classifier decides: the state, the status message and the
    auto-managed flag the engine is left with. *)
Definition classifier_outputs (self : Torrent) : string * string * bool :=
  (state self, statusmsg self, st_auto_managed (h_status (handle self))).

(** The class the second loop of [_get_pieces_info] gives to a piece that no
    peer has in flight. *)
Definition settled_class (availability : list Z) (all_pieces : list bool)
    (i : nat) : Z :=
  if default false (all_pieces !! i) then 3%Z
  else if (0 <? default 0%Z (availability !! i))%Z then 1%Z
  else 0%Z.

(** ** Further methods and what their properties are stated with *)

(** *** The state classifier, continued *)

(** The label [update_state] gives a torrent without an error before it
    looks at the pause flags: the raw state's label, or the raw state's
    name (its decimal form when the table has no name) for a raw state the
    classifier does not list. *)
Definition provisional_state (LT : LtTorrentState) (raw : Z) : string :=
  if (raw =? lt_Downloading LT)%Z || (raw =? lt_Downloading_Metadata LT)%Z
  then "Downloading"
  else if (raw =? lt_Finished LT)%Z || (raw =? lt_Seeding LT)%Z then "Seeding"
  else if (raw =? lt_Allocating LT)%Z then "Allocating"
  else match lt_name LT raw with Some name => name | None => pretty raw end.

(** The state of a torrent without an error, as the last branch of
    [update_state] leaves it. *)
Definition settled_state (LT : LtTorrentState) (sp : bool) (raw : Z)
    (paused auto_managed : bool) : string :=
  if (raw =? lt_Queued LT)%Z || (raw =? lt_Checking LT)%Z
  then (if paused then "Paused" else "Checking")
  else if negb sp && paused && auto_managed then "Queued"
  else if sp || (paused && negb auto_managed) then "Paused"
  else provisional_state LT raw.

(** The states [update_state] names in its own text. *)
Definition state_labels : list string :=
  ["Error"; "Checking"; "Paused"; "Downloading"; "Seeding"; "Allocating"; "Queued"].

(** Whether [raw] is one of the seven raw states [update_state] tests
    for. *)
Definition known_raw (LT : LtTorrentState) (raw : Z) : bool :=
  bool_decide (raw ∈ [lt_Queued LT; lt_Checking LT; lt_Downloading_Metadata LT;
                      lt_Downloading LT; lt_Finished LT; lt_Seeding LT; lt_Allocating LT]).

(** What [update_state] leaves alone: everything but the state, the status
    message, the call log and the auto-managed flag of the engine. *)
Definition update_state_frame (self after : Torrent) : Prop :=
  torrent_id after = torrent_id self
  ∧ options after = options self
  ∧ status after = status self
  ∧ torrent_info after = torrent_info self
  ∧ has_metadata after = has_metadata self
  ∧ is_finished after = is_finished self
  ∧ trackers after = trackers self
  ∧ tracker_host after = tracker_host self
  ∧ prev_status after = prev_status self
  ∧ waiting_on_folder_rename after = waiting_on_folder_rename self
  ∧ h_piece_priorities (handle after) = h_piece_priorities (handle self)
  ∧ h_peer_info (handle after) = h_peer_info (handle self)
  ∧ h_piece_availability (handle after) = h_piece_availability (handle self)
  ∧ status_with_auto_managed true (h_status (handle after))
    = status_with_auto_managed true (h_status (handle self)).

(** *** The status cache, continued *)

(** [Torrent.cleanup_prev_status].  [is_session_valid] is
    [self.rpcserver.is_session_valid]; [keys()] is a list of its own, so
    the deletions do not disturb the loop. *)
Definition cleanup_prev_status (is_session_valid : Z → bool) (self : Torrent)
    : Torrent :=
  let keys := (map_to_list (prev_status self)).*1 in
  foldl (λ self key,
    if negb (is_session_valid key)
    then with_prev_status (delete key (prev_status self)) self
    else self) self keys.

(** *** [TorrentOptions] *)

(** The literal [options_conf_map] of [TorrentOptions.__init__]: option
    key and configuration key. *)
Definition options_conf_map : list (string * string) :=
  [ ("max_connections", "max_connections_per_torrent");
    ("max_upload_slots", "max_upload_slots_per_torrent");
    ("max_upload_speed", "max_upload_speed_per_torrent");
    ("max_download_speed", "max_download_speed_per_torrent");
    ("prioritize_first_last_pieces", "prioritize_first_last_pieces");
    ("sequential_download", "sequential_download");
    ("compact_allocation", "compact_allocation");
    ("download_location", "download_location");
    ("auto_managed", "auto_managed");
    ("stop_at_ratio", "stop_seed_at_ratio");
    ("stop_ratio", "stop_seed_ratio");
    ("remove_at_ratio", "remove_seed_at_ratio");
    ("move_completed", "move_completed");
    ("move_completed_path", "move_completed_path");
    ("add_paused", "add_paused");
    ("shared", "shared");
    ("super_seeding", "super_seeding");
    ("priority", "priority") ].

(** The loop [for opt_k, conf_k in options_conf_map.iteritems()], on the
    remaining items. *)
Fixpoint TorrentOptions_fill (items : list (string * string))
    (config self : gmap string Value) : result (gmap string Value) :=
  match items with
  | [] => ret self
  | (opt_k, conf_k) :: items =>
      do value <- getitem config conf_k;
      TorrentOptions_fill items config (<[opt_k := value]> self)
  end.

(** [TorrentOptions.__init__].  [config] is the content of
    [ConfigManager("core.conf").config] and [iteritems] the literal's items
    in the dictionary's iteration order. *)
Definition TorrentOptions_init (iteritems : list (string * string))
    (config : gmap string Value) : result (gmap string Value) :=
  do self <- TorrentOptions_fill iteritems config ∅;
  let self := <["file_priorities" := VList []]> self in
  let self := <["mapped_files" := VDict []]> self in
  let self := <["owner" := VNone]> self in
  let self := <["name" := VNone]> self in
  ret self.

(** A configuration with the eighteen keys the constructor reads. *)
Definition example_config : gmap string Value :=
  list_to_map
    [ ("max_connections_per_torrent", VInt (-1));
      ("max_upload_slots_per_torrent", VInt (-1));
      ("max_upload_speed_per_torrent", VInt (-1));
      ("max_download_speed_per_torrent", VInt (-1));
      ("prioritize_first_last_pieces", VBool false);
      ("sequential_download", VBool false);
      ("compact_allocation", VBool false);
      ("download_location", VStr "/srv/torrents");
      ("auto_managed", VBool true);
      ("stop_seed_at_ratio", VBool false);
      ("stop_seed_ratio", VFloat 2);
      ("remove_seed_at_ratio", VBool false);
      ("move_completed", VBool false);
      ("move_completed_path", VStr "/srv/done");
      ("add_paused", VBool false);
      ("shared", VBool false);
      ("super_seeding", VBool false);
      ("priority", VInt 0);
      ("listen_ports", VList [VInt 6881; VInt 6891]) ].

(** *** [sanitize_filepath], continued *)

(** The first branch of [sanitize_filepath]: the path is cut at the
    separators, every component is cleaned and the empty ones are
    dropped. *)
Definition sanitize_components (filepath : string) : list string :=
  filter (λ x, x ≠ "")
    (clean_filename <$> Py.split "/" (Py.replace_char Py.backslash "/" filepath)).

(** A path component as [sanitize_filepath] leaves it: not empty, equal to
    its own cleaning (so without surrounding white space and not made of
    dots only), and free of separators. *)
Definition clean_component (x : string) : Prop :=
  x ≠ "" ∧ clean_filename x = x
  ∧ Py.has_char "/" x = false ∧ Py.has_char Py.backslash x = false.

(** *** Pausing *)

(** Events of the torrent's state, given to the event manager. *)
Inductive StateEvent :=
  | TorrentStateChangedEvent (torrent_id state : string).

Section Pause.

(** The collaborators of [update_state]. *)
Variable LTSTATE : LtTorrentState.
Variable session_is_paused : bool.
(** [self.handle.pause()]: the handle after the call, or [None] when the
    binding raises. *)
Variable handle_pause : Handle → option Handle.

(** [Torrent.pause]: what it returns, the torrent it leaves behind and the
    events it emits. *)
Definition pause (self : Torrent) : bool * Torrent * list StateEvent :=
  let self := with_handle (handle_auto_managed false (handle self)) self in
  if st_paused (status self) then
    let self := update_state LTSTATE session_is_paused self in
    (true, self, [TorrentStateChangedEvent (torrent_id self) "Paused"])
  else
    match handle_pause (handle self) with
    | Some h => (true, with_handle h self, [])
    | None => (false, self, [])
    end.

End Pause.

(** *** Renaming files *)

(** A unicode object: the sequence of its code units. *)
Definition utext : Type := list N.

(** The operations of [sanitize_filepath] on unicode objects. *)
Module U.

(** [Py_UNICODE_ISSPACE]: the characters [unicode.strip()] removes in
    Python 2.7, whose character database is that of Unicode 5.2. *)
Definition is_space (c : N) : bool :=
  ((9 <=? c) && (c <=? 13))%N || ((28 <=? c) && (c <=? 32))%N
  || (c =? 133)%N || (c =? 160)%N || (c =? 5760)%N || (c =? 6158)%N
  || ((8192 <=? c) && (c <=? 8202))%N
  || (c =? 8232)%N || (c =? 8233)%N || (c =? 8239)%N || (c =? 8287)%N
  || (c =? 12288)%N.

Definition backslash : N := 92.
Definition slash : N := 47.
Definition dot : N := 46.

Fixpoint lstrip (u : utext) : utext :=
  match u with
  | [] => []
  | c :: t => if is_space c then lstrip t else u
  end.
Definition strip (u : utext) : utext :=
  reverse (lstrip (reverse (lstrip u))).

(** [u.replace(old, new)] for one-character [old] and [new]. *)
Definition replace_char (old new : N) (u : utext) : utext :=
  (λ c, if (c =? old)%N then new else c) <$> u.

(** [u.replace(old, '')] for a one-character [old]. *)
Definition remove_char (old : N) (u : utext) : utext :=
  filter (λ c, c ≠ old) u.

(** [u.split(sep)] for a one-character separator. *)
Fixpoint split_go (sep : N) (cur : utext) (u : utext) : list utext :=
  match u with
  | [] => [reverse cur]
  | c :: t =>
      if (c =? sep)%N then reverse cur :: split_go sep [] t
      else split_go sep (c :: cur) t
  end.
Definition split (sep : N) (u : utext) : list utext := split_go sep [] u.

(** [sep.join(l)] *)
Fixpoint join (sep : utext) (l : list utext) : utext :=
  match l with
  | [] => []
  | [x] => x
  | x :: xs => x ++ sep ++ join sep xs
  end.

End U.

(** [sanitize_filepath] on a unicode object. *)
Definition clean_filename_u (filename : utext) : utext :=
  let filename := U.strip filename in
  if bool_decide (U.remove_char U.dot filename = []) then [] else filename.

Definition sanitize_filepath_u (filepath : utext) (folder : bool) : utext :=
  let newfilepath :=
    if bool_decide (U.backslash ∈ filepath) || bool_decide (U.slash ∈ filepath) then
      let folderpath := U.split U.slash (U.replace_char U.backslash U.slash filepath) in
      let folderpath := clean_filename_u <$> folderpath in
      U.join [U.slash] (filter (λ x, x ≠ []) folderpath)
    else clean_filename_u filepath in
  if folder then newfilepath ++ [U.slash] else newfilepath.

(** A file name as [rename_files] receives it: a byte string or a unicode
    object. *)
Inductive filename_arg :=
  | StrName (s : string)
  | UnicodeName (u : utext).

Section RenameFiles.

(** [unicode(s, "utf-8")] on a byte string: the unicode object, or [None]
    where the bytes are no UTF-8 and [UnicodeDecodeError] is raised. *)
Variable decode_utf8 : string → option utext.
(** [u.encode("utf-8")] *)
Variable encode_utf8 : utext → string.

(** [unicode(filename, "utf-8")] under [except TypeError: pass]: a unicode
    object is refused with [TypeError] and stays as it is. *)
Definition to_unicode (filename : filename_arg) : option utext :=
  match filename with
  | StrName s => decode_utf8 s
  | UnicodeName u => Some u
  end.

(** [Torrent.rename_files].  [UnicodeDecodeError] is a [ValueError].  The
    call log holds a path as bytes: the name goes into it in UTF-8, which
    is what the engine is given whether the binding takes the unicode
    object or, after its [TypeError], the encoded name. *)
Fixpoint rename_files (filenames : list (nat * filename_arg)) : method unit :=
  λ self,
  match filenames with
  | [] => (ret tt, self)
  | (index, filename) :: filenames =>
      match to_unicode filename with
      | None => (raise (ValueError "UnicodeDecodeError"), self)
      | Some filename =>
          let filename := sanitize_filepath_u filename false in
          rename_files filenames
            (with_handle
               (handle_rename_file index (encode_utf8 filename) (handle self))
               self)
      end
  end.

End RenameFiles.

(** The handle of a torrent the engine has paused after a disk error. *)
Definition handle_paused_with_error (h : Handle) : Handle :=
  {| h_status :=
       {| st_state := st_state (h_status h); st_paused := true;
          st_auto_managed := st_auto_managed (h_status h);
          st_error := "disk full";
          st_upload_payload_rate := 0; st_download_payload_rate := 0;
          st_all_time_download := st_all_time_download (h_status h);
          st_all_time_upload := st_all_time_upload (h_status h);
          st_total_wanted := st_total_wanted (h_status h);
          st_total_wanted_done := st_total_wanted_done (h_status h);
          st_current_tracker := st_current_tracker (h_status h);
          st_pieces := st_pieces (h_status h) |};
     h_piece_priorities := h_piece_priorities h;
     h_peer_info := h_peer_info h;
     h_piece_availability := h_piece_availability h;
     h_calls := h_calls h |}.

(* ===================================================================== *)
(** * Part II. Properties                                                *)
(* ===================================================================== *)

(** ** Priority setter *)

(** C7.  For every integer [p], [set_priority p] raises [ValueError] if and
    only if [p] lies outside [0, 255]; when it raises the torrent is left as
    it was, so no option is mutated; for [0 <= p <= 255] it returns, stores
    exactly [p] under ["priority"] and hands exactly [p] to the handle. *)
Theorem set_priority_range (p : Z) (self : Torrent) :
  ((∃ msg, (set_priority p self).1 = inl (ValueError msg)) ↔ ¬ (0 ≤ p ≤ 255)%Z)
  ∧ (¬ (0 ≤ p ≤ 255)%Z → (set_priority p self).2 = self)
  ∧ ((0 ≤ p ≤ 255)%Z →
       (set_priority p self).1 = inr tt
       ∧ options (set_priority p self).2 = <["priority" := VInt p]> (options self)
       ∧ h_calls (handle (set_priority p self).2)
         = h_calls (handle self) ++ [Call_set_priority p]).
Proof.
  unfold set_priority.
  destruct (0 <=? p)%Z eqn:Hlo; destruct (p <=? 255)%Z eqn:Hhi; simpl;
    try apply Z.leb_le in Hlo; try apply Z.leb_le in Hhi;
    try apply Z.leb_gt in Hlo; try apply Z.leb_gt in Hhi.
  - split; [|split]; [split| |]; try lia.
    + intros [msg Hmsg]. discriminate.
    + intros _. repeat split.
  - split; [|split]; [split| |]; try lia; eauto.
  - split; [|split]; [split| |]; try lia; eauto.
  - split; [|split]; [split| |]; try lia; eauto.
Qed.

(** The setter at a priority inside the range and at one outside it. *)
Lemma set_priority_range_witness :
  ((set_priority 7 example_torrent).1 = inr tt
   ∧ options (set_priority 7 example_torrent).2
     = <["priority" := VInt 7]> (options example_torrent)
   ∧ h_calls (handle (set_priority 7 example_torrent).2)
     = h_calls (handle example_torrent) ++ [Call_set_priority 7])
  ∧ (set_priority 256 example_torrent).2 = example_torrent.
Proof.
  split.
  - apply (proj2 (proj2 (set_priority_range 7 example_torrent))). lia.
  - apply (proj1 (proj2 (set_priority_range 256 example_torrent))). lia.
Defined.

(** ** ETA *)

Lemma as_num_of_num (n : num) : as_num (of_num n) = inr n.
Proof. destruct n; reflexivity. Qed.

Lemma num_div_nonzero_int (a : num) (z : Z) :
  z ≠ 0%Z → num_div a (NInt z) = inr (num_quot a (NInt z)).
Proof.
  intros Hz. unfold num_div, num_is_zero.
  destruct (Z.eqb_spec z 0) as [->|_]; [contradiction | reflexivity].
Qed.

Lemma py_div_nonzero_int (a : num) (z : Z) :
  z ≠ 0%Z → py_div (of_num a) (VInt z) = inr (of_num (num_quot a (NInt z))).
Proof.
  intros Hz. unfold py_div. rewrite as_num_of_num. cbn [bind as_num ret].
  rewrite num_div_nonzero_int by done. reflexivity.
Qed.

(** C8.  With the two ratio options stored and [stop_ratio] a number,
    [get_eta] returns, never raises, and its value is the one the
    specification words: for a finished torrent with [stop_at_ratio] set, 0
    when the upload rate is 0 and otherwise
    [(all_time_download * stop_ratio - all_time_upload) / upload_rate]; in
    all other cases 0 when the remaining bytes are [<= 0] or the download
    rate is 0, and otherwise the remaining bytes divided by the download
    rate (a floor division, both being integers). *)
Theorem get_eta_spec (self : Torrent) (flag ratio : Value) (n : num) :
  options self !! "stop_at_ratio" = Some flag →
  options self !! "stop_ratio" = Some ratio →
  as_num ratio = inr n →
  get_eta self
  = inr (of_num (eta_spec (is_finished self) (truthy flag) n (status self))).
Proof.
  intros Hflag Hratio Hn.
  assert (Hrest : ∀ left rate : Z, rate ≠ 0%Z →
            match py_div (VInt left) (VInt rate) with
            | inl ZeroDivisionError => ret (VInt 0)
            | eta => eta
            end = inr (VInt (left / rate))).
  { intros left rate Hrate.
    pose proof (py_div_nonzero_int (NInt left) rate Hrate) as Hdiv.
    cbn [of_num num_quot] in Hdiv. rewrite Hdiv. reflexivity. }
  unfold get_eta, eta_spec, getitem. rewrite Hflag.
  destruct (is_finished self); cbn [bind ret andb];
    [destruct (truthy flag)|]; cbn [bind ret andb].
  - destruct (Z.eqb_spec (st_upload_payload_rate (status self)) 0) as [Hup|Hup];
      [reflexivity|].
    rewrite Hratio. cbn [bind ret].
    unfold py_mul, py_sub. rewrite Hn. cbn [bind ret as_num].
    rewrite as_num_of_num. cbn [bind ret].
    apply py_div_nonzero_int, Hup.
  - destruct (Z.eqb_spec (st_download_payload_rate (status self)) 0) as [Hd|Hd].
    + rewrite orb_true_r. reflexivity.
    + rewrite orb_false_r. destruct (_ <=? 0)%Z; [reflexivity|].
      cbn [of_num]. apply Hrest, Hd.
  - destruct (Z.eqb_spec (st_download_payload_rate (status self)) 0) as [Hd|Hd].
    + rewrite orb_true_r. reflexivity.
    + rewrite orb_false_r. destruct (_ <=? 0)%Z; [reflexivity|].
      cbn [of_num]. apply Hrest, Hd.
Qed.

(** The scenario of the specification: ratio 2.0, finished, 1000 bytes
    downloaded, 300 uploaded, upload rate 10: (1000 * 2.0 - 300) / 10 =
    170.0. *)
Lemma get_eta_spec_witness : get_eta example_torrent = inr (VFloat 170).
Proof.
  exact (get_eta_spec example_torrent (VBool true) (VFloat 2) (NFloat 2)
           eq_refl eq_refl eq_refl).
Defined.

(** ** The state classifier *)

Ltac classify :=
  repeat match goal with
         | |- context [if ?c then _ else _] => destruct c eqn:?; simpl
         | |- context [match ?c with Some _ => _ | None => _ end] =>
             destruct c eqn:?; simpl
         end.

Lemma update_state_pure (LT : LtTorrentState) (sp : bool) (self other : Torrent) :
  classifier_inputs self = classifier_inputs other →
  classifier_outputs (update_state LT sp self)
  = classifier_outputs (update_state LT sp other).
Proof.
  destruct self as [? ? [[] ? ? ? ?] ? ? ? ? ? ? ? ? ? ?].
  destruct other as [? ? [[] ? ? ? ?] ? ? ? ? ? ? ? ? ? ?].
  unfold classifier_inputs, classifier_outputs. simpl. intros Hin.
  injection Hin as -> -> -> -> ->.
  unfold update_state, set_status_message. simpl.
  destruct (lt_name LT st_state1); simpl; classify; reflexivity.
Qed.

Lemma len_pos_iff (s : string) : (0 <? Py.len s)%nat = true ↔ s ≠ "".
Proof.
  destruct s; simpl; split; intros H; try done.
Qed.

(** C2.  [update_state] is a function of its inputs: two torrents that
    agree on the raw engine state, the paused and auto-managed flags, the
    engine error and the status message get the same state, message and
    auto-managed flag, whatever else differs, for the same answer of the
    session.  If the engine error is non-empty or the status message starts
    with ["Error:"], the state is ["Error"] whatever the other inputs are,
    the handle's auto-managed flag is switched off when the handle reports
    paused and the handle is left alone otherwise, and no later step runs:
    the message is not reset to ["OK"].  Without an error, a raw state of
    Queued or Checking gives ["Paused"] when the handle reports paused and
    ["Checking"] otherwise. *)
Theorem update_state_error_dominates (LT : LtTorrentState) (sp : bool) (self : Torrent) :
  (∀ other, classifier_inputs self = classifier_inputs other →
     classifier_outputs (update_state LT sp self)
     = classifier_outputs (update_state LT sp other))
  ∧ (st_error (h_status (handle self)) ≠ ""
     ∨ Py.startswith (statusmsg self) "Error:" = true →
     state (update_state LT sp self) = "Error"
     ∧ statusmsg (update_state LT sp self)
       = (if bool_decide (st_error (h_status (handle self)) = "")
          then statusmsg self else st_error (h_status (handle self)))
     ∧ handle (update_state LT sp self)
       = (if st_paused (h_status (handle self))
          then handle_auto_managed false (handle self) else handle self)
     ∧ (st_paused (h_status (handle self)) = true →
        st_auto_managed (h_status (handle (update_state LT sp self))) = false))
  ∧ (st_error (h_status (handle self)) = "" →
     Py.startswith (statusmsg self) "Error:" = false →
     st_state (h_status (handle self)) = lt_Queued LT
     ∨ st_state (h_status (handle self)) = lt_Checking LT →
     state (update_state LT sp self)
     = (if st_paused (h_status (handle self)) then "Paused" else "Checking")).
Proof.
  split; [|split].
  - intros other. apply update_state_pure.
  - intros Herr. unfold update_state, set_status_message.
    destruct (0 <? Py.len (st_error (h_status (handle self))))%nat eqn:Hlen.
    + apply len_pos_iff in Hlen.
      rewrite bool_decide_eq_false_2 by done.
      destruct (lt_name LT _); simpl;
        destruct (st_paused (h_status (handle self))); simpl; done.
    + assert (Hempty : st_error (h_status (handle self)) = "").
      { destruct (decide (st_error (h_status (handle self)) = "")) as [|Hne];
          [done|]. apply len_pos_iff in Hne. congruence. }
      destruct Herr as [Herr|Herr]; [done|].
      rewrite bool_decide_eq_true_2 by done.
      destruct (lt_name LT _); simpl; rewrite Herr;
        destruct (st_paused (h_status (handle self))); simpl; done.
  - intros Herr Hmsg Hraw. unfold update_state, set_status_message.
    rewrite Herr. simpl.
    assert (Hq : (st_state (h_status (handle self)) =? lt_Queued LT)%Z
                 || (st_state (h_status (handle self)) =? lt_Checking LT)%Z = true).
    { destruct Hraw as [->| ->]; rewrite Z.eqb_refl; [done|apply orb_true_r]. }
    destruct (lt_name LT _); simpl; rewrite Hmsg, Hq;
      destruct (st_paused (h_status (handle self))); reflexivity.
Qed.

(** An errored and paused torrent, raw state Downloading, session running:
    the state is ["Error"] and the auto-managed flag goes off. *)
Lemma update_state_error_dominates_witness :
  state (update_state LT_TORRENT_STATE false
           (with_handle
              {| h_status :=
                   {| st_state := 3; st_paused := true; st_auto_managed := true;
                      st_error := "disk full";
                      st_upload_payload_rate := 0; st_download_payload_rate := 0;
                      st_all_time_download := 0; st_all_time_upload := 0;
                      st_total_wanted := 0; st_total_wanted_done := 0;
                      st_current_tracker := ""; st_pieces := [] |};
                 h_piece_priorities := []; h_peer_info := [];
                 h_piece_availability := []; h_calls := [] |}
              example_torrent)) = "Error".
Proof.
  eapply (proj1 (proj2 (update_state_error_dominates LT_TORRENT_STATE false _))).
  left. discriminate.
Defined.

(** ** [set_options] *)

Section SetOptionsProps.

Variable getattr_set : string → option (Value → method unit).
Variable dict_items : gmap string Value → list (string * Value).

(** C9.  An update that holds ["file_priorities"] and lacks
    ["prioritize_first_last_pieces"] makes [set_options] raise [KeyError]
    on the missing key before anything else happens: the torrent is as it
    was, so no key was stored or handed to a setter, and the update still
    holds every key. *)
Theorem set_options_missing_flag (u : gmap string Value) (self : Torrent) :
  "file_priorities" ∈ dom u →
  "prioritize_first_last_pieces" ∉ dom u →
  set_options getattr_set dict_items (CallerDict u) self
  = (inl (KeyError "prioritize_first_last_pieces"), self, u).
Proof.
  intros Hfp Hflag. unfold set_options.
  rewrite bool_decide_eq_true_2 by done.
  apply not_elem_of_dom in Hflag. unfold getitem. rewrite Hflag. reflexivity.
Qed.

End SetOptionsProps.

(** An update with file priorities only, on a method table and in a
    dictionary order chosen for the run. *)
Lemma set_options_missing_flag_witness :
  set_options store_only_setters map_to_list
    (CallerDict {["file_priorities" := VList [VInt 1; VInt 0; VInt 1]]})
    example_torrent
  = (inl (KeyError "prioritize_first_last_pieces"), example_torrent,
     {["file_priorities" := VList [VInt 1; VInt 0; VInt 1]]}).
Proof.
  apply set_options_missing_flag.
  - rewrite dom_singleton_L. apply elem_of_singleton. reflexivity.
  - rewrite dom_singleton_L. intros Hin%elem_of_singleton. discriminate Hin.
Defined.

Lemma store_option_dom (key : string) (value : Value) (self : Torrent) :
  key ∈ dom (options self) →
  dom (options (store_option key value self)) = dom (options self).
Proof.
  intros Hin. unfold store_option. simpl. rewrite dom_insert_L.
  apply subseteq_union_1_L. by apply singleton_subseteq_l.
Qed.

Lemma dispatched_dom getattr_set skip_func (self other : Torrent) (key : string) :
  dom (options other) = dom (options self) →
  dispatched getattr_set skip_func other key = dispatched getattr_set skip_func self key.
Proof. intros Hdom. unfold dispatched. rewrite Hdom. reflexivity. Qed.

Section SetOptionsFrame.

Variable getattr_set : string → option (Value → method unit).
Variable dict_items : gmap string Value → list (string * Value).

(** The items of a dictionary come in some order, each once. *)
Hypothesis dict_items_perm : ∀ m, dict_items m ≡ₚ map_to_list m.

(** On a torrent whose options hold the keys of [TorrentOptions], a setter
    called for a recognised key neither adds nor removes an option key,
    whether it returns or raises. *)
Hypothesis setters_keep_keys : ∀ key func value self,
  getattr_set key = Some func →
  default_option_keys ⊆ dom (options self) →
  key ∈ dom (options self) →
  dom (options (func value self).2) = dom (options self).

Lemma set_options_loop_spec (items : list (string * Value)) (skip_func : list string) :
  ∀ (d : gmap string Value) (self : Torrent) r self' d',
    default_option_keys ⊆ dom (options self) →
    set_options_loop getattr_set items skip_func d self = (r, self', d') →
    dom (options self') = dom (options self)
    ∧ (∀ k, d' !! k = d !! k
            ∨ (d' !! k = None ∧ dispatched getattr_set skip_func self k = true))
    ∧ (r = inr tt → ∀ k,
         (k ∈ items.*1 → dispatched getattr_set skip_func self k = true →
          d' !! k = None)
         ∧ (k ∉ items.*1 ∨ dispatched getattr_set skip_func self k = false →
            d' !! k = d !! k)).
Proof.
  induction items as [|[key value] items IH]; intros d self r self' d' Hinv Hrun.
  - simpl in Hrun. injection Hrun as <- <- <-.
    split; [done|]. split; [auto|]. intros _ k. split.
    + intros Hk. apply elem_of_nil in Hk. done.
    + done.
  - simpl in Hrun.
    destruct (bool_decide (key ∈ dom (options self))) eqn:Hrec.
    + apply bool_decide_eq_true_1 in Hrec.
      destruct (getattr_set key) as [func|] eqn:Hget;
        [destruct (bool_decide (key ∉ skip_func)) eqn:Hskip|].
      * (* the key goes to its setter *)
        assert (Hdisp : dispatched getattr_set skip_func self key = true).
        { unfold dispatched. rewrite Hget, Hskip.
          rewrite !bool_decide_eq_true_2; eauto. }
        pose proof (setters_keep_keys key func value self Hget Hinv Hrec) as Hdom.
        destruct (func value self) as [[e|[]] self1] eqn:Hcall; simpl in Hdom.
        { injection Hrun as <- <- <-. split; [done|]. split; [auto|]. done. }
        apply IH in Hrun as (Hdom' & Hsub & Hok); [|by rewrite Hdom].
        split; [congruence|]. split.
        { intros k. destruct (decide (k = key)) as [->|Hne].
          - right. split; [|done].
            destruct (Hsub key) as [Heq|[Heq _]]; [|done].
            by rewrite Heq, lookup_delete_eq.
          - destruct (Hsub k) as [Heq|[Heq Hd]].
            + left. by rewrite Heq, lookup_delete_ne.
            + right. split; [done|].
              by rewrite <- (dispatched_dom _ _ self self1). }
        intros Hr k. specialize (Hok Hr k) as [Hdel Hkeep].
        rewrite (dispatched_dom _ _ self self1) in Hdel, Hkeep by done.
        destruct (decide (k = key)) as [->|Hne]; split.
        { intros _ _. destruct (Hsub key) as [Heq|[Heq _]]; [|done].
          by rewrite Heq, lookup_delete_eq. }
        { intros [Hnot|Hfalse]; [|congruence].
          exfalso. apply Hnot. simpl. apply elem_of_cons. by left. }
        { intros Hk Hd. apply Hdel; [|done].
          simpl in Hk. apply elem_of_cons in Hk as [|]; done. }
        { intros Hcase. rewrite Hkeep, lookup_delete_ne; [done|done|].
          destruct Hcase as [Hnot|Hfalse]; [|by right].
          left. intros Hk. apply Hnot. simpl. apply elem_of_cons. by right. }
      * (* the setter is skipped: the value is stored *)
        assert (Hdisp : dispatched getattr_set skip_func self key = false).
        { unfold dispatched. rewrite Hskip. apply andb_false_r. }
        apply IH in Hrun as (Hdom' & Hsub & Hok);
          [|by rewrite store_option_dom].
        rewrite store_option_dom in Hdom' by done.
        assert (Hsame : ∀ k,
                  dispatched getattr_set skip_func (store_option key value self) k
                  = dispatched getattr_set skip_func self k).
        { intros k. apply dispatched_dom. by apply store_option_dom. }
        split; [done|]. split.
        { intros k. destruct (Hsub k) as [|[? Hd]]; [by left|right].
          by rewrite <- Hsame. }
        intros Hr k. specialize (Hok Hr k) as [Hdel Hkeep].
        rewrite Hsame in Hdel, Hkeep. split.
        { intros Hk Hd. apply Hdel; [|done].
          simpl in Hk. apply elem_of_cons in Hk as [->|]; [congruence|done]. }
        { intros [Hnot|Hfalse]; apply Hkeep; [left|by right].
          intros Hk. apply Hnot. simpl. apply elem_of_cons. by right. }
      * (* no setter: the value is stored *)
        assert (Hdisp : dispatched getattr_set skip_func self key = false).
        { unfold dispatched. rewrite Hget.
          rewrite (bool_decide_eq_false_2 (is_Some None)) by (by intros [? ?]).
          by rewrite andb_false_r. }
        apply IH in Hrun as (Hdom' & Hsub & Hok);
          [|by rewrite store_option_dom].
        rewrite store_option_dom in Hdom' by done.
        assert (Hsame : ∀ k,
                  dispatched getattr_set skip_func (store_option key value self) k
                  = dispatched getattr_set skip_func self k).
        { intros k. apply dispatched_dom. by apply store_option_dom. }
        split; [done|]. split.
        { intros k. destruct (Hsub k) as [|[? Hd]]; [by left|right].
          by rewrite <- Hsame. }
        intros Hr k. specialize (Hok Hr k) as [Hdel Hkeep].
        rewrite Hsame in Hdel, Hkeep. split.
        { intros Hk Hd. apply Hdel; [|done].
          simpl in Hk. apply elem_of_cons in Hk as [->|]; [congruence|done]. }
        { intros [Hnot|Hfalse]; apply Hkeep; [left|by right].
          intros Hk. apply Hnot. simpl. apply elem_of_cons. by right. }
    + (* the key is not a recognised option *)
      apply bool_decide_eq_false_1 in Hrec.
      assert (Hdisp : dispatched getattr_set skip_func self key = false).
      { unfold dispatched. by rewrite (bool_decide_eq_false_2 _ Hrec). }
      apply IH in Hrun as (Hdom' & Hsub & Hok); [|done].
      split; [done|]. split; [done|].
      intros Hr k. specialize (Hok Hr k) as [Hdel Hkeep]. split.
      { intros Hk Hd. apply Hdel; [|done].
        simpl in Hk. apply elem_of_cons in Hk as [->|]; [congruence|done]. }
      { intros [Hnot|Hfalse]; apply Hkeep; [left|by right].
        intros Hk. apply Hnot. simpl. apply elem_of_cons. by right. }
Qed.

Lemma dict_items_keys (m : gmap string Value) (k : string) :
  k ∈ (dict_items m).*1 ↔ is_Some (m !! k).
Proof.
  rewrite (dict_items_perm m). rewrite list_elem_of_fmap. split.
  - intros [[k' v] [-> Hin]]. apply elem_of_map_to_list in Hin. eauto.
  - intros [v Hv]. exists (k, v). split; [done|]. by apply elem_of_map_to_list.
Qed.

Lemma set_options_loop_all (u : gmap string Value) (skip_func : list string)
    (self : Torrent) r self' u' :
  default_option_keys ⊆ dom (options self) →
  set_options_loop getattr_set (dict_items u) skip_func u self = (r, self', u') →
  dom (options self') = dom (options self)
  ∧ (∀ k, u' !! k = u !! k
          ∨ (u' !! k = None ∧ dispatched getattr_set skip_func self k = true))
  ∧ (r = inr tt → ∀ k,
       (dispatched getattr_set skip_func self k = true → u' !! k = None)
       ∧ (dispatched getattr_set skip_func self k = false → u' !! k = u !! k)).
Proof.
  intros Hinv Hrun.
  apply set_options_loop_spec in Hrun as (Hdom & Hsub & Hok); [|done].
  split; [done|]. split; [done|].
  intros Hr k. specialize (Hok Hr k) as [Hdel Hkeep]. split.
  - intros Hd. destruct (u !! k) as [v|] eqn:Hu.
    + apply Hdel; [|done]. apply dict_items_keys. rewrite Hu. eauto.
    + apply Hkeep. left. rewrite dict_items_keys, Hu. by intros [? ?].
  - intros Hd. apply Hkeep. by right.
Qed.


End SetOptionsFrame.

Lemma store_only_setters_keep_keys key func value self :
  store_only_setters key = Some func →
  default_option_keys ⊆ dom (options self) →
  key ∈ dom (options self) →
  dom (options (func value self).2) = dom (options self).
Proof.
  unfold store_only_setters. intros Hget _ Hkey.
  repeat match type of Hget with
         | (if String.eqb ?a ?b then _ else _) = _ =>
             destruct (String.eqb_spec a b) as [->|_]
         end;
    try discriminate; injection Hget as <-; simpl; by apply store_option_dom.
Qed.

Lemma example_options_default :
  default_option_keys ⊆ dom (options example_torrent).
Proof.
  apply (bool_decide_unpack _). vm_compute. exact I.
Qed.

Lemma triple_eta {A B C} (x : A * B * C) : x = (x.1.1, x.1.2, x.2).
Proof. by destruct x as [[? ?] ?]. Qed.


Lemma priority_and_store_only_setters_keep_keys key func value self :
  priority_and_store_only_setters key = Some func →
  default_option_keys ⊆ dom (options self) →
  key ∈ dom (options self) →
  dom (options (func value self).2) = dom (options self).
Proof.
  unfold priority_and_store_only_setters.
  destruct (String.eqb_spec key "priority") as [->|Hne];
    [|apply store_only_setters_keep_keys].
  intros [= <-] _ Hin.
  assert (∀ v, dom (options (store_option "priority" v self)) = dom (options self))
    as Hstore by (intros v; by apply store_option_dom).
  unfold set_priority_object, set_priority.
  destruct value as [|b|p|x|s|l|d]; simpl; try done.
  - apply Hstore.
  - destruct ((0 <=? p)%Z && (p <=? 255)%Z); simpl; [apply Hstore|done].
  - destruct (PrimFloat.leb 0 x && PrimFloat.leb x 255); simpl; [apply Hstore|done].
Qed.


(** ** The status cache *)

Section StatusCacheProps.

Variable status_funcs : gmap string (method Value).
Variable py_ne : Value → Value → bool.

(** The accessors of the registry leave the table of baselines alone. *)
Hypothesis accessors_keep_baselines : ∀ key func self,
  status_funcs !! key = Some func →
  prev_status (func self).2 = prev_status self.

Lemma make_status_diff_lookup (prev status_dict : gmap string Value) (k : string) :
  make_status_diff py_ne prev status_dict !! k
  = match status_dict !! k with
    | Some v =>
        match prev !! k with
        | Some old => if py_ne v old then Some v else None
        | None => Some v
        end
    | None => None
    end.
Proof.
  unfold make_status_diff. revert k.
  apply (map_fold_weak_ind (λ r m, ∀ k, r !! k = match m !! k with
                                                 | Some v => _
                                                 | None => None
                                                 end)).
  - intros k. by rewrite !lookup_empty.
  - intros i x m r Hi IH k. destruct (decide (k = i)) as [->|Hne].
    + rewrite lookup_insert_eq.
      destruct (prev !! i) as [old|]; [destruct (py_ne x old)|];
        rewrite ?lookup_insert_eq; try done.
      by rewrite IH, Hi.
    + rewrite (lookup_insert_ne m) by done. rewrite <- IH.
      destruct (prev !! i) as [old|]; [destruct (py_ne x old)|];
        by rewrite ?lookup_insert_ne.
Qed.

Lemma fill_status_dict_spec (keys : list string) :
  ∀ (acc : gmap string Value) (self : Torrent) status_dict after,
    fill_status_dict status_funcs keys acc self = (inr status_dict, after) →
    prev_status after = prev_status self
    ∧ dom status_dict = dom acc ∪ list_to_set keys.
Proof.
  induction keys as [|key keys IH]; intros acc self status_dict after Hrun;
    simpl in Hrun.
  - injection Hrun as <- <-. split; [done|]. simpl. set_solver.
  - destruct (status_funcs !! key) as [func|] eqn:Hfunc; [|done].
    pose proof (accessors_keep_baselines key func self Hfunc) as Hprev.
    destruct (func self) as [[e|value] self1]; [done|]. simpl in Hprev.
    apply IH in Hrun as [Hprev' Hdom]. split; [congruence|].
    rewrite Hdom, dom_insert_L. simpl. set_solver.
Qed.

(** C1.  A call of [get_status] with [diff=True] from session [sid]
    computes the same dictionary as the call with [diff=False], the full
    requested key-to-value mapping [status_dict], and whenever it returns
    it leaves [status_dict] as the baseline of [sid].  Without a baseline
    for [sid] it returns [status_dict] itself.  With a baseline [prev] it
    returns exactly the entries of [status_dict] whose key is new or whose
    value differs from the one in [prev]: the empty mapping when every
    computed value equals its baseline, and the mapping of one field when
    that field alone changed. *)
Theorem get_status_diff_protocol (sid : Z) (keys : list string)
    (update all_keys : bool) (self : Torrent) status_dict after :
  get_status status_funcs py_ne sid keys false update all_keys self
  = (inr status_dict, after) →
  ∃ returned,
    get_status status_funcs py_ne sid keys true update all_keys self
    = (inr returned,
       with_prev_status (<[sid := status_dict]> (prev_status self)) after)
    ∧ prev_status
        (get_status status_funcs py_ne sid keys true update all_keys self).2
      !! sid = Some status_dict
    ∧ dom status_dict
      = list_to_set (if all_keys then (map_to_list status_funcs).*1 else keys)
    ∧ (prev_status self !! sid = None → returned = status_dict)
    ∧ (∀ prev, prev_status self !! sid = Some prev →
         (∀ k v, returned !! k = Some v ↔
                 status_dict !! k = Some v
                 ∧ (prev !! k = None
                    ∨ ∃ old, prev !! k = Some old ∧ py_ne v old = true))
         ∧ ((∀ k v, status_dict !! k = Some v →
               ∃ old, prev !! k = Some old ∧ py_ne v old = false) →
            returned = ∅)
         ∧ (∀ k0 v0 old0,
              status_dict !! k0 = Some v0 →
              prev !! k0 = Some old0 → py_ne v0 old0 = true →
              (∀ k v, k ≠ k0 → status_dict !! k = Some v →
                 ∃ old, prev !! k = Some old ∧ py_ne v old = false) →
              returned = {[k0 := v0]})).
Proof.
  unfold get_status. intros Hfull.
  set (start := if update then update_status (h_status (handle self)) self
                else self) in *.
  set (wanted := if all_keys then (map_to_list status_funcs).*1 else keys) in *.
  destruct (fill_status_dict status_funcs wanted ∅ start)
    as [[e|d] self1] eqn:Hfill; [done|].
  injection Hfull as -> ->.
  apply fill_status_dict_spec in Hfill as [Hprev Hdom].
  assert (Hstart : prev_status start = prev_status self).
  { unfold start. by destruct update. }
  rewrite Hprev, Hstart.
  exists (match prev_status self !! sid with
          | Some prev => make_status_diff py_ne prev status_dict
          | None => status_dict
          end).
  split; [by destruct (prev_status self !! sid)|].
  split; [destruct (prev_status self !! sid); simpl; apply lookup_insert_eq|].
  split; [rewrite Hdom, dom_empty_L; set_solver|].
  split; [by intros ->|].
  intros prev ->.
  assert (Hlook : ∀ k v,
            make_status_diff py_ne prev status_dict !! k = Some v ↔
            status_dict !! k = Some v
            ∧ (prev !! k = None
               ∨ ∃ old, prev !! k = Some old ∧ py_ne v old = true)).
  { intros k v. rewrite make_status_diff_lookup.
    destruct (status_dict !! k) as [v'|]; [|naive_solver].
    destruct (prev !! k) as [old|]; [|naive_solver].
    destruct (py_ne v' old) eqn:Hne; [naive_solver|].
    split; [done|]. intros [[= ->] [|(old' & [= ->] & ?)]]; congruence. }
  split; [exact Hlook|]. split.
  - intros Hsame. apply map_eq. intros k. rewrite lookup_empty.
    apply eq_None_not_Some. intros [v Hv]. apply Hlook in Hv as [Hk Hchanged].
    destruct (Hsame k v Hk) as (old & Hold & Heq).
    destruct Hchanged as [|(old' & Hold' & Hne)]; congruence.
  - intros k0 v0 old0 Hk0 Hold0 Hne0 Hothers. apply map_eq. intros k.
    destruct (decide (k = k0)) as [->|Hk].
    + rewrite lookup_singleton_eq. apply Hlook. eauto.
    + rewrite lookup_singleton_ne by done.
      apply eq_None_not_Some. intros [v Hv]. apply Hlook in Hv as [Hkv Hchanged].
      destruct (Hothers k v Hk Hkv) as (old & Hold & Heq).
      destruct Hchanged as [|(old' & Hold' & Hne)]; congruence.
Qed.

End StatusCacheProps.

Lemma example_accessors_keep_baselines key func self :
  example_status_funcs !! key = Some func →
  prev_status (func self).2 = prev_status self.
Proof.
  intros Hfunc. apply elem_of_list_to_map_2 in Hfunc.
  repeat (apply elem_of_cons in Hfunc as [Hfunc|Hfunc];
          [injection Hfunc as _ ->; try reflexivity|]).
  - unfold get_tracker_host. repeat case_match; simplify_eq; reflexivity.
  - by apply elem_of_nil in Hfunc.
Qed.

(** Three calls of session 1 for the state, the paused flag and the wanted
    size: the first returns all three fields, the second, with nothing
    changed, returns the empty mapping, and a third after the state alone
    changed returns the state alone. *)
Lemma get_status_diff_protocol_witness :
  (get_status example_status_funcs scalar_ne 1
     ["state"; "paused"; "total_wanted"] true false false example_torrent).1
  = inr (list_to_map [("state", VStr "Seeding"); ("paused", VBool false);
                      ("total_wanted", VInt 800)])
  ∧ (get_status example_status_funcs scalar_ne 1
       ["state"; "paused"; "total_wanted"] true false false
       (get_status example_status_funcs scalar_ne 1
          ["state"; "paused"; "total_wanted"] true false false example_torrent).2).1
    = inr ∅
  ∧ (get_status example_status_funcs scalar_ne 1
       ["state"; "paused"; "total_wanted"] true false false
       (with_state "Paused"
          (get_status example_status_funcs scalar_ne 1
             ["state"; "paused"; "total_wanted"] true false false
             example_torrent).2)).1
    = inr {["state" := VStr "Paused"]}.
Proof.
  split; [|split; vm_compute; reflexivity].
  destruct (get_status_diff_protocol example_status_funcs scalar_ne
              example_accessors_keep_baselines 1
              ["state"; "paused"; "total_wanted"] false false example_torrent
              (list_to_map [("state", VStr "Seeding"); ("paused", VBool false);
                            ("total_wanted", VInt 800)])
              example_torrent)
    as (returned & Hrun & _ & _ & Hfirst & _).
  - vm_compute. reflexivity.
  - rewrite Hrun. simpl. f_equal. apply Hfirst. reflexivity.
Defined.

(** ** The piece planner *)

Lemma boosted_compose (h1 h2 : bool) (p : Z) :
  boosted h1 (boosted h2 p) = boosted (h1 || h2) p.
Proof.
  unfold boosted.
  destruct h1, h2; simpl; destruct (p =? 0)%Z eqn:Hp; simpl; rewrite ?Hp; done.
Qed.

Lemma boosted_false (p : Z) : boosted false p = p.
Proof. reflexivity. Qed.

Lemma boost_slice_length (a b : nat) (l : list Z) :
  length (boost_slice a b l) = length l.
Proof.
  unfold boost_slice.
  rewrite !length_app, length_fmap, !length_take, !length_drop. lia.
Qed.

Lemma boost_slice_lookup (a b : nat) (l : list Z) (j : nat) :
  boost_slice a b l !! j = boosted ((a <=? j)%nat && (j <? b)%nat) <$> l !! j.
Proof.
  destruct (l !! j) as [p|] eqn:Hj; simpl.
  2:{ apply lookup_ge_None. rewrite boost_slice_length. by apply lookup_ge_None. }
  assert (Hlt : j < length l) by (apply lookup_lt_is_Some; eauto).
  unfold boost_slice.
  destruct (Nat.leb_spec a j) as [Haj|Haj]; simpl.
  - rewrite lookup_app_r by (rewrite length_take; lia).
    rewrite length_take. replace (a `min` length l) with a by lia.
    destruct (Nat.ltb_spec j b) as [Hjb|Hjb].
    + rewrite lookup_app_l by (rewrite length_fmap, length_take, length_drop; lia).
      rewrite list_lookup_fmap, lookup_take_lt by lia.
      rewrite lookup_drop. replace (a + (j - a)) with j by lia.
      rewrite Hj. simpl. unfold boosted. simpl. by destruct (p =? 0)%Z eqn:Hp.
    + rewrite lookup_app_r by (rewrite length_fmap, length_take, length_drop; lia).
      rewrite length_fmap, length_take, length_drop, lookup_drop.
      replace (a `max` b + (j - a - (b - a) `min` (length l - a))) with j by lia.
      by rewrite Hj.
  - rewrite lookup_app_l by (rewrite length_take; lia).
    rewrite lookup_take_lt by lia. by rewrite Hj.
Qed.

Lemma prioritize_files_from_spec (ti : TorrentInfo) (files : list FileEntry) :
  ∀ (i : nat) (acc : list (nat * nat)) (priorities : list Z),
    (prioritize_files_from ti i files acc priorities).1
    = acc ++ first_last_ranges ti i files
    ∧ ∀ j, (prioritize_files_from ti i files acc priorities).2 !! j
           = boosted (in_ranges j (first_last_ranges ti i files))
               <$> priorities !! j.
Proof.
  induction files as [|f files IH]; intros i acc priorities; simpl.
  - split; [by rewrite app_nil_r|]. intros j.
    destruct (priorities !! j); reflexivity.
  - destruct (IH (S i)
                (acc ++ [(ti_map_file ti i 0,
                          ti_map_file ti i (two_percent_bytes (fe_size f)) + 1);
                         (ti_map_file ti i (fe_size f - two_percent_bytes (fe_size f)),
                          ti_map_file ti i ((fe_size f - 1) `max` 0) + 1)])
                (boost_slice
                   (ti_map_file ti i (fe_size f - two_percent_bytes (fe_size f)))
                   (ti_map_file ti i ((fe_size f - 1) `max` 0) + 1)
                   (boost_slice (ti_map_file ti i 0)
                      (ti_map_file ti i (two_percent_bytes (fe_size f)) + 1)
                      priorities))) as [Hranges Hprio].
    split.
    + rewrite Hranges, <- app_assoc. reflexivity.
    + intros j. rewrite Hprio, !boost_slice_lookup.
      destruct (priorities !! j) as [p|]; simpl; [|done].
      rewrite !boosted_compose. f_equal. f_equal.
      unfold in_ranges. simpl.
      apply Bool.eq_true_iff_eq. rewrite !orb_true_iff. tauto.
Qed.

(** C6.  Whatever the piece priorities and the file layout are, a call
    [set_prioritize_first_last_pieces(True)] leaves the handle with a
    priority vector of the same length in which every piece marked
    do-not-download (priority 0) is still at 0, every piece inside one of
    the computed first and last 2% ranges whose priority was not 0 is at 7,
    and every piece outside those ranges keeps its priority; where the call
    goes through, the ranges it computed are, for each file, the pieces of
    its first and of its last 2% of bytes. *)
Theorem prioritize_first_last_keeps_zero
    (set_file_priorities : Value → method unit) (self : Torrent) (j : nat) :
  h_piece_priorities
    (handle (set_prioritize_first_last_pieces set_file_priorities
               (VBool true) self).2) !! j
  = boosted (in_ranges j (computed_ranges self))
      <$> h_piece_priorities (handle self) !! j
  ∧ (h_piece_priorities (handle self) !! j = Some 0%Z →
     h_piece_priorities
       (handle (set_prioritize_first_last_pieces set_file_priorities
                  (VBool true) self).2) !! j = Some 0%Z)
  ∧ (∀ p, h_piece_priorities (handle self) !! j = Some p → p ≠ 0%Z →
          in_ranges j (computed_ranges self) = true →
          h_piece_priorities
            (handle (set_prioritize_first_last_pieces set_file_priorities
                       (VBool true) self).2) !! j = Some 7%Z)
  ∧ (in_ranges j (computed_ranges self) = false →
     h_piece_priorities
       (handle (set_prioritize_first_last_pieces set_file_priorities
                  (VBool true) self).2) !! j
     = h_piece_priorities (handle self) !! j)
  ∧ (has_metadata self = true →
     ∀ compact, options self !! "compact_allocation" = Some compact →
     truthy compact = false →
     ∃ priorities,
       (set_prioritize_first_last_pieces set_file_priorities
          (VBool true) self).1
       = inr (Some (first_last_ranges (torrent_info self) 0
                      (ti_files (torrent_info self)), priorities))).
Proof.
  assert (Hmain :
    h_piece_priorities
      (handle (set_prioritize_first_last_pieces set_file_priorities
                 (VBool true) self).2) !! j
    = boosted (in_ranges j (computed_ranges self))
        <$> h_piece_priorities (handle self) !! j).
  { unfold set_prioritize_first_last_pieces, computed_ranges, getitem. simpl.
    destruct (has_metadata self); simpl.
    2:{ by destruct (h_piece_priorities (handle self) !! j). }
    destruct (decide ("compact_allocation" = "prioritize_first_last_pieces"))
      as [Heq|Hne]; [discriminate Heq|].
    rewrite lookup_insert_ne by done.
    destruct (options self !! "compact_allocation") as [compact|]; simpl.
    2:{ by destruct (h_piece_priorities (handle self) !! j). }
    destruct (truthy compact); simpl.
    { by destruct (h_piece_priorities (handle self) !! j). }
    pose proof (prioritize_files_from_spec (torrent_info self)
                  (ti_files (torrent_info self)) 0 []
                  (h_piece_priorities (handle self))) as [_ Hprio].
    destruct (prioritize_files_from _ _ _ _ _) as [ranges priorities].
    simpl in *. apply Hprio. }
  split; [exact Hmain|]. split; [|split; [|split]].
  - intros Hzero. rewrite Hmain, Hzero. simpl. unfold boosted.
    by rewrite andb_false_r.
  - intros p Hp Hnz Hin. rewrite Hmain, Hp, Hin. simpl. unfold boosted.
    destruct (Z.eqb_spec p 0); done.
  - intros Hout. rewrite Hmain, Hout.
    by destruct (h_piece_priorities (handle self) !! j).
  - intros Hmeta compact Hcompact Hfalse.
    unfold set_prioritize_first_last_pieces, getitem.
    cbn [truthy negb has_metadata store_option with_options options handle
         torrent_info].
    rewrite Hmeta. cbn [negb].
    rewrite lookup_insert_ne by done. rewrite Hcompact. cbn [ret]. rewrite Hfalse.
    pose proof (prioritize_files_from_spec (torrent_info self)
                  (ti_files (torrent_info self)) 0 []
                  (h_piece_priorities (handle self))) as [Hranges _].
    destruct (prioritize_files_from _ _ _ _ _) as [ranges priorities].
    simpl in *. subst ranges. eauto.
Qed.

(** The example: the pieces 0, 2, 3 and 7 lie in the ranges and go to 7;
    the pieces 1 and 5 are marked do-not-download and stay at 0; the pieces
    4 and 6 lie outside the ranges and keep their priorities. *)
Lemma prioritize_first_last_keeps_zero_witness :
  h_piece_priorities
    (handle (set_prioritize_first_last_pieces (λ _ self, (ret tt, self))
               (VBool true) example_torrent).2) !! 1%nat = Some 0%Z
  ∧ h_piece_priorities
      (handle (set_prioritize_first_last_pieces (λ _ self, (ret tt, self))
                 (VBool true) example_torrent).2)
    = [7; 0; 7; 7; 1; 0; 4; 7]%Z.
Proof.
  split.
  - apply (prioritize_first_last_keeps_zero (λ _ self, (ret tt, self))
             example_torrent 1). reflexivity.
  - vm_compute. reflexivity.
Defined.

(** ** The piece availability view *)

Lemma downloading_pieces_from (peers : list PeerInfo) :
  ∀ (acc : gmap Z Z) (k : Z),
    foldl (λ pieces peer_info,
      if (pi_downloading_piece_index peer_info <? 0)%Z then pieces
      else <[pi_downloading_piece_index peer_info := 2%Z]> pieces) acc peers !! k
    = if in_flight peers k then Some 2%Z else acc !! k.
Proof.
  induction peers as [|peer peers IH]; intros acc k; simpl; [done|].
  rewrite IH. destruct (in_flight peers k); [by rewrite orb_true_r|].
  rewrite orb_false_r.
  destruct (pi_downloading_piece_index peer <? 0)%Z; simpl; [done|].
  destruct (Z.eqb_spec (pi_downloading_piece_index peer) k) as [->|Hne].
  - by rewrite lookup_insert_eq.
  - by rewrite lookup_insert_ne.
Qed.

Lemma downloading_pieces_lookup (peers : list PeerInfo) (k : Z) :
  downloading_pieces peers !! k = if in_flight peers k then Some 2%Z else None.
Proof. unfold downloading_pieces. by rewrite downloading_pieces_from, lookup_empty. Qed.

Section ClassifyRest.

Variable availability : list Z.
Variable all_pieces : list bool.

Hypothesis availability_known : ∀ i,
  all_pieces !! i = Some false → is_Some (availability !! i).

Lemma classify_rest_spec (have : list bool) :
  ∀ (idx : nat) (pieces : gmap Z Z),
    drop idx all_pieces = have →
    ∃ pieces',
      classify_rest availability idx have pieces = inr pieces'
      ∧ ∀ k, pieces' !! k
             = match pieces !! k with
               | Some v => Some v
               | None =>
                   if bool_decide (Z.of_nat idx ≤ k < Z.of_nat (length all_pieces))%Z
                   then Some (settled_class availability all_pieces (Z.to_nat k))
                   else None
               end.
Proof.
  induction have as [|piece have IH]; intros idx pieces Hdrop.
  - exists pieces. split; [done|]. intros k.
    destruct (pieces !! k); [done|].
    rewrite bool_decide_eq_false_2; [done|].
    assert (length all_pieces ≤ idx).
    { apply (f_equal length) in Hdrop. rewrite length_drop in Hdrop.
      simpl in Hdrop. lia. }
    lia.
  - assert (Hidx : all_pieces !! idx = Some piece).
    { rewrite <- (Nat.add_0_r idx), <- lookup_drop, Hdrop. done. }
    assert (Hnext : drop (S idx) all_pieces = have).
    { replace (S idx) with (idx + 1) by lia.
      by rewrite <- drop_drop, Hdrop. }
    assert (Hlen : idx < length all_pieces).
    { apply lookup_lt_is_Some. eauto. }
    assert (Hstep : ∀ (v : Z) (pieces'' : gmap Z Z),
              (∀ k, pieces'' !! k
                    = match <[Z.of_nat idx := v]> pieces !! k with
                      | Some v => Some v
                      | None =>
                          if bool_decide
                               (Z.of_nat (S idx) ≤ k < Z.of_nat (length all_pieces))%Z
                          then Some (settled_class availability all_pieces (Z.to_nat k))
                          else None
                      end) →
              pieces !! Z.of_nat idx = None →
              v = settled_class availability all_pieces idx →
              ∀ k, pieces'' !! k
                   = match pieces !! k with
                     | Some v => Some v
                     | None =>
                         if bool_decide
                              (Z.of_nat idx ≤ k < Z.of_nat (length all_pieces))%Z
                         then Some (settled_class availability all_pieces (Z.to_nat k))
                         else None
                     end).
    { intros v pieces'' Hspec Hnone Hv k. rewrite Hspec.
      destruct (decide (k = Z.of_nat idx)) as [->|Hne].
      - rewrite lookup_insert_eq, Hnone.
        rewrite bool_decide_eq_true_2 by lia. by rewrite Nat2Z.id, Hv.
      - rewrite lookup_insert_ne by done.
        destruct (pieces !! k); [done|].
        apply (f_equal (λ b : bool, if b then _ else _)).
        apply bool_decide_ext. lia. }
    simpl.
    destruct (bool_decide (Z.of_nat idx ∈ dom pieces)) eqn:Hin.
    + apply bool_decide_eq_true_1, elem_of_dom in Hin as [v Hv].
      destruct (IH (S idx) pieces Hnext) as (pieces' & Hrun & Hspec).
      exists pieces'. split; [done|]. intros k. rewrite Hspec.
      destruct (decide (k = Z.of_nat idx)) as [->|Hne]; [by rewrite Hv|].
      destruct (pieces !! k); [done|].
      apply (f_equal (λ b : bool, if b then _ else _)).
      apply bool_decide_ext. lia.
    + apply bool_decide_eq_false_1, not_elem_of_dom in Hin.
      destruct piece.
      * destruct (IH (S idx) (<[Z.of_nat idx := 3%Z]> pieces) Hnext)
          as (pieces' & Hrun & Hspec).
        exists pieces'. split; [done|].
        apply (Hstep 3%Z); [done|done|].
        unfold settled_class. by rewrite Hidx.
      * destruct (availability_known idx Hidx) as [avail Havail].
        rewrite Havail.
        destruct (0 <? avail)%Z eqn:Hpos.
        -- destruct (IH (S idx) (<[Z.of_nat idx := 1%Z]> pieces) Hnext)
             as (pieces' & Hrun & Hspec).
           exists pieces'. split; [done|].
           apply (Hstep 1%Z); [done|done|].
           unfold settled_class. by rewrite Hidx, Havail; simpl; rewrite Hpos.
        -- destruct (IH (S idx) (<[Z.of_nat idx := 0%Z]> pieces) Hnext)
             as (pieces' & Hrun & Hspec).
           exists pieces'. split; [done|].
           apply (Hstep 0%Z); [done|done|].
           unfold settled_class. by rewrite Hidx, Havail; simpl; rewrite Hpos.
Qed.

End ClassifyRest.

(** A sorted list without repetition whose elements start at [o] and that
    holds [o], ..., [o + n - 1] has them in its first [n] positions. *)
Lemma sorted_prefix (l : list Z) :
  ∀ (o : Z) (n : nat),
    StronglySorted Z.le l → NoDup l →
    (∀ x, x ∈ l → (o ≤ x)%Z) →
    (∀ i : nat, i < n → (o + Z.of_nat i)%Z ∈ l) →
    ∀ i : nat, i < n → l !! i = Some (o + Z.of_nat i)%Z.
Proof.
  induction l as [|x l IH]; intros o n Hsorted Hnodup Hlow Hall i Hi.
  - specialize (Hall i Hi). by apply elem_of_nil in Hall.
  - apply StronglySorted_inv in Hsorted as [Hsorted Hmin].
    apply NoDup_cons in Hnodup as [Hx Hnodup].
    assert (Hxo : x = o).
    { assert (o ≤ x)%Z by (apply Hlow; left).
      assert (Hin : (o + Z.of_nat 0)%Z ∈ x :: l) by (apply Hall; lia).
      rewrite Z.add_0_r in Hin. apply elem_of_cons in Hin as [|Hin]; [done|].
      rewrite Forall_forall in Hmin. specialize (Hmin o Hin). lia. }
    subst x. destruct i as [|i]; simpl.
    + by rewrite Z.add_0_r.
    + replace (o + Z.of_nat (S i))%Z with ((o + 1) + Z.of_nat i)%Z by lia.
      apply (IH (o + 1)%Z (n - 1)); [done|done| | |lia].
      * intros y Hy. rewrite Forall_forall in Hmin. specialize (Hmin y Hy).
        assert (y ≠ o) by (intros ->; done). lia.
      * intros i' Hi'.
        assert (Hin : (o + Z.of_nat (S i'))%Z ∈ o :: l) by (apply Hall; lia).
        apply elem_of_cons in Hin as [Heq|Hin]; [lia|].
        by replace (o + 1 + Z.of_nat i')%Z with (o + Z.of_nat (S i'))%Z by lia.
Qed.

Lemma omap_lookup_defined {A B} (f : A → option B) (l : list A) :
  (∀ y, y ∈ l → is_Some (f y)) →
  ∀ i x, l !! i = Some x → omap f l !! i = f x.
Proof.
  induction l as [|y l IH]; intros Hdef i x Hi; [done|].
  simpl. destruct (Hdef y) as [b Hb]; [left|]. rewrite Hb.
  destruct i as [|i]; simpl in *.
  - injection Hi as <-. by rewrite Hb.
  - apply IH; [|done]. intros z Hz. apply Hdef. by right.
Qed.

Lemma in_flight_nonneg (peers : list PeerInfo) (k : Z) :
  in_flight peers k = true → (0 ≤ k)%Z.
Proof.
  unfold in_flight. rewrite existsb_exists.
  intros (peer & _ & Hpeer). apply andb_true_iff in Hpeer as [Hpos Heq].
  apply negb_true_iff, Z.ltb_ge in Hpos. apply Z.eqb_eq in Heq. lia.
Qed.

(** X19: what the piece view holds.  With metadata, and with an
    availability entry for every incomplete piece, [_get_pieces_info]
    returns a sequence whose entry at each piece index is the class of that
    piece: 2 when some peer of the engine's peer list reports it as the
    piece it is downloading (every peer of [get_peer_info()] counts,
    half-connected or not), else 3 when the piece is complete, else 1 when
    its availability is positive, else 0.  In flight comes before complete,
    and the sequence is in piece order. *)
Theorem pieces_info_classifies (self : Torrent) :
  has_metadata self = true →
  (∀ i, st_pieces (status self) !! i = Some false →
        is_Some (h_piece_availability (handle self) !! i)) →
  ∃ view,
    _get_pieces_info self = inr (Some view)
    ∧ ∀ idx, idx < length (st_pieces (status self)) →
        view !! idx
        = Some (piece_class (h_peer_info (handle self)) (st_pieces (status self))
                  (h_piece_availability (handle self)) idx).
Proof.
  intros Hmeta Havail. unfold _get_pieces_info. rewrite Hmeta. simpl.
  destruct (classify_rest_spec (h_piece_availability (handle self))
              (st_pieces (status self)) Havail (st_pieces (status self)) 0
              (downloading_pieces (h_peer_info (handle self))) eq_refl)
    as (pieces & Hrun & Hspec).
  rewrite Hrun. simpl. eexists. split; [reflexivity|]. intros idx Hidx.
  assert (Hclass : pieces !! Z.of_nat idx
                   = Some (piece_class (h_peer_info (handle self))
                             (st_pieces (status self))
                             (h_piece_availability (handle self)) idx)).
  { rewrite Hspec, downloading_pieces_lookup. unfold piece_class.
    destruct (in_flight _ _); [done|].
    rewrite bool_decide_eq_true_2 by lia. by rewrite Nat2Z.id. }
  assert (Hdom : ∀ x, x ∈ merge_sort Z.le (elements (dom pieces)) ↔
                      is_Some (pieces !! x)).
  { intros x. rewrite merge_sort_Permutation, elem_of_elements.
    apply elem_of_dom. }
  assert (Hpos : merge_sort Z.le (elements (dom pieces)) !! idx
                 = Some (0 + Z.of_nat idx)%Z).
  { apply (sorted_prefix _ 0%Z (length (st_pieces (status self)))); [| | | |done].
    - apply (StronglySorted_merge_sort _).
    - rewrite merge_sort_Permutation. apply NoDup_elements.
    - intros x Hx. apply Hdom in Hx as [v Hv].
      rewrite Hspec, downloading_pieces_lookup in Hv.
      destruct (in_flight _ x) eqn:Hflight; [by apply in_flight_nonneg in Hflight|].
      case_bool_decide; [lia|done].
    - intros i Hi. apply Hdom. rewrite Z.add_0_l.
      rewrite Hspec, downloading_pieces_lookup.
      destruct (in_flight _ _); [eauto|].
      rewrite bool_decide_eq_true_2 by lia. eauto. }
  rewrite Z.add_0_l in Hpos.
  rewrite (omap_lookup_defined _ _ (λ y Hy, proj1 (Hdom y) Hy) idx _ Hpos).
  exact Hclass.
Qed.

(** The view of the example: pieces 0 and 2 are in flight, piece 1 is
    available, piece 3 is missing. *)
Lemma pieces_info_classifies_witness :
  ∃ view,
    _get_pieces_info example_torrent = inr (Some view)
    ∧ ∀ idx, idx < 4 →
        view !! idx
        = Some (piece_class (h_peer_info example_handle) (st_pieces example_status)
                  (h_piece_availability example_handle) idx).
Proof.
  apply (pieces_info_classifies example_torrent).
  - reflexivity.
  - intros i Hi. apply lookup_lt_is_Some.
    apply lookup_lt_Some in Hi. exact Hi.
Defined.


(** ** The tracker host *)

Section TrackerHostProps.

Variable url_hostname : string → result (option string).
Variable inet_aton : string → bool.

Lemma get_tracker_host_uncached (self : Torrent) (h : string) :
  tracker_host self = None ∨ tracker_host self = Some "" →
  announce_url self ≠ "" →
  url_hostname (Py.replace "udp://" "http://" (announce_url self)) = inr (Some h) →
  h ≠ "" →
  get_tracker_host url_hostname inet_aton self
  = if inet_aton h then (inr (Some h), self)
    else
      let parts := Py.split "." h in
      let host :=
        if (2 <? length parts)%nat then
          if bool_decide (Py.from_end 2 parts ∈
                [Some "co"; Some "com"; Some "net"; Some "org"])
             || from_option (Py.contains "uk") false (Py.from_end 1 parts)
          then Py.join "." (Py.last_n 3 parts)
          else Py.join "." (Py.last_n 2 parts)
        else h in
      (inr (Some host), with_tracker_host (Some host) self).
Proof.
  intros Hcache Hurl Hhost Hh. unfold get_tracker_host.
  assert (Hc : match tracker_host self with
               | Some host => negb (String.eqb host "")
               | None => false
               end = false) by (by destruct Hcache as [-> | ->]).
  rewrite Hc. fold (announce_url self).
  destruct (String.eqb_spec (announce_url self) "") as [|_]; [done|].
  simpl. rewrite Hhost.
  destruct (String.eqb_spec h "") as [|_]; [done|]. reflexivity.
Qed.

End TrackerHostProps.

(** C4, as the code has it.  For a torrent without a cached host whose
    tracker address has host name [h]: when [h] is a literal IP address it
    is returned unmodified; otherwise a name of one or two labels is
    returned as it is, a longer name is cut to its last 3 labels when the
    label before the last is co, com, net or org or the last label is uk,
    and to its last 2 labels when neither holds and the last label is no
    part of "uk"; the name returned is cached.  So
    [udp://tracker.example.co.uk/announce] gives [example.co.uk], the last
    three labels of a name of four, and [udp://a.b.example.net/announce]
    gives [example.net]. *)
Theorem get_tracker_host_collapse :
  (∀ url_hostname inet_aton (self : Torrent) (h : string),
     tracker_host self = None ∨ tracker_host self = Some "" →
     announce_url self ≠ "" →
     url_hostname (Py.replace "udp://" "http://" (announce_url self))
     = inr (Some h) →
     h ≠ "" →
     (inet_aton h = true →
      get_tracker_host url_hostname inet_aton self = (inr (Some h), self))
     ∧ (inet_aton h = false →
        ∃ host,
          get_tracker_host url_hostname inet_aton self
          = (inr (Some host), with_tracker_host (Some host) self)
          ∧ (length (Py.split "." h) ≤ 2 → host = h)
          ∧ (2 < length (Py.split "." h) →
             (∃ label, Py.from_end 2 (Py.split "." h) = Some label
                       ∧ label ∈ ["co"; "com"; "net"; "org"])
             ∨ Py.from_end 1 (Py.split "." h) = Some "uk" →
             host = Py.join "." (Py.last_n 3 (Py.split "." h)))
          ∧ (2 < length (Py.split "." h) →
             (∀ label, Py.from_end 2 (Py.split "." h) = Some label →
                       label ∉ ["co"; "com"; "net"; "org"]) →
             (∀ tld, Py.from_end 1 (Py.split "." h) = Some tld →
                     Py.contains "uk" tld = false) →
             host = Py.join "." (Py.last_n 2 (Py.split "." h)))))
  ∧ (get_tracker_host Lib.url_hostname Lib.inet_aton
       (with_status
          (status_with_current_tracker "udp://tracker.example.co.uk/announce"
             example_status) example_torrent)).1
    = inr (Some "example.co.uk")
  ∧ (get_tracker_host Lib.url_hostname Lib.inet_aton
       (with_status
          (status_with_current_tracker "udp://a.b.example.net/announce"
             example_status) example_torrent)).1
    = inr (Some "example.net").
Proof.
  split; [|split; vm_compute; reflexivity].
  intros url_hostname inet_aton self h Hcache Hurl Hhost Hh.
  rewrite (get_tracker_host_uncached url_hostname inet_aton self h) by done.
  split; [by intros ->|]. intros ->.
  eexists. split; [reflexivity|]. simpl.
  split; [|split].
  - intros Hshort. destruct (Nat.ltb_spec 2 (length (Py.split "." h))); [lia|done].
  - intros Hlong Hsuffix.
    destruct (Nat.ltb_spec 2 (length (Py.split "." h))); [|lia].
    destruct Hsuffix as [(label & Hlabel & Hin)| Huk].
    + rewrite Hlabel. rewrite bool_decide_eq_true_2; [done|].
      apply list_elem_of_fmap_2 with (f := Some) in Hin. exact Hin.
    + rewrite Huk. simpl. by rewrite orb_true_r.
  - intros Hlong Hlabel Htld.
    destruct (Nat.ltb_spec 2 (length (Py.split "." h))); [|lia].
    rewrite bool_decide_eq_false_2.
    + destruct (Py.from_end 1 (Py.split "." h)) as [tld|] eqn:Hlast; simpl;
        [by rewrite (Htld tld)|done].
    + intros Hin.
      destruct (Py.from_end 2 (Py.split "." h)) as [label|] eqn:Hsecond.
      * apply (Hlabel label eq_refl).
        apply (list_elem_of_fmap_inj Some) with (l := ["co"; "com"; "net"; "org"]).
        exact Hin.
      * repeat (apply elem_of_cons in Hin as [Hin|Hin]; [discriminate Hin|]).
        by apply elem_of_nil in Hin.
Qed.

(** The theorem on the model of the library functions and the example
    torrent, whose current tracker is
    [udp://tracker.example.co.uk/announce]. *)
Lemma get_tracker_host_collapse_witness :
  ∃ host,
    get_tracker_host Lib.url_hostname Lib.inet_aton example_torrent
    = (inr (Some host), with_tracker_host (Some host) example_torrent)
    ∧ host = "example.co.uk".
Proof.
  destruct (proj2 (proj1 get_tracker_host_collapse Lib.url_hostname Lib.inet_aton
                     example_torrent "tracker.example.co.uk"
                     (or_introl eq_refl) ltac:(discriminate) eq_refl
                     ltac:(discriminate)) eq_refl)
    as (host & Hrun & _ & Hthree & _).
  exists host. split; [exact Hrun|].
  rewrite Hthree; [reflexivity|simpl; lia|].
  left. exists "co". split; [reflexivity|]. set_solver.
Defined.

(** C4 as the specification states it fails on its own scenario: for
    [udp://tracker.example.co.uk/announce] the code returns
    [example.co.uk], not [tracker.example.co.uk]. *)
Lemma tracker_host_co_uk_drops_first_label :
  (get_tracker_host Lib.url_hostname Lib.inet_aton example_torrent).1
  = inr (Some "example.co.uk")
  ∧ announce_url example_torrent = "udp://tracker.example.co.uk/announce"
  ∧ String.eqb "example.co.uk" "tracker.example.co.uk" = false.
Proof. vm_compute. repeat split. Qed.

(** ** The rename coordinator *)

Lemma filter_waiting (wx w0 : World) (wd : nat) (l : list nat) :
  w_dicts wx !! wd = Some ∅ →
  (∀ ref, ref ∈ l → ref ≠ wd ∧ w_dicts wx !! ref = w_dicts w0 !! ref) →
  ∀ ref, ref ∈ filter (λ ref, dict_truthy wx ref = true) (l ++ [wd]) ↔
         ref ∈ l ∧ dict_truthy w0 ref = true.
Proof.
  intros Hwd Hl ref.
  rewrite list_elem_of_filter, elem_of_app, list_elem_of_singleton.
  unfold dict_truthy. split.
  - intros [Htruthy [Hin| ->]].
    + destruct (Hl ref Hin) as [_ Heq]. by rewrite <- Heq.
    + rewrite Hwd in Htruthy. by rewrite bool_decide_eq_true_2 in Htruthy.
  - intros [Hin Htruthy]. destruct (Hl ref Hin) as [_ Heq].
    rewrite Heq. auto.
Qed.

Lemma rename_step (w0 : World) (wd d : nat) (folder nf : string) (N i : nat)
    (rest : list nat) (w : World) :
  wd ∉ dom (w_dicts w0) →
  (∀ ref, ref ∈ waiting_on_folder_rename (w_self w0) → ref ∈ dom (w_dicts w0)) →
  (∀ ref, ref ∈ waiting_on_folder_rename (w_self w0) →
          w_dicts w0 !! ref ≫= (.!! i) = None) →
  i ∉ rest →
  rename_in_flight w0 wd d folder nf N (i :: rest) w →
  ∃ w',
    file_rename_completed i w = (inr tt, w')
    ∧ (rest ≠ [] → rename_in_flight w0 wd d folder nf N rest w')
    ∧ (rest = [] → rename_complete w0 wd folder nf w').
Proof.
  intros Hfresh Hlive Hfree Hi [(group & Hgroup & Hkeys) Hothers Hlist Hwaiting Hid Hevents Hcount].
  assert (Hne : ∀ ref, ref ∈ waiting_on_folder_rename (w_self w0) → ref ≠ wd).
  { intros ref Hin ->. by apply Hfresh, Hlive. }
  assert (Hgi : group !! i = Some (pending_deferred wd d i)).
  { rewrite Hkeys, bool_decide_eq_true_2; [done|left]. }
  unfold file_rename_completed. rewrite Hwaiting.
  rewrite list_find_app_r.
  2:{ apply list_find_None, Forall_forall. intros ref Hin.
      rewrite Hothers by auto. rewrite Hfree by done. by intros [? ?]. }
  simpl. rewrite decide_True.
  2:{ rewrite Hgroup. simpl. rewrite Hgi. eauto. }
  simpl. unfold fire_file. rewrite Hgroup. simpl. rewrite Hgi.
  cbn -[Nat.eqb Nat.sub]. rewrite Hlist. cbn -[Nat.eqb Nat.sub].
  assert (Hdicts : alter (delete i) wd
                     (alter <[i:={| called := true; callbacks := [] |}]> wd (w_dicts w))
                   = <[wd := delete i group]> (w_dicts w)).
  { apply map_eq. intros ref. destruct (decide (ref = wd)) as [->|Hr].
    - rewrite lookup_insert_eq, !lookup_alter_eq, Hgroup. simpl.
      by rewrite delete_insert_eq.
    - by rewrite lookup_insert_ne, !lookup_alter_ne. }
  rewrite Hdicts.
  assert (Hrest : ∀ k, delete i group !! k
                       = if bool_decide (k ∈ rest)
                         then Some (pending_deferred wd d k) else None).
  { intros k. destruct (decide (k = i)) as [->|Hk].
    - rewrite lookup_delete_eq. by rewrite bool_decide_eq_false_2.
    - rewrite lookup_delete_ne, Hkeys by done.
      apply (f_equal (λ b : bool, if b then _ else _)).
      apply bool_decide_ext. rewrite elem_of_cons. naive_solver. }
  simpl in Hcount.
  eexists. split; [reflexivity|]. split.
  - intros Hne'. assert (0 < length rest) by (destruct rest; simpl; [done|lia]).
    destruct (Nat.eqb_spec (S (N - S (length rest))) N) as [Heq|_]; [lia|].
    split; simpl; try done.
    + exists (delete i group). split; [by rewrite lookup_insert_eq|done].
    + intros ref Hr. rewrite lookup_insert_ne by done. by apply Hothers.
    + rewrite lookup_insert_eq. do 2 f_equal. lia.
    + lia.
  - intros ->. change (length (@nil nat)) with 0 in *.
    destruct (Nat.eqb_spec (S (N - 1)) N) as [_|Hneq]; [|lia].
    assert (Hempty : delete i group = ∅).
    { apply map_eq. intros k. by rewrite Hrest, lookup_empty. }
    rewrite Hempty. unfold fire_list. simpl.
    split; simpl.
    + by rewrite Hevents, Hid.
    + by rewrite lookup_insert_eq.
    + rewrite Hwaiting. intros Hin.
      eapply filter_waiting in Hin as [Hin _]; [by apply Hne in Hin| |].
      * simpl. by rewrite lookup_insert_eq.
      * intros ref Href. split; [by apply Hne|]. simpl.
        rewrite lookup_insert_ne by (by apply not_eq_sym, Hne). by apply Hothers, Hne.
    + intros ref. rewrite Hwaiting. eapply filter_waiting.
      * simpl. by rewrite lookup_insert_eq.
      * intros ref' Href. split; [by apply Hne|]. simpl.
        rewrite lookup_insert_ne by (by apply not_eq_sym, Hne). by apply Hothers, Hne.
Qed.

Section Delivery.

Variables (w0 : World) (wd d : nat) (folder nf : string) (N : nat).
Hypothesis Hfresh : wd ∉ dom (w_dicts w0).
Hypothesis Hlive : ∀ ref,
  ref ∈ waiting_on_folder_rename (w_self w0) → ref ∈ dom (w_dicts w0).

Lemma deliver_prefix (pre : list nat) :
  ∀ (rest : list nat) (w : World),
    rest ≠ [] → NoDup (pre ++ rest) →
    (∀ ref i, ref ∈ waiting_on_folder_rename (w_self w0) → i ∈ pre →
              w_dicts w0 !! ref ≫= (.!! i) = None) →
    rename_in_flight w0 wd d folder nf N (pre ++ rest) w →
    ∃ w', deliver pre w = (inr tt, w')
          ∧ rename_in_flight w0 wd d folder nf N rest w'.
Proof.
  induction pre as [|i pre IH]; intros rest w Hrest Hnodup Hfree Hinv.
  - exists w. done.
  - simpl in Hnodup. apply NoDup_cons in Hnodup as [Hi Hnodup].
    destruct (rename_step w0 wd d folder nf N i (pre ++ rest) w)
      as (w1 & Hstep & Hnext & _); [done|done| |done|done|].
    { intros ref Href. apply Hfree; [done|left]. }
    destruct (IH rest w1) as (w' & Hrun & Hinv'); [done|done| | |].
    { intros ref j Href Hj. apply Hfree; [done|by right]. }
    { apply Hnext. destruct pre; [done|done]. }
    exists w'. simpl. rewrite Hstep. done.
Qed.

Lemma deliver_all (rest : list nat) :
  ∀ (w : World),
    rest ≠ [] → NoDup rest →
    (∀ ref i, ref ∈ waiting_on_folder_rename (w_self w0) → i ∈ rest →
              w_dicts w0 !! ref ≫= (.!! i) = None) →
    rename_in_flight w0 wd d folder nf N rest w →
    ∃ w', deliver rest w = (inr tt, w')
          ∧ rename_complete w0 wd folder nf w'.
Proof.
  induction rest as [|i rest IH]; intros w Hrest Hnodup Hfree Hinv; [done|].
  apply NoDup_cons in Hnodup as [Hi Hnodup].
  destruct (rename_step w0 wd d folder nf N i rest w)
    as (w1 & Hstep & Hnext & Hlast); [done|done| |done|done|].
  { intros ref Href. apply Hfree; [done|left]. }
  simpl. rewrite Hstep.
  destruct rest as [|j rest].
  - exists w1. split; [done|]. by apply Hlast.
  - apply IH; [done|done| |by apply Hnext].
    intros ref k Href Hk. apply Hfree; [done|by right].
Qed.

End Delivery.

Lemma get_files_NoDup (self : Torrent) : NoDup (get_files self).*1.
Proof.
  apply NoDup_alt. intros i j x Hi Hj. unfold get_files in *.
  destruct (has_metadata self); simpl in *; [|done].
  rewrite list_lookup_fmap, list_lookup_imap in Hi, Hj.
  destruct (ti_files (torrent_info self) !! i); [|done].
  destruct (ti_files (torrent_info self) !! j); [|done].
  simpl in *. congruence.
Qed.

Lemma matching_files_NoDup (folder : string) (self : Torrent) :
  NoDup (matching_files folder self).
Proof.
  unfold matching_files. eapply sublist_NoDup; [apply get_files_NoDup|].
  apply fmap_sublist, sublist_filter.
Qed.

Lemma rename_matching_spec (folder nf : string) (wd : nat)
    (files : list (nat * string)) :
  ∀ (w : World) (group0 : gmap nat Deferred),
    w_dicts w !! wd = Some group0 →
    (∃ group,
       w_dicts (rename_matching folder nf wd files w) !! wd = Some group
       ∧ ∀ i, group !! i
              = if bool_decide
                     (i ∈ (filter (λ f, Py.startswith f.2 folder = true) files).*1)
                then Some {| called := false;
                             callbacks := [on_file_rename_complete wd i] |}
                else group0 !! i)
    ∧ (∀ ref, ref ≠ wd →
         w_dicts (rename_matching folder nf wd files w) !! ref = w_dicts w !! ref)
    ∧ w_lists (rename_matching folder nf wd files w) = w_lists w
    ∧ waiting_on_folder_rename (w_self (rename_matching folder nf wd files w))
      = waiting_on_folder_rename (w_self w)
    ∧ torrent_id (w_self (rename_matching folder nf wd files w))
      = torrent_id (w_self w)
    ∧ w_events (rename_matching folder nf wd files w) = w_events w.
Proof.
  unfold rename_matching.
  induction files as [|[index path] files IH]; intros w group0 Hwd; simpl.
  - split; [|done]. exists group0. split; [done|]. intros i. done.
  - destruct (Py.startswith path folder) eqn:Hmatch; simpl.
    + edestruct (IH (world_with_self
                      (with_handle
                         (handle_rename_file index
                            (Py.replace_first folder nf path) (handle (w_self w)))
                         (w_self w))
                      (world_with_dicts
                         (alter <[index:={| called := false;
                                            callbacks := [on_file_rename_complete wd index] |}]>
                            wd (w_dicts w)) w)))
        as ((group & Hgroup & Hkeys) & Hothers & Hlists & Hwaiting & Hid & Hevents).
      { simpl. by rewrite lookup_alter_eq, Hwd. }
      simpl in *. split; [|split; [|done]].
      * exists group. split; [done|]. intros i. rewrite Hkeys.
        rewrite filter_cons_True by done. simpl.
        destruct (decide (i = index)) as [->|Hne].
        -- rewrite (bool_decide_eq_true_2 (index ∈ index :: _)) by left.
           case_bool_decide; [done|]. by rewrite lookup_insert_eq.
        -- rewrite lookup_insert_ne by done.
           apply (f_equal (λ b : bool, if b then _ else _)).
           apply bool_decide_ext. rewrite elem_of_cons. naive_solver.
      * intros ref Href. rewrite Hothers by done. by rewrite lookup_alter_ne.
    + rewrite filter_cons_False by (simpl; by rewrite Hmatch). by apply IH.
Qed.

Lemma rename_folder_started (folder new_folder : string) (w : World) :
  1 ≤ Py.len new_folder →
  (∀ ref, ref ∈ waiting_on_folder_rename (w_self w) → ref ∈ dom (w_dicts w)) →
  (rename_folder folder new_folder w).1 = Some (fresh (dom (w_lists w)))
  ∧ (matching_files folder (w_self w) ≠ [] →
     rename_in_flight w (fresh (dom (w_dicts w))) (fresh (dom (w_lists w)))
       folder (sanitize_filepath new_folder true)
       (length (matching_files folder (w_self w)))
       (matching_files folder (w_self w))
       (rename_folder folder new_folder w).2)
  ∧ (matching_files folder (w_self w) = [] →
     rename_complete w (fresh (dom (w_dicts w))) folder
       (sanitize_filepath new_folder true)
       (rename_folder folder new_folder w).2).
Proof.
  intros Hname Hlive. unfold rename_folder.
  destruct (Nat.ltb_spec (Py.len new_folder) 1) as [|_]; [lia|].
  set (wd := fresh (dom (w_dicts w))).
  set (nf := sanitize_filepath new_folder true).
  assert (Hwd : wd ∉ dom (w_dicts w)) by apply is_fresh.
  set (wb := world_with_self _ (world_with_dicts _ w)).
  destruct (rename_matching_spec folder nf wd (get_files (w_self wb)) wb ∅)
    as ((group & Hgroup & Hkeys) & Hothers & Hlists & Hwaiting & Hid & Hevents).
  { unfold wb. simpl. by rewrite lookup_insert_eq. }
  set (wc := rename_matching folder nf wd (get_files (w_self wb)) wb) in *.
  change (get_files (w_self wb)) with (get_files (w_self w)) in *.
  fold (matching_files folder (w_self w)) in Hkeys.
  set (matched := matching_files folder (w_self w)) in *.
  assert (Hsize : size group = length matched).
  { rewrite <- size_dom.
    replace (dom group) with (list_to_set (C := gset nat) matched).
    - apply size_list_to_set, matching_files_NoDup.
    - apply set_eq. intros i. rewrite elem_of_list_to_set, elem_of_dom, Hkeys.
      case_bool_decide; [by split; eauto|].
      rewrite lookup_empty. split; [done|]. by intros [? ?]. }
  rewrite Hlists. unfold wb at 2. simpl (w_lists _).
  set (d := fresh (dom (w_lists w))).
  unfold new_DeferredList. rewrite Hgroup. simpl (default _ _). rewrite Hsize.
  assert (Hne : ∀ ref, ref ∈ waiting_on_folder_rename (w_self w) → ref ≠ wd).
  { intros ref Hin ->. by apply Hwd, Hlive. }
  split; [|split].
  - done.
  - intros Hmatched.
    assert (Hpos : (length matched =? 0) = false).
    { apply Nat.eqb_neq. by destruct matched. }
    rewrite Hpos. unfold list_addBoth. simpl. rewrite lookup_insert_eq. simpl.
    split; simpl.
    + exists ((λ d0, {| called := called d0;
                        callbacks := callbacks d0 ++ [cbDeferred d] |}) <$> group).
      split; [by rewrite lookup_alter_eq, Hgroup|].
      intros i. rewrite lookup_fmap, Hkeys.
      case_bool_decide; [done|]. by rewrite lookup_empty.
    + intros ref Href. rewrite lookup_alter_ne by done.
      rewrite Hothers by done. unfold wb. simpl. by rewrite lookup_insert_ne.
    + rewrite lookup_insert_eq. by rewrite Nat.sub_diag.
    + by rewrite Hwaiting.
    + by rewrite Hid.
    + by rewrite Hevents.
    + done.
  - intros Hmatched. rewrite Hmatched. simpl.
    assert (Hempty : group = ∅).
    { apply map_eq. intros i. rewrite Hkeys, Hmatched, lookup_empty.
      by rewrite bool_decide_eq_false_2 by apply not_elem_of_nil. }
    unfold list_addBoth, fire_list. simpl. rewrite lookup_insert_eq. simpl.
    assert (Hgroup' : alter (fmap (λ d0, {| called := called d0;
                                           callbacks := callbacks d0 ++ [cbDeferred d] |}))
                        wd (w_dicts wc) !! wd = Some ∅).
    { rewrite lookup_alter_eq, Hgroup, Hempty. simpl. by rewrite fmap_empty. }
    split; simpl.
    + by rewrite Hevents, Hid.
    + done.
    + rewrite Hwaiting. unfold wb. simpl. intros Hin.
      eapply filter_waiting in Hin as [Hin _]; [by apply Hne in Hin|done|].
      intros ref Href. split; [by apply Hne|]. simpl.
      rewrite lookup_alter_ne by (by apply not_eq_sym, Hne).
      rewrite Hothers by (by apply Hne). unfold wb. simpl.
      rewrite lookup_insert_ne; [done|]. by apply not_eq_sym, Hne.
    + intros ref. rewrite Hwaiting. unfold wb. simpl. eapply filter_waiting; [done|].
      intros ref' Href. split; [by apply Hne|]. simpl.
      rewrite lookup_alter_ne by (by apply not_eq_sym, Hne).
      rewrite Hothers by (by apply Hne). unfold wb. simpl.
      rewrite lookup_insert_ne; [done|]. by apply not_eq_sym, Hne.
Qed.

Lemma rename_in_flight_perm (w0 : World) (wd d : nat) (folder nf : string)
    (N : nat) (rest rest' : list nat) (w : World) :
  rest ≡ₚ rest' →
  rename_in_flight w0 wd d folder nf N rest w →
  rename_in_flight w0 wd d folder nf N rest' w.
Proof.
  intros Hperm [(group & Hgroup & Hkeys) ? Hlist ? ? ? Hcount].
  split; try done.
  - exists group. split; [done|]. intros i. rewrite Hkeys.
    apply (f_equal (λ b : bool, if b then _ else _)).
    apply bool_decide_ext. by rewrite Hperm.
  - by rewrite <- Hperm.
  - by rewrite <- Hperm.
Qed.




(** ** The state classifier: labels, pause flags, repetition *)

Ltac open_torrent self :=
  destruct self as [?tid ?o [[?raw ?p ?am ?err ?ur ?dr ?ad ?au ?tw ?twd ?ct ?pcs] ?pp ?pi ?pa ?cs]
                      ?st ?ti ?hm ?fin ?s ?msg ?trs ?th ?ps ?w].

(** [update_state] in one equation: the error branches and the settled
    state. *)
Lemma update_state_eq (LT : LtTorrentState) (sp : bool) (self : Torrent) :
  update_state LT sp self
  = let status := h_status (handle self) in
    let stop_managing (t : Torrent) :=
      if st_paused status
      then with_handle (handle_auto_managed false (handle self)) t else t in
    if (0 <? Py.len (st_error status))%nat
    then stop_managing (with_statusmsg (st_error status) (with_state "Error" self))
    else if Py.startswith (statusmsg self) "Error:"
    then stop_managing (with_state "Error" self)
    else with_state (settled_state LT sp (st_state status) (st_paused status)
                       (st_auto_managed status))
           (with_statusmsg "OK" self).
Proof.
  unfold update_state, settled_state, provisional_state.
  open_torrent self. simpl.
  destruct (lt_name LT raw); simpl.
  all: destruct (0 <? Py.len err)%nat; simpl; [by destruct p|].
  all: destruct (Py.startswith msg "Error:"); simpl; [by destruct p|].
  all: destruct ((raw =? lt_Queued LT)%Z || (raw =? lt_Checking LT)%Z); simpl;
    [by destruct p|].
  all: destruct ((raw =? lt_Downloading LT)%Z || (raw =? lt_Downloading_Metadata LT)%Z);
    simpl; [by destruct sp, p, am|].
  all: destruct ((raw =? lt_Finished LT)%Z || (raw =? lt_Seeding LT)%Z);
    simpl; [by destruct sp, p, am|].
  all: destruct (raw =? lt_Allocating LT)%Z; simpl; by destruct sp, p, am.
Qed.

(** X1: the states [update_state] can leave.  When the engine's raw state
    is one of the seven the classifier tests for, the state after
    [update_state] is one of "Error", "Checking", "Paused", "Downloading",
    "Seeding", "Allocating" and "Queued", whatever the flags, the error
    text and the session say. *)
Theorem update_state_known_labels (LT : LtTorrentState) (sp : bool) (self : Torrent) :
  known_raw LT (st_state (h_status (handle self))) = true →
  state (update_state LT sp self) ∈ state_labels.
Proof.
  intros Hk. apply bool_decide_eq_true in Hk.
  rewrite !elem_of_cons, elem_of_nil in Hk.
  rewrite update_state_eq. cbn zeta. unfold state_labels.
  destruct (0 <? Py.len _)%nat.
  { destruct (st_paused _); simpl; by repeat constructor. }
  destruct (Py.startswith _ _).
  { destruct (st_paused _); simpl; by repeat constructor. }
  simpl. unfold settled_state, provisional_state.
  destruct (st_paused _), (st_auto_managed _), sp; simpl;
    repeat (match goal with |- context [(?a =? ?b)%Z] => destruct (Z.eqb_spec a b) end;
            simpl; try by repeat constructor).
  all: exfalso; naive_solver.
Qed.

(** X2: the pause flags of a torrent without an error.  When the engine
    reports no error, the status message is no "Error:" message and the raw
    state is neither queued nor checking, [update_state] sets the message
    to "OK", leaves the handle alone and decides the state by the pause
    flags: "Paused" in a paused session; in a running session "Queued" for
    a paused auto-managed torrent and "Paused" for a paused torrent that is
    not auto-managed; the label of the raw state otherwise. *)
Theorem update_state_pause_table (LT : LtTorrentState) (sp : bool) (self : Torrent) :
  st_error (h_status (handle self)) = "" →
  Py.startswith (statusmsg self) "Error:" = false →
  st_state (h_status (handle self)) ≠ lt_Queued LT →
  st_state (h_status (handle self)) ≠ lt_Checking LT →
  state (update_state LT sp self)
  = (if sp then "Paused"
     else if st_paused (h_status (handle self))
     then (if st_auto_managed (h_status (handle self)) then "Queued" else "Paused")
     else provisional_state LT (st_state (h_status (handle self))))
  ∧ statusmsg (update_state LT sp self) = "OK"
  ∧ handle (update_state LT sp self) = handle self.
Proof.
  intros Herr Hmsg Hq Hc. unfold update_state, provisional_state.
  open_torrent self. simpl in *. subst err. simpl.
  apply Z.eqb_neq in Hq, Hc.
  destruct (lt_name LT raw); simpl; rewrite Hmsg, Hq, Hc; simpl;
    destruct sp, p, am; simpl; classify; done.
Qed.

Lemma update_state_keeps_rest (LT : LtTorrentState) (sp : bool) (self : Torrent) :
  update_state_frame self (update_state LT sp self).
Proof.
  rewrite (update_state_eq LT sp self). unfold update_state_frame. cbn zeta.
  destruct (0 <? Py.len (st_error (h_status (handle self))))%nat.
  { by destruct (st_paused (h_status (handle self))). }
  destruct (Py.startswith (statusmsg self) "Error:"); [|done].
  by destruct (st_paused (h_status (handle self))).
Qed.

(** X3: [update_state] is idempotent and local.  A second call right
    after the first decides the same state, status message and
    auto-managed flag; and a call changes nothing of the torrent but the
    state, the status message and, in the engine, the auto-managed flag and
    the call log. *)
Theorem update_state_idempotent (LT : LtTorrentState) (sp : bool) (self : Torrent) :
  classifier_outputs (update_state LT sp (update_state LT sp self))
  = classifier_outputs (update_state LT sp self)
  ∧ update_state_frame self (update_state LT sp self).
Proof.
  split; [|apply update_state_keeps_rest].
  rewrite (update_state_eq LT sp (update_state LT sp self)).
  rewrite !(update_state_eq LT sp self).
  unfold classifier_outputs. cbn zeta.
  destruct (0 <? Py.len (st_error (h_status (handle self))))%nat eqn:Herr.
  { destruct (st_paused (h_status (handle self))) eqn:Hp; simpl;
      rewrite Herr, ?Hp; simpl; by rewrite ?Hp. }
  destruct (Py.startswith (statusmsg self) "Error:") eqn:Hmsg.
  { destruct (st_paused (h_status (handle self))) eqn:Hp; simpl;
      rewrite Herr, ?Hmsg, ?Hp; simpl; by rewrite ?Hp. }
  simpl. by rewrite Herr.
Qed.

(** The example torrent has raw state 5 (Seeding). *)
Lemma update_state_known_labels_witness :
  state (update_state LT_TORRENT_STATE true example_torrent) ∈ state_labels.
Proof. apply update_state_known_labels. by vm_compute. Defined.

(** The seeding example in a paused session. *)
Lemma update_state_pause_table_witness :
  state (update_state LT_TORRENT_STATE true example_torrent) = "Paused"
  ∧ statusmsg (update_state LT_TORRENT_STATE true example_torrent) = "OK"
  ∧ handle (update_state LT_TORRENT_STATE true example_torrent) = example_handle.
Proof. by apply (update_state_pause_table LT_TORRENT_STATE true example_torrent). Defined.

(** ** The status cache: failures, other sessions, expiry *)

Section StatusCacheFrame.

Variable status_funcs : gmap string (method Value).
Variable py_ne : Value → Value → bool.

Hypothesis accessors_keep_baselines : ∀ key func self,
  status_funcs !! key = Some func →
  prev_status (func self).2 = prev_status self.

Lemma fill_status_dict_keeps_baselines (keys : list string) :
  ∀ (acc : gmap string Value) (self : Torrent),
    prev_status (fill_status_dict status_funcs keys acc self).2 = prev_status self.
Proof.
  induction keys as [|key keys IH]; intros acc self; simpl; [done|].
  destruct (status_funcs !! key) as [func|] eqn:Hfunc; [|done].
  pose proof (accessors_keep_baselines key func self Hfunc) as Hkeep.
  destruct (func self) as [[e|value] self1]; simpl in *; [done|].
  by rewrite IH.
Qed.

Lemma fill_status_dict_unknown (keys : list string) :
  ∀ (acc : gmap string Value) (self : Torrent) (k : string),
    k ∈ keys → status_funcs !! k = None →
    ∃ e, (fill_status_dict status_funcs keys acc self).1 = inl e.
Proof.
  induction keys as [|key keys IH]; intros acc self k Hin Hk; simpl.
  { by apply elem_of_nil in Hin. }
  destruct (status_funcs !! key) as [func|] eqn:Hfunc; [|by eexists].
  destruct (func self) as [[e|value] self1]; simpl; [by eexists|].
  apply elem_of_cons in Hin as [->|Hin]; [|by eapply IH]. by pose proof (eq_trans (eq_sym Hk) Hfunc).
Qed.

(** X4: a call of [get_status] touches at most the caller's baseline, and
    only when it succeeds with [diff=True]: the baselines of the other
    sessions stay, a call with [diff=False] and a call that raises leave
    [prev_status] as it was, and a call that asks for a key the registry
    does not have raises. *)
Theorem get_status_touches_own_baseline (sid : Z) (keys : list string)
    (diff update all_keys : bool) (self : Torrent) r after :
  get_status status_funcs py_ne sid keys diff update all_keys self = (r, after) →
  (∀ other, other ≠ sid → prev_status after !! other = prev_status self !! other)
  ∧ (diff = false → prev_status after = prev_status self)
  ∧ (∀ e, r = inl e → prev_status after = prev_status self)
  ∧ (all_keys = false → (∃ k, k ∈ keys ∧ status_funcs !! k = None) →
     ∃ e, r = inl e).
Proof.
  unfold get_status. intros Hrun.
  set (self1 := if update then update_status (h_status (handle self)) self else self) in Hrun.
  set (keys1 := if all_keys then (map_to_list status_funcs).*1 else keys) in Hrun.
  assert (prev_status self1 = prev_status self) as Hself1.
  { unfold self1. by destruct update. }
  pose proof (fill_status_dict_keeps_baselines keys1 ∅ self1) as Hkeep.
  assert (all_keys = false → (∃ k, k ∈ keys ∧ status_funcs !! k = None) →
          ∃ e, (fill_status_dict status_funcs keys1 ∅ self1).1 = inl e) as Hunknown.
  { intros -> (k & Hin & Hk). by eapply fill_status_dict_unknown. }
  destruct (fill_status_dict status_funcs keys1 ∅ self1) as [[e|status_dict] self2];
    simpl in *.
  { injection Hrun as <- <-. rewrite Hkeep, Hself1. repeat split; eauto. }
  assert (∀ P : Prop, (∃ e : exn, @inr exn (gmap string Value) status_dict = inl e) → P)
    as Hno by (by intros P [e He]).
  destruct diff.
  - destruct (prev_status self2 !! sid) as [prev|] eqn:Hprev;
      injection Hrun as <- <-; simpl; rewrite Hkeep, Hself1.
    all: repeat split; try done.
    all: try (intros other Hother; by rewrite lookup_insert_ne).
    all: try (intros Hall Hk; apply Hno; auto).
  - injection Hrun as <- <-. rewrite Hkeep, Hself1. repeat split; try done.
Qed.

Section Expiry.

Variable is_session_valid : Z → bool.

Lemma cleanup_prev_status_fold (keys : list Z) :
  ∀ self,
    let after :=
      foldl (λ self key,
        if negb (is_session_valid key)
        then with_prev_status (delete key (prev_status self)) self
        else self) self keys in
    (∀ sid, prev_status after !! sid
            = if bool_decide (sid ∈ keys) && negb (is_session_valid sid)
              then None else prev_status self !! sid)
    ∧ with_prev_status (prev_status self) after = self.
Proof.
  induction keys as [|key keys IH]; intros self; simpl.
  { split; [done|]. by destruct self. }
  specialize (IH (if negb (is_session_valid key)
                  then with_prev_status (delete key (prev_status self)) self
                  else self)).
  simpl in IH. destruct IH as [IH1 IH2]. split.
  - intros sid. rewrite IH1.
    destruct (decide (sid = key)) as [->|Hne].
    + rewrite (bool_decide_eq_true_2 (key ∈ key :: keys)) by left.
      destruct (is_session_valid key); simpl.
      * by rewrite andb_false_r.
      * rewrite lookup_delete_eq. by destruct (_ && _).
    + rewrite (bool_decide_ext (sid ∈ key :: keys) (sid ∈ keys))
        by (rewrite elem_of_cons; naive_solver).
      destruct (_ && _); [done|].
      destruct (negb (is_session_valid key)); simpl; [|done].
      by rewrite lookup_delete_ne.
  - destruct (negb (is_session_valid key)); [|done].
    simpl in IH2.
    etransitivity;
      [symmetry; apply (λ p q t, eq_refl : with_prev_status p (with_prev_status q t)
                                           = with_prev_status p t)
                 with (q := delete key (prev_status self))|].
    rewrite IH2. by destruct self.
Qed.

(** X5: [cleanup_prev_status] drops exactly the baselines of the sessions
    that are no longer valid and changes nothing else; the next
    differential call of a dropped session gets the full status again, as
    on its first call. *)
Theorem cleanup_prev_status_expires (self : Torrent) :
  (∀ sid, prev_status (cleanup_prev_status is_session_valid self) !! sid
          = if is_session_valid sid then prev_status self !! sid else None)
  ∧ with_prev_status (prev_status self) (cleanup_prev_status is_session_valid self)
    = self
  ∧ (∀ sid keys update all_keys status_dict after,
       is_session_valid sid = false →
       get_status status_funcs py_ne sid keys false update all_keys
         (cleanup_prev_status is_session_valid self) = (inr status_dict, after) →
       (get_status status_funcs py_ne sid keys true update all_keys
          (cleanup_prev_status is_session_valid self)).1 = inr status_dict).
Proof.
  pose proof (cleanup_prev_status_fold (map_to_list (prev_status self)).*1 self)
    as [Hlookup Hframe].
  fold (cleanup_prev_status is_session_valid self) in Hlookup, Hframe.
  assert (∀ sid, prev_status (cleanup_prev_status is_session_valid self) !! sid
                 = if is_session_valid sid then prev_status self !! sid else None)
    as Hspec.
  { intros sid. rewrite Hlookup.
    destruct (is_session_valid sid); simpl; [by rewrite andb_false_r|].
    rewrite andb_true_r. case_bool_decide as Hin; [done|].
    destruct (prev_status self !! sid) as [prev|] eqn:Hprev; [|done].
    exfalso. apply Hin, list_elem_of_fmap. exists (sid, prev). split; [done|].
    by apply elem_of_map_to_list. }
  split; [done|]. split; [done|].
  intros sid keys update all_keys status_dict after Hvalid.
  unfold get_status.
  set (cleaned := cleanup_prev_status is_session_valid self) in *.
  set (self1 := if update then update_status (h_status (handle cleaned)) cleaned
                else cleaned).
  set (keys1 := if all_keys then (map_to_list status_funcs).*1 else keys).
  assert (prev_status self1 = prev_status cleaned) as Hself1.
  { unfold self1. by destruct update. }
  pose proof (fill_status_dict_keeps_baselines keys1 ∅ self1) as Hkeep.
  destruct (fill_status_dict status_funcs keys1 ∅ self1) as [[e|filled] self2];
    simpl in *; [done|].
  intros [= -> ->].
  by rewrite Hkeep, Hself1, Hspec, Hvalid.
Qed.

End Expiry.

End StatusCacheFrame.

(** A differential call of session 1 for a key the example registry does
    not have: it raises and session 2 keeps its baseline. *)
Lemma get_status_touches_own_baseline_witness :
  (get_status example_status_funcs scalar_ne 1 ["state"; "colour"] true false false
     (with_prev_status {[ 2%Z := ∅ ]} example_torrent)).1
  = inl (KeyError "colour")
  ∧ prev_status
      (get_status example_status_funcs scalar_ne 1 ["state"; "colour"] true false false
         (with_prev_status {[ 2%Z := ∅ ]} example_torrent)).2
    = {[ 2%Z := ∅ ]}.
Proof.
  split; [by vm_compute|].
  pose proof (get_status_touches_own_baseline example_status_funcs scalar_ne
                example_accessors_keep_baselines 1 ["state"; "colour"] true false false
                (with_prev_status {[ 2%Z := ∅ ]} example_torrent) _ _
                (surjective_pairing _)) as (_ & _ & Hraised & _).
  by apply (Hraised (KeyError "colour")).
Defined.

(** Session 1 has a baseline and is no longer valid: after the cleanup its
    differential call returns the full status. *)
Lemma cleanup_prev_status_expires_witness :
  prev_status
    (cleanup_prev_status (λ sid, bool_decide (sid = 2%Z))
       (with_prev_status {[ 1%Z := {[ "state" := VStr "Seeding" ]}; 2%Z := ∅ ]}
          example_torrent)) !! 1%Z = None
  ∧ (get_status example_status_funcs scalar_ne 1 ["state"] true false false
       (cleanup_prev_status (λ sid, bool_decide (sid = 2%Z))
          (with_prev_status {[ 1%Z := {[ "state" := VStr "Seeding" ]}; 2%Z := ∅ ]}
             example_torrent))).1
    = inr {[ "state" := VStr "Seeding" ]}.
Proof.
  pose proof (cleanup_prev_status_expires example_status_funcs scalar_ne
                example_accessors_keep_baselines (λ sid, bool_decide (sid = 2%Z))
                (with_prev_status {[ 1%Z := {[ "state" := VStr "Seeding" ]}; 2%Z := ∅ ]}
                   example_torrent)) as (Hlookup & _ & Hfull).
  split; [exact (Hlookup 1%Z)|].
  apply (Hfull 1%Z ["state"] false false {[ "state" := VStr "Seeding" ]}
           (cleanup_prev_status (λ sid, bool_decide (sid = 2%Z))
              (with_prev_status {[ 1%Z := {[ "state" := VStr "Seeding" ]}; 2%Z := ∅ ]}
                 example_torrent))); [done|].
  by vm_compute.
Defined.

(** ** The tracker host cache *)

Lemma join_two_nonempty (sep : string) (l : list string) :
  sep ≠ "" → 2 ≤ length l → Py.join sep l ≠ "".
Proof.
  intros Hsep Hlen. destruct l as [|x [|y l]]; simpl in Hlen; try lia.
  unfold Py.join. simpl. destruct x; simpl; [|done].
  destruct sep; simpl; [done|done].
Qed.

Lemma last_n_length {A} (n : nat) (l : list A) :
  n ≤ length l → length (Py.last_n n l) = n.
Proof. intros Hn. unfold Py.last_n. rewrite length_skipn. lia. Qed.

(** X6: once [get_tracker_host] has derived a host name it answers from the
    cache: the name is not empty, it is stored, and every later call on a
    torrent that still holds it returns it unchanged without looking at
    the tracker address again, whatever the current tracker has become. *)
Theorem get_tracker_host_cache_sticks
    (url_hostname : string → result (option string)) (inet_aton : string → bool)
    (self : Torrent) (h : string) :
  tracker_host self = None ∨ tracker_host self = Some "" →
  announce_url self ≠ "" →
  url_hostname (Py.replace "udp://" "http://" (announce_url self)) = inr (Some h) →
  h ≠ "" →
  inet_aton h = false →
  ∃ host,
    host ≠ ""
    ∧ get_tracker_host url_hostname inet_aton self
      = (inr (Some host), with_tracker_host (Some host) self)
    ∧ ∀ url_hostname' inet_aton' later,
        tracker_host later = Some host →
        get_tracker_host url_hostname' inet_aton' later = (inr (Some host), later).
Proof.
  intros Hcache Hurl Hparse Hh Hip.
  rewrite (get_tracker_host_uncached url_hostname inet_aton self h Hcache Hurl Hparse Hh).
  rewrite Hip. cbn zeta.
  set (host := if (2 <? length (Py.split "." h))%nat then _ else h).
  assert (host ≠ "") as Hhost.
  { unfold host. destruct (2 <? length (Py.split "." h))%nat eqn:Hlen; [|done].
    apply Nat.ltb_lt in Hlen.
    destruct (_ || _); apply join_two_nonempty; try done;
      rewrite last_n_length; lia. }
  exists host. split; [done|]. split; [done|].
  intros url_hostname' inet_aton' later Hlater.
  unfold get_tracker_host. rewrite Hlater.
  apply String.eqb_neq in Hhost. by rewrite Hhost.
Qed.

(** The example torrent, whose tracker is [tracker.example.co.uk]: the
    cached name survives a change of the current tracker. *)
Lemma get_tracker_host_cache_sticks_witness :
  ∃ host,
    host ≠ ""
    ∧ get_tracker_host Lib.url_hostname Lib.inet_aton example_torrent
      = (inr (Some host), with_tracker_host (Some host) example_torrent)
    ∧ get_tracker_host Lib.url_hostname Lib.inet_aton
        (with_status (status_with_current_tracker "http://other.org/announce"
                        example_status)
           (with_tracker_host (Some host) example_torrent))
      = (inr (Some host),
         with_status (status_with_current_tracker "http://other.org/announce"
                        example_status)
           (with_tracker_host (Some host) example_torrent)).
Proof.
  destruct (get_tracker_host_cache_sticks Lib.url_hostname Lib.inet_aton
              example_torrent "tracker.example.co.uk")
    as (host & Hhost & Hrun & Hlater);
    [by left | by vm_compute | by vm_compute | done | by vm_compute |].
  exists host. split; [done|]. split; [done|]. by apply Hlater.
Defined.

(** ** The ETA of an unfinished torrent *)

(** X7: for a torrent that is not finished [get_eta] never raises and
    returns an integer; it is 0 when nothing is left or nothing is
    downloaded, and for a positive rate it is the whole number of seconds
    the remaining bytes take: never negative, and rounded down. *)
Theorem get_eta_unfinished (self : Torrent) :
  is_finished self = false →
  ∃ eta : Z,
    get_eta self = inr (VInt eta)
    ∧ let left := (st_total_wanted (status self)
                   - st_total_wanted_done (status self))%Z in
      let rate := st_download_payload_rate (status self) in
      ((left ≤ 0 ∨ rate = 0)%Z → eta = 0%Z)
      ∧ ((0 < left)%Z → (0 < rate)%Z →
         (0 ≤ eta ∧ eta * rate ≤ left < (eta + 1) * rate)%Z).
Proof.
  intros Hfin. unfold get_eta. rewrite Hfin. cbn [bind ret].
  set (left := (st_total_wanted (status self) - st_total_wanted_done (status self))%Z).
  set (rate := st_download_payload_rate (status self)).
  destruct ((left <=? 0)%Z || (rate =? 0)%Z) eqn:Hzero.
  - exists 0%Z. split; [done|]. cbn zeta. split; [done|].
    intros Hleft Hrate. apply orb_true_iff in Hzero as [H|H]; lia.
  - apply orb_false_iff in Hzero as [Hleft Hrate].
    apply Z.leb_gt in Hleft. apply Z.eqb_neq in Hrate.
    pose proof (py_div_nonzero_int (NInt left) rate Hrate) as Hdiv.
    cbn [of_num num_quot] in Hdiv. rewrite Hdiv.
    exists (left / rate)%Z. split; [done|]. cbn zeta. split; [lia|].
    intros _ Hpos. split; [apply Z.div_pos; lia|].
    pose proof (Z.mul_div_le left rate Hpos).
    pose proof (Z.mul_succ_div_gt left rate Hpos). lia.
Qed.

(** 1000 bytes left at 300 bytes a second: 3 seconds. *)
Lemma get_eta_unfinished_witness :
  ∃ eta : Z,
    get_eta
      (with_status
         {| st_state := 3; st_paused := false; st_auto_managed := true;
            st_error := ""; st_upload_payload_rate := 0;
            st_download_payload_rate := 300; st_all_time_download := 0;
            st_all_time_upload := 0; st_total_wanted := 1500;
            st_total_wanted_done := 500; st_current_tracker := "";
            st_pieces := [] |}
         {| torrent_id := "t"; options := ∅; handle := example_handle;
            status := example_status; torrent_info := example_info;
            has_metadata := true; is_finished := false; state := "Downloading";
            statusmsg := "OK"; trackers := []; tracker_host := None;
            prev_status := ∅; waiting_on_folder_rename := [] |})
    = inr (VInt eta)
    ∧ eta = 3%Z.
Proof.
  destruct (get_eta_unfinished
              (with_status
                 {| st_state := 3; st_paused := false; st_auto_managed := true;
                    st_error := ""; st_upload_payload_rate := 0;
                    st_download_payload_rate := 300; st_all_time_download := 0;
                    st_all_time_upload := 0; st_total_wanted := 1500;
                    st_total_wanted_done := 500; st_current_tracker := "";
                    st_pieces := [] |}
                 {| torrent_id := "t"; options := ∅; handle := example_handle;
                    status := example_status; torrent_info := example_info;
                    has_metadata := true; is_finished := false; state := "Downloading";
                    statusmsg := "OK"; trackers := []; tracker_host := None;
                    prev_status := ∅; waiting_on_folder_rename := [] |}))
    as (eta & Hrun & _ & Hbounds); [done|].
  exists eta. split; [done|]. simpl in Hbounds. lia.
Defined.

(** ** [set_options]: keys that are no options, keys without a setter *)

Section SetOptionsPlain.

Variable getattr_set : string → option (Value → method unit).
Variable dict_items : gmap string Value → list (string * Value).

Hypothesis dict_items_perm : ∀ m, dict_items m ≡ₚ map_to_list m.

Lemma dict_items_lookup (m : gmap string Value) (k : string) (v : Value) :
  (k, v) ∈ dict_items m ↔ m !! k = Some v.
Proof. by rewrite dict_items_perm, elem_of_map_to_list. Qed.

Lemma dict_items_to_map (m : gmap string Value) :
  NoDup (dict_items m).*1 ∧ list_to_map (dict_items m) = m.
Proof.
  assert (NoDup (dict_items m).*1) as Hnodup.
  { rewrite dict_items_perm. apply NoDup_fst_map_to_list. }
  split; [done|].
  rewrite (list_to_map_proper (dict_items m) (map_to_list m) Hnodup (dict_items_perm m)).
  apply list_to_map_to_list.
Qed.

Lemma set_options_loop_unknown (items : list (string * Value))
    (skip_func : list string) (d : gmap string Value) (self : Torrent) :
  (∀ k v, (k, v) ∈ items → k ∉ dom (options self)) →
  set_options_loop getattr_set items skip_func d self = (inr tt, self, d).
Proof.
  induction items as [|[k v] items IH]; intros Hunknown; simpl; [done|].
  rewrite bool_decide_eq_false_2 by (eapply Hunknown; left).
  apply IH. intros k' v' Hin. eapply Hunknown. by right.
Qed.

(** X8: [set_options] ignores what is no option: an update that holds only
    keys the torrent does not have as options returns normally and leaves
    the torrent and the caller's dictionary exactly as they were; no setter
    runs. *)
Theorem set_options_ignores_unknown_keys (u : gmap string Value) (self : Torrent) :
  default_option_keys ⊆ dom (options self) →
  (∀ k, k ∈ dom u → k ∉ dom (options self)) →
  set_options getattr_set dict_items (CallerDict u) self = (inr tt, self, u).
Proof.
  intros Hdefault Hunknown. unfold set_options.
  rewrite bool_decide_eq_false_2.
  - apply set_options_loop_unknown. intros k v Hin.
    apply Hunknown, elem_of_dom. exists v. by apply dict_items_lookup.
  - intros Hin. apply (Hunknown _ Hin), Hdefault.
    apply (bool_decide_unpack _). by vm_compute.
Qed.

Lemma set_options_loop_plain (items : list (string * Value)) (skip_func : list string) :
  ∀ (d : gmap string Value) (self : Torrent),
    NoDup items.*1 →
    (∀ k v, (k, v) ∈ items → getattr_set k = None) →
    ∃ o' : gmap string Value,
      set_options_loop getattr_set items skip_func d self
      = (inr tt, with_options o' self, d)
      ∧ ∀ k, o' !! k
             = match options self !! k with
               | Some old =>
                   Some (default old ((list_to_map items : gmap string Value) !! k))
               | None => None
               end.
Proof.
  induction items as [|[k0 v0] items IH]; intros d self Hnodup Hplain.
  { exists (options self). split; [by destruct self|].
    intros k. simpl. rewrite lookup_empty. by destruct (options self !! k). }
  simpl in Hnodup. apply NoDup_cons in Hnodup as [Hk0 Hnodup].
  assert ((list_to_map items : gmap string Value) !! k0 = None) as Hfresh.
  { by apply not_elem_of_list_to_map_1. }
  assert (∀ k v, (k, v) ∈ items → getattr_set k = None) as Hplain'.
  { intros k v Hin. eapply Hplain. by right. }
  simpl. rewrite (Hplain k0 v0) by left.
  case_bool_decide as Hin.
  - destruct (IH d (store_option k0 v0 self) Hnodup Hplain') as (o' & Hrun & Ho').
    exists o'. split; [by rewrite Hrun|].
    intros k. rewrite Ho'. simpl.
    apply elem_of_dom in Hin as [old Hold].
    destruct (decide (k = k0)) as [->|Hne].
    + by rewrite !lookup_insert_eq, Hold, Hfresh.
    + by rewrite !lookup_insert_ne.
  - destruct (IH d self Hnodup Hplain') as (o' & Hrun & Ho').
    exists o'. split; [done|].
    intros k. rewrite Ho'.
    destruct (decide (k = k0)) as [->|Hne].
    + apply not_elem_of_dom in Hin. by rewrite Hin.
    + by rewrite lookup_insert_ne.
Qed.

(** X9: options without a setter are stored as given.  When no key of the
    update has a setter, [set_options] returns normally, deletes nothing
    from the caller's dictionary and changes only [options]: every option
    the update names takes the update's value, every other option keeps its
    value, and no key is added. *)
Theorem set_options_stores_plain_keys (u : gmap string Value) (self : Torrent) :
  default_option_keys ⊆ dom (options self) →
  (∀ k, k ∈ dom u → getattr_set k = None) →
  ("file_priorities" ∈ dom u → "prioritize_first_last_pieces" ∈ dom u) →
  ∃ o' : gmap string Value,
    set_options getattr_set dict_items (CallerDict u) self
    = (inr tt, with_options o' self, u)
    ∧ ∀ k, o' !! k = match options self !! k with
                     | Some old => Some (default old (u !! k))
                     | None => None
                     end.
Proof.
  intros Hdefault Hplain Hflag. unfold set_options.
  destruct (dict_items_to_map u) as [Hnodup Hmap].
  assert (∀ k v, (k, v) ∈ dict_items u → getattr_set k = None) as Hplain'.
  { intros k v Hin. apply Hplain, elem_of_dom. exists v. by apply dict_items_lookup. }
  case_bool_decide as Hfp.
  - apply Hflag, elem_of_dom in Hfp as [flag Hfl].
    unfold getitem. rewrite Hfl. cbn [ret].
    destruct (set_options_loop_plain (dict_items u) ["prioritize_first_last_pieces"] u
                (store_option "prioritize_first_last_pieces" flag self) Hnodup Hplain')
      as (o' & Hrun & Ho').
    exists o'. split; [by rewrite Hrun|].
    intros k. rewrite Ho', Hmap. simpl.
    destruct (decide (k = "prioritize_first_last_pieces")) as [->|Hne].
    + rewrite lookup_insert_eq, Hfl.
      assert ("prioritize_first_last_pieces" ∈ dom (options self)) as Hin.
      { apply Hdefault. apply (bool_decide_unpack _). by vm_compute. }
      apply elem_of_dom in Hin as [old Hold]. by rewrite Hold.
    + by rewrite lookup_insert_ne.
  - destruct (set_options_loop_plain (dict_items u) [] u self Hnodup Hplain')
      as (o' & Hrun & Ho').
    exists o'. split; [done|]. intros k. by rewrite Ho', Hmap.
Qed.

End SetOptionsPlain.

(** An update with a key that is no option. *)
Lemma set_options_ignores_unknown_keys_witness :
  set_options store_only_setters map_to_list
    (CallerDict {[ "colour" := VInt 1 ]}) example_torrent
  = (inr tt, example_torrent, {[ "colour" := VInt 1 ]}).
Proof.
  apply set_options_ignores_unknown_keys.
  - done.
  - apply example_options_default.
  - intros k Hk. rewrite dom_singleton_L in Hk. apply elem_of_singleton in Hk as ->.
    apply (bool_decide_unpack _). by vm_compute.
Defined.

(** An update of two options without a setter. *)
Lemma set_options_stores_plain_keys_witness :
  ∃ o' : gmap string Value,
    set_options store_only_setters map_to_list
      (CallerDict {[ "shared" := VBool true; "name" := VStr "iso" ]}) example_torrent
    = (inr tt, with_options o' example_torrent,
       {[ "shared" := VBool true; "name" := VStr "iso" ]})
    ∧ o' !! "shared" = Some (VBool true)
    ∧ o' !! "name" = Some (VStr "iso")
    ∧ o' !! "priority" = Some (VInt 0)
    ∧ o' !! "colour" = None.
Proof.
  destruct (set_options_stores_plain_keys store_only_setters map_to_list
              (λ m, reflexivity (map_to_list m))
              {[ "shared" := VBool true; "name" := VStr "iso" ]} example_torrent)
    as (o' & Hrun & Ho').
  - apply example_options_default.
  - intros k Hk. rewrite dom_insert_L, dom_singleton_L in Hk.
    apply elem_of_union in Hk as [Hk|Hk]; apply elem_of_singleton in Hk as ->; done.
  - intros Hin. exfalso. revert Hin. apply (bool_decide_unpack _). by vm_compute.
  - exists o'. split; [exact Hrun|]. rewrite !Ho'. clear Hrun Ho'. vm_compute. repeat split.
Defined.

(** ** [TorrentOptions] *)

Lemma TorrentOptions_fill_spec (config : gmap string Value)
    (items : list (string * string)) :
  ∀ self : gmap string Value,
    NoDup items.*1 →
    (∀ conf_k, conf_k ∈ items.*2 → is_Some (config !! conf_k)) →
    ∃ filled,
      TorrentOptions_fill items config self = inr filled
      ∧ ∀ k, filled !! k
             = match (list_to_map items : gmap string string) !! k with
               | Some conf_k => config !! conf_k
               | None => self !! k
               end.
Proof.
  induction items as [|[opt_k conf_k] items IH]; intros self Hnodup Hconf.
  { exists self. split; [done|]. intros k. simpl. by rewrite lookup_empty. }
  simpl in Hnodup. apply NoDup_cons in Hnodup as [Hfresh Hnodup].
  destruct (Hconf conf_k) as [v Hv]; [simpl; left|].
  destruct (IH (<[opt_k := v]> self) Hnodup) as (filled & Hrun & Hfilled).
  { intros c Hc. apply Hconf. simpl. by right. }
  exists filled. simpl. unfold getitem. rewrite Hv. cbn [ret bind].
  split; [done|]. intros k. rewrite Hfilled.
  destruct (decide (k = opt_k)) as [->|Hne].
  - rewrite lookup_insert_eq.
    rewrite (not_elem_of_list_to_map_1 (M := gmap string) items opt_k Hfresh).
    by rewrite lookup_insert_eq.
  - by rewrite !(lookup_insert_ne _ opt_k k).
Qed.

Lemma TorrentOptions_fill_missing (config : gmap string Value)
    (items : list (string * string)) :
  ∀ (self : gmap string Value) (conf_k : string),
    conf_k ∈ items.*2 → config !! conf_k = None →
    ∃ missing, TorrentOptions_fill items config self = inl (KeyError missing)
               ∧ missing ∈ items.*2 ∧ config !! missing = None.
Proof.
  induction items as [|[opt_k c] items IH]; intros self conf_k Hin Hnone.
  { by apply elem_of_nil in Hin. }
  simpl. unfold getitem. destruct (config !! c) as [v|] eqn:Hc; cbn [ret raise bind].
  - simpl in Hin. apply elem_of_cons in Hin as [->|Hin]; [congruence|].
    destruct (IH (<[opt_k := v]> self) conf_k Hin Hnone) as (missing & Hrun & Hm & Hmn).
    exists missing. split; [done|]. split; [by right|done].
  - exists c. split; [done|]. split; [by left|done].
Qed.

(** X10: [TorrentOptions()] establishes the option keys.  When the
    configuration has the eighteen keys the constructor reads, the new
    dictionary has exactly the twenty-two default keys: each mapped option
    holds the value of its configuration key, [file_priorities] is an empty
    list, [mapped_files] an empty dictionary, [owner] and [name] are
    [None]; updating it with the caller's options, as [Torrent.__init__]
    does, keeps every default key.  When a configuration key is missing the
    constructor raises [KeyError] for a missing key. *)
Theorem TorrentOptions_init_keys (iteritems : list (string * string))
    (config : gmap string Value) :
  iteritems ≡ₚ options_conf_map →
  ((∀ conf_k, conf_k ∈ options_conf_map.*2 → is_Some (config !! conf_k)) →
   ∃ self,
     TorrentOptions_init iteritems config = inr self
     ∧ dom self = default_option_keys
     ∧ (∀ opt_k conf_k, (opt_k, conf_k) ∈ options_conf_map →
          self !! opt_k = config !! conf_k)
     ∧ self !! "file_priorities" = Some (VList [])
     ∧ self !! "mapped_files" = Some (VDict [])
     ∧ self !! "owner" = Some VNone
     ∧ self !! "name" = Some VNone
     ∧ ∀ user : gmap string Value, default_option_keys ⊆ dom (user ∪ self))
  ∧ (∀ conf_k, conf_k ∈ options_conf_map.*2 → config !! conf_k = None →
     ∃ missing,
       TorrentOptions_init iteritems config = inl (KeyError missing)
       ∧ missing ∈ options_conf_map.*2 ∧ config !! missing = None).
Proof.
  intros Hperm.
  assert (NoDup options_conf_map.*1) as Hnodup0.
  { apply (bool_decide_unpack _). by vm_compute. }
  assert (NoDup iteritems.*1) as Hnodup by (by rewrite Hperm).
  assert ((list_to_map iteritems : gmap string string) = list_to_map options_conf_map)
    as Hmap by (by apply list_to_map_proper).
  split.
  - intros Hconf.
    destruct (TorrentOptions_fill_spec config iteritems ∅ Hnodup) as (filled & Hrun & Hf).
    { intros c Hc. apply Hconf. by rewrite <- Hperm. }
    unfold TorrentOptions_init. rewrite Hrun. cbn [bind ret].
    eexists. split; [done|].
    assert (dom filled = list_to_set options_conf_map.*1) as Hdom.
    { apply set_eq. intros k. rewrite elem_of_dom, Hf, Hmap, lookup_empty.
      rewrite elem_of_list_to_set.
      destruct ((list_to_map options_conf_map : gmap string string) !! k)
        as [c|] eqn:Hk.
      - apply elem_of_list_to_map in Hk; [|done].
        split; [intros _|intros _].
        + apply list_elem_of_fmap. by exists (k, c).
        + apply Hconf. apply list_elem_of_fmap. by exists (k, c).
      - split; [by intros [? ?]|].
        intros Hin. apply not_elem_of_list_to_map in Hk. done. }
    assert (dom (<["name" := VNone]> (<["owner" := VNone]>
              (<["mapped_files" := VDict []]>
                 (<["file_priorities" := VList []]> filled))))
            = default_option_keys) as Hkeys.
    { rewrite !dom_insert_L, Hdom. apply (bool_decide_unpack _). by vm_compute. }
    split; [exact Hkeys|].
    split; [|repeat split;
             rewrite ?lookup_insert_eq, ?lookup_insert_ne by discriminate;
             rewrite ?lookup_insert_eq; try reflexivity].
    + intros opt_k conf_k Hin.
      assert ((list_to_map options_conf_map : gmap string string) !! opt_k = Some conf_k)
        as Hk by (by apply elem_of_list_to_map).
      assert ("name" ≠ opt_k ∧ "owner" ≠ opt_k ∧ "mapped_files" ≠ opt_k
              ∧ "file_priorities" ≠ opt_k) as (Hn & Ho & Hm & Hp).
      { clear -Hk. repeat split; intros <-; vm_compute in Hk; discriminate. }
      rewrite !lookup_insert_ne by assumption.
      rewrite Hf, Hmap, Hk. reflexivity.
    + intros user. rewrite dom_union_L, Hkeys. apply union_subseteq_r.
  - intros conf_k Hin Hnone.
    destruct (TorrentOptions_fill_missing config iteritems ∅ conf_k)
      as (missing & Hrun & Hm & Hmn); [by rewrite Hperm|done|].
    exists missing. unfold TorrentOptions_init. rewrite Hrun.
    split; [done|]. split; [by rewrite <- Hperm|done].
Qed.

(** The example configuration, read in the order of the literal. *)
Lemma TorrentOptions_init_keys_witness :
  ∃ self,
    TorrentOptions_init options_conf_map example_config = inr self
    ∧ dom self = default_option_keys
    ∧ self !! "stop_ratio" = Some (VFloat 2)
    ∧ self !! "file_priorities" = Some (VList []).
Proof.
  destruct (TorrentOptions_init_keys options_conf_map example_config)
    as [Hok _]; [done|].
  destruct Hok as (self & Hrun & Hdom & Hmapped & Hfp & _).
  { apply Forall_forall. apply (bool_decide_unpack _). by vm_compute. }
  exists self. split; [exact Hrun|]. split; [exact Hdom|]. split; [|exact Hfp].
  rewrite (Hmapped "stop_ratio" "stop_seed_ratio"); [reflexivity|].
  apply (bool_decide_unpack _). by vm_compute.
Defined.

(** ** The piece planner, applied twice *)

Lemma set_prioritize_first_last_pieces_lookup
    (set_file_priorities : Value → method unit) (self : Torrent) (j : nat) :
  h_piece_priorities
    (handle (set_prioritize_first_last_pieces set_file_priorities
               (VBool true) self).2) !! j
  = boosted (in_ranges j (computed_ranges self))
      <$> h_piece_priorities (handle self) !! j.
Proof.
  unfold set_prioritize_first_last_pieces, computed_ranges, getitem. simpl.
  destruct (has_metadata self); simpl.
  2:{ by destruct (h_piece_priorities (handle self) !! j). }
  rewrite lookup_insert_ne by discriminate.
  destruct (options self !! "compact_allocation") as [compact|]; simpl.
  2:{ by destruct (h_piece_priorities (handle self) !! j). }
  destruct (truthy compact); simpl.
  { by destruct (h_piece_priorities (handle self) !! j). }
  pose proof (prioritize_files_from_spec (torrent_info self)
                (ti_files (torrent_info self)) 0 []
                (h_piece_priorities (handle self))) as [_ Hprio].
  destruct (prioritize_files_from _ _ _ _ _) as [ranges priorities].
  simpl in *. apply Hprio.
Qed.

Lemma set_prioritize_first_last_pieces_ranges
    (set_file_priorities : Value → method unit) (self : Torrent) :
  computed_ranges
    (set_prioritize_first_last_pieces set_file_priorities (VBool true) self).2
  = computed_ranges self.
Proof.
  unfold set_prioritize_first_last_pieces, computed_ranges, getitem. simpl.
  destruct (has_metadata self) eqn:Hmeta; simpl; [|by rewrite Hmeta].
  rewrite lookup_insert_ne by discriminate.
  destruct (options self !! "compact_allocation") as [compact|] eqn:Hcompact; simpl.
  2:{ rewrite Hmeta. simpl. rewrite lookup_insert_ne by discriminate.
      by rewrite Hcompact. }
  destruct (truthy compact) eqn:Htruthy; simpl.
  { rewrite Hmeta. simpl. rewrite lookup_insert_ne by discriminate.
    rewrite Hcompact. simpl. by rewrite Htruthy. }
  destruct (prioritize_files_from _ _ _ _ _) as [ranges priorities]. simpl.
  rewrite Hmeta. simpl. rewrite lookup_insert_ne by discriminate.
  rewrite Hcompact. simpl. by rewrite Htruthy.
Qed.

(** X11: switching the first/last option on is idempotent and never lowers
    a priority.  A second call with [True] leaves the piece priorities
    exactly as the first call left them; a call keeps the number of
    priorities, and a priority between 0 and 7 ends between its old value
    and 7. *)
Theorem prioritize_first_last_idempotent
    (set_file_priorities : Value → method unit) (self : Torrent) :
  h_piece_priorities
    (handle (set_prioritize_first_last_pieces set_file_priorities (VBool true)
               (set_prioritize_first_last_pieces set_file_priorities
                  (VBool true) self).2).2)
  = h_piece_priorities
      (handle (set_prioritize_first_last_pieces set_file_priorities
                 (VBool true) self).2)
  ∧ length (h_piece_priorities
              (handle (set_prioritize_first_last_pieces set_file_priorities
                         (VBool true) self).2))
    = length (h_piece_priorities (handle self))
  ∧ ∀ j p q,
      h_piece_priorities (handle self) !! j = Some p →
      h_piece_priorities
        (handle (set_prioritize_first_last_pieces set_file_priorities
                   (VBool true) self).2) !! j = Some q →
      (0 ≤ p ≤ 7)%Z → (p ≤ q ≤ 7)%Z.
Proof.
  split; [|split].
  - apply list_eq. intros j.
    rewrite set_prioritize_first_last_pieces_lookup.
    rewrite set_prioritize_first_last_pieces_ranges.
    rewrite set_prioritize_first_last_pieces_lookup.
    destruct (h_piece_priorities (handle self) !! j) as [p|]; simpl; [|done].
    by rewrite boosted_compose, orb_diag.
  - apply Nat.le_antisymm.
    + apply Nat.nlt_ge. intros Hlt.
      destruct (lookup_lt_is_Some_2 _ _ Hlt) as [q Hq].
      rewrite set_prioritize_first_last_pieces_lookup in Hq.
      rewrite lookup_ge_None_2 in Hq by lia. done.
    + apply Nat.nlt_ge. intros Hlt.
      destruct (lookup_lt_is_Some_2 _ _ Hlt) as [p Hp].
      pose proof (set_prioritize_first_last_pieces_lookup set_file_priorities self
                    (length (h_piece_priorities
                               (handle (set_prioritize_first_last_pieces
                                          set_file_priorities (VBool true) self).2))))
        as Hlook.
      rewrite Hp, lookup_ge_None_2 in Hlook by lia. done.
  - intros j p q Hp Hq Hrange.
    rewrite set_prioritize_first_last_pieces_lookup, Hp in Hq.
    injection Hq as <-. unfold boosted.
    destruct (_ && _); lia.
Qed.

(** ** The piece view: its length, its failure *)

Lemma classify_rest_dom (availability : list Z) (have : list bool) :
  ∀ (idx : nat) (pieces pieces' : gmap Z Z),
    classify_rest availability idx have pieces = inr pieces' →
    dom pieces' = dom pieces ∪ list_to_set (Z.of_nat <$> seq idx (length have))
    ∧ ∀ k v, pieces' !! k = Some v →
             pieces !! k = Some v ∨ (v = 0 ∨ v = 1 ∨ v = 3)%Z.
Proof.
  induction have as [|piece have IH]; intros idx pieces pieces' Hrun; simpl in *.
  { injection Hrun as <-. split; [set_solver|]. auto. }
  assert (∀ v, classify_rest availability (S idx) have (<[Z.of_nat idx := v]> pieces)
               = inr pieces' →
               (v = 0 ∨ v = 1 ∨ v = 3)%Z →
               dom pieces' = dom pieces ∪ ({[Z.of_nat idx]} ∪
                               list_to_set (Z.of_nat <$> seq (S idx) (length have)))
               ∧ ∀ k w, pieces' !! k = Some w →
                        pieces !! k = Some w ∨ (w = 0 ∨ w = 1 ∨ w = 3)%Z) as Hins.
  { intros v Hv Hclass. apply IH in Hv as [Hdom Hval]. split.
    - rewrite Hdom, dom_insert_L. set_solver.
    - intros k w Hk. apply Hval in Hk as [Hk|Hk]; [|by right].
      destruct (decide (k = Z.of_nat idx)) as [->|Hne].
      + rewrite lookup_insert_eq in Hk. injection Hk as <-. by right.
      + rewrite lookup_insert_ne in Hk by done. by left. }
  case_bool_decide as Hin.
  - apply IH in Hrun as [Hdom Hval]. split; [|done].
    rewrite Hdom. set_solver.
  - destruct piece; [apply Hins in Hrun; [done|auto]|].
    destruct (availability !! idx) as [avail|]; [|done].
    destruct (0 <? avail)%Z; apply Hins in Hrun; auto.
Qed.

Lemma classify_rest_short (availability : list Z) (have : list bool) :
  ∀ (idx : nat) (pieces : gmap Z Z) (j : nat),
    have !! j = Some false →
    Z.of_nat (idx + j) ∉ dom pieces →
    availability !! (idx + j) = None →
    classify_rest availability idx have pieces = inl IndexError.
Proof.
  induction have as [|piece have IH]; intros idx pieces j Hj Hout Hshort; [done|].
  destruct j as [|j]; simpl in *.
  - injection Hj as ->. rewrite Nat.add_0_r in Hout, Hshort.
    rewrite bool_decide_eq_false_2 by done. by rewrite Hshort.
  - replace (idx + S j) with (S idx + j) in Hout, Hshort by lia.
    assert (∀ v, Z.of_nat (S idx + j) ∉ dom (<[Z.of_nat idx := v]> pieces)) as Hout'.
    { intros v. rewrite dom_insert_L. 
      intros [Heq|Hin]%elem_of_union; [|done].
      apply elem_of_singleton in Heq. lia. }
    case_bool_decide; [by eapply IH|].
    destruct piece; [by eapply IH|].
    destruct (availability !! idx) as [avail|]; [|done].
    destruct (0 <? avail)%Z; by eapply IH.
Qed.

Lemma omap_length_defined {A B} (f : A → option B) (l : list A) :
  (∀ y, y ∈ l → is_Some (f y)) → length (omap f l) = length l.
Proof.
  induction l as [|x l IH]; intros Hdef; simpl; [done|].
  destruct (Hdef x) as [v Hv]; [left|]. rewrite Hv. simpl.
  f_equal. apply IH. intros y Hy. apply Hdef. by right.
Qed.

Lemma omap_elem_of {A B} (f : A → option B) (l : list A) (v : B) :
  v ∈ omap f l → ∃ x, x ∈ l ∧ f x = Some v.
Proof. rewrite list_elem_of_omap. naive_solver. Qed.

Lemma size_piece_indices (n : nat) :
  size (list_to_set (Z.of_nat <$> seq 0 n) : gset Z) = n.
Proof.
  rewrite size_list_to_set.
  - by rewrite length_fmap, length_seq.
  - apply NoDup_fmap; [apply Nat2Z.inj'|apply NoDup_seq].
Qed.

(** X12: the length of the piece view.  When [_get_pieces_info] returns a
    list, every entry is one of 0, 1, 2, 3 and the list has at least one
    entry per piece; it has exactly one entry per piece if and only if
    every peer's [downloading_piece_index] is below the number of pieces.
    A peer that reports an index beyond the last piece adds an entry, so
    positions no longer need to correspond to piece indices. *)
Theorem pieces_info_length (self : Torrent) (view : list Z) :
  _get_pieces_info self = inr (Some view) →
  (∀ v, v ∈ view → (0 ≤ v ≤ 3)%Z)
  ∧ length (st_pieces (status self)) ≤ length view
  ∧ (length view = length (st_pieces (status self)) ↔
     ∀ peer, peer ∈ h_peer_info (handle self) →
       (pi_downloading_piece_index peer
        < Z.of_nat (length (st_pieces (status self))))%Z).
Proof.
  unfold _get_pieces_info.
  destruct (has_metadata self); simpl; [|done].
  set (peers := h_peer_info (handle self)).
  set (n := length (st_pieces (status self))).
  destruct (classify_rest _ 0 _ _) as [e|pieces] eqn:Hrun; simpl; [done|].
  intros [= <-].
  apply classify_rest_dom in Hrun as [Hdom Hval]. fold n in Hdom.
  set (P := list_to_set (Z.of_nat <$> seq 0 n) : gset Z) in *.
  set (D := dom (downloading_pieces peers)) in *.
  assert (∀ y, y ∈ merge_sort Z.le (elements (dom pieces)) → is_Some (pieces !! y))
    as Hdef.
  { intros y. rewrite merge_sort_Permutation, elem_of_elements. apply elem_of_dom. }
  assert (∀ k, k ∈ D ↔ ∃ peer, peer ∈ peers ∧ (0 ≤ pi_downloading_piece_index peer)%Z
                               ∧ pi_downloading_piece_index peer = k) as HD.
  { intros k. unfold D. rewrite elem_of_dom, downloading_pieces_lookup.
    destruct (in_flight peers k) eqn:Hflight.
    - split; [intros _|by eauto].
      unfold in_flight in Hflight. apply existsb_exists in Hflight as (peer & Hin & Hp).
      apply andb_true_iff in Hp as [Hpos Heq].
      apply negb_true_iff, Z.ltb_ge in Hpos. apply Z.eqb_eq in Heq.
      exists peer. split; [by apply list_elem_of_In|done].
    - split; [by intros [? ?]|]. intros (peer & Hin & Hpos & Heq).
      exfalso. apply not_true_iff_false in Hflight. apply Hflight.
      unfold in_flight. apply existsb_exists. exists peer.
      split; [by apply list_elem_of_In|].
      apply andb_true_iff. split; [apply negb_true_iff, Z.ltb_ge; lia|].
      by apply Z.eqb_eq. }
  assert (∀ k, k ∈ P ↔ (0 ≤ k < Z.of_nat n)%Z) as HS.
  { intros k. unfold P. rewrite elem_of_list_to_set, list_elem_of_fmap.
    split.
    - intros (i & -> & Hi). apply elem_of_seq in Hi. lia.
    - intros Hk. exists (Z.to_nat k). split; [lia|]. apply elem_of_seq. lia. }
  assert (length (omap (λ idx, pieces !! idx) (merge_sort Z.le (elements (dom pieces))))
          = size (D ∪ P)) as Hlen.
  { rewrite omap_length_defined by done.
    rewrite merge_sort_Permutation. by rewrite Hdom. }
  assert (size (D ∪ P) = n + size (D ∖ P)) as Hsize.
  { rewrite (union_comm_L D P), size_union_alt.
    unfold P at 1. by rewrite size_piece_indices. }
  split; [|split].
  - intros v Hv. apply omap_elem_of in Hv as (k & _ & Hk).
    apply Hval in Hk as [Hk|Hk]; [|lia].
    rewrite downloading_pieces_lookup in Hk.
    destruct (in_flight peers k); [|done]. injection Hk as <-. lia.
  - rewrite Hlen, Hsize. lia.
  - rewrite Hlen, Hsize. split.
    + intros Hn peer Hpeer.
      assert (D ∖ P = ∅) as Hempty by (apply leibniz_equiv, size_empty_inv; lia).
      destruct (Z.lt_ge_cases (pi_downloading_piece_index peer) 0) as [Hneg|Hpos];
        [lia|].
      destruct (decide (pi_downloading_piece_index peer ∈ P)) as [Hin|Hout].
      * apply HS in Hin. lia.
      * exfalso. apply (not_elem_of_empty (C := gset Z) (pi_downloading_piece_index peer)).
        rewrite <- Hempty. apply elem_of_difference. split; [|done].
        apply HD. by exists peer.
    + intros Hpeers.
      assert (D ∖ P = ∅) as ->.
      { apply set_eq. intros k. rewrite elem_of_difference, HD, HS.
        split; [|by intros ?%not_elem_of_empty].
        intros [(peer & Hin & Hpos & <-) Hout]. exfalso. apply Hout.
        split; [done|]. by apply Hpeers. }
      rewrite size_empty. lia.
Qed.

(** The example has four pieces and no peer beyond them. *)
Lemma pieces_info_length_witness :
  length [2; 1; 2; 0]%Z = length (st_pieces (status example_torrent))
  ∧ ∀ peer, peer ∈ h_peer_info (handle example_torrent) →
      (pi_downloading_piece_index peer
       < Z.of_nat (length (st_pieces (status example_torrent))))%Z.
Proof.
  pose proof (pieces_info_length example_torrent [2; 1; 2; 0]%Z eq_refl)
    as (_ & _ & Hiff).
  split; [done|]. by apply Hiff.
Defined.

(** X13: a short availability list makes the piece view fail.  When some
    piece is incomplete, no peer has it in flight and the engine's
    availability list has no entry for it, [_get_pieces_info] raises
    [IndexError]. *)
Theorem pieces_info_short_availability (self : Torrent) (i : nat) :
  has_metadata self = true →
  st_pieces (status self) !! i = Some false →
  in_flight (h_peer_info (handle self)) (Z.of_nat i) = false →
  h_piece_availability (handle self) !! i = None →
  _get_pieces_info self = inl IndexError.
Proof.
  intros Hmeta Hpiece Hflight Hshort. unfold _get_pieces_info.
  rewrite Hmeta. simpl.
  rewrite (classify_rest_short _ _ 0 _ i); [done|done| |done].
  rewrite not_elem_of_dom, downloading_pieces_lookup. simpl. by rewrite Hflight.
Qed.

(** The example with an availability list of one entry: piece 1 is
    incomplete, not in flight and has no entry. *)
Lemma pieces_info_short_availability_witness :
  _get_pieces_info
    (with_handle
       {| h_status := example_status; h_piece_priorities := [];
          h_peer_info := h_peer_info example_handle;
          h_piece_availability := [0%Z]; h_calls := [] |}
       example_torrent)
  = inl IndexError.
Proof. by apply (pieces_info_short_availability _ 1). Defined.

(** ** Strings *)

Lemma has_char_cons (c a : ascii) (t : string) :
  Py.has_char c (String a t) = Ascii.eqb a c || Py.has_char c t.
Proof.
  unfold Py.has_char. simpl.
  destruct (Ascii.eqb a c); [done|]. by destruct (Py.find_char c t).
Qed.

Lemma append_cons (x : ascii) (a b : string) :
  String x a +:+ b = String x (a +:+ b).
Proof. done. Qed.

Lemma append_nil_l (b : string) : "" +:+ b = b.
Proof. done. Qed.

Lemma has_char_app (c : ascii) (a b : string) :
  Py.has_char c (a +:+ b) = Py.has_char c a || Py.has_char c b.
Proof.
  induction a as [|x a IH]; [done|].
  by rewrite append_cons, !has_char_cons, IH, orb_assoc.
Qed.

Lemma append_nil_r (s : string) : s +:+ "" = s.
Proof. induction s as [|x s IH]; [done|]. by rewrite append_cons, IH. Qed.

Lemma append_assoc (a b c : string) : (a +:+ b) +:+ c = a +:+ (b +:+ c).
Proof. induction a as [|x a IH]; [done|]. by rewrite !append_cons, IH. Qed.

Lemma rev_app_spec (a c : string) : String.rev_app a c = String.rev a +:+ c.
Proof.
  revert c. induction a as [|x a IH]; intros c; [done|].
  unfold String.rev. simpl. rewrite (IH (String x c)), (IH (String x "")).
  by rewrite append_assoc, append_cons, append_nil_l.
Qed.

Lemma rev_app_rev_app (a b c : string) :
  String.rev_app (String.rev_app a b) c = String.rev_app b (a +:+ c).
Proof.
  revert b c. induction a as [|x a IH]; intros b c; [done|].
  simpl. by rewrite IH, append_cons.
Qed.

Lemma rev_involutive (s : string) : String.rev (String.rev s) = s.
Proof. unfold String.rev. rewrite rev_app_rev_app. simpl. apply append_nil_r. Qed.

Lemma rev_append (a b : string) :
  String.rev (a +:+ b) = String.rev b +:+ String.rev a.
Proof.
  unfold String.rev at 1. revert b.
  assert (∀ c b, String.rev_app (a +:+ b) c = String.rev_app b (String.rev_app a c))
    as Hgen.
  { induction a as [|x a IH]; intros c b; [done|].
    rewrite append_cons. simpl. by rewrite IH. }
  intros b. rewrite Hgen. by rewrite rev_app_spec.
Qed.

Lemma has_char_rev (c : ascii) (s : string) :
  Py.has_char c (String.rev s) = Py.has_char c s.
Proof.
  induction s as [|x s IH]; [done|].
  change (String x s) with (String x "" +:+ s) at 1.
  rewrite rev_append, has_char_app, IH, has_char_cons.
  unfold String.rev. simpl. rewrite has_char_cons.
  change (Py.has_char c "") with false.
  by rewrite orb_false_r, orb_comm.
Qed.

(** *** [strip] *)

Lemma lstrip_idempotent (s : string) : Py.lstrip (Py.lstrip s) = Py.lstrip s.
Proof.
  induction s as [|x s IH]; [done|]. simpl.
  destruct (Py.is_space x) eqn:Hx; [done|]. simpl. by rewrite Hx.
Qed.

Lemma lstrip_split (s : string) : ∃ pre, s = pre +:+ Py.lstrip s.
Proof.
  induction s as [|x s [pre IH]]; [by exists ""|]. simpl.
  destruct (Py.is_space x).
  - exists (String x pre). by rewrite append_cons, <- IH.
  - by exists "".
Qed.

Lemma lstrip_length (s : string) : String.length (Py.lstrip s) ≤ String.length s.
Proof.
  induction s as [|x s IH]; [done|]. simpl.
  destruct (Py.is_space x); simpl; lia.
Qed.

Lemma lstrip_prefix (p q : string) :
  Py.lstrip (p +:+ q) = p +:+ q → Py.lstrip p = p.
Proof.
  destruct p as [|x p]; [done|]. rewrite append_cons. simpl.
  destruct (Py.is_space x); [|done].
  intros Heq. pose proof (lstrip_length (p +:+ q)) as Hlen.
  rewrite Heq in Hlen. simpl in Hlen. lia.
Qed.

Lemma has_char_lstrip (c : ascii) (s : string) :
  Py.has_char c (Py.lstrip s) = true → Py.has_char c s = true.
Proof.
  induction s as [|x s IH]; [done|]. simpl.
  destruct (Py.is_space x); [|done].
  intros Hc. rewrite has_char_cons, IH by done. apply orb_true_r.
Qed.

Lemma strip_trimmed (s : string) :
  Py.lstrip (Py.strip s) = Py.strip s
  ∧ Py.lstrip (String.rev (Py.strip s)) = String.rev (Py.strip s).
Proof.
  unfold Py.strip. split.
  - destruct (lstrip_split (String.rev (Py.lstrip s))) as [pre Hpre].
    apply (f_equal String.rev) in Hpre.
    rewrite rev_involutive, rev_append in Hpre.
    apply (lstrip_prefix _ (String.rev pre)).
    rewrite <- Hpre. apply lstrip_idempotent.
  - rewrite rev_involutive. apply lstrip_idempotent.
Qed.

Lemma strip_idempotent (s : string) : Py.strip (Py.strip s) = Py.strip s.
Proof.
  destruct (strip_trimmed s) as [Hl Hr].
  unfold Py.strip at 1. rewrite Hl, Hr. apply rev_involutive.
Qed.

Lemma has_char_strip (c : ascii) (s : string) :
  Py.has_char c (Py.strip s) = true → Py.has_char c s = true.
Proof.
  unfold Py.strip. rewrite has_char_rev. intros Hc.
  apply has_char_lstrip in Hc. rewrite has_char_rev in Hc.
  by apply has_char_lstrip.
Qed.

(** *** [clean_filename] *)

Lemma clean_filename_idempotent (s : string) :
  clean_filename (clean_filename s) = clean_filename s.
Proof.
  unfold clean_filename at 2 3. cbn zeta.
  destruct (String.eqb (Py.replace "." "" (Py.strip s)) "") eqn:Hdots; [done|].
  unfold clean_filename. by rewrite strip_idempotent, Hdots.
Qed.

Lemma has_char_clean_filename (c : ascii) (s : string) :
  Py.has_char c s = false → Py.has_char c (clean_filename s) = false.
Proof.
  intros Hc. unfold clean_filename.
  destruct (String.eqb _ ""); [done|].
  apply not_true_iff_false. intros Hin.
  apply has_char_strip in Hin. congruence.
Qed.

(** *** [split], [join] and [replace] of one character *)

Lemma replace_char_absent (old new : ascii) (s : string) :
  Py.has_char old s = false → Py.replace_char old new s = s.
Proof.
  induction s as [|x s IH]; [done|].
  rewrite has_char_cons. intros [Hx Hs]%orb_false_iff.
  simpl. by rewrite Hx, IH.
Qed.

Lemma has_char_replace_char (old new : ascii) (s : string) :
  new ≠ old → Py.has_char old (Py.replace_char old new s) = false.
Proof.
  intros Hne. induction s as [|x s IH]; [done|].
  simpl. rewrite has_char_cons, IH, orb_false_r.
  destruct (Ascii.eqb x old) eqn:Hx; [|done].
  by apply Ascii.eqb_neq.
Qed.

Lemma split_go_segments (c d : ascii) (s : string) :
  ∀ cur seg,
    (d = c ∨ Py.has_char d s = false) →
    Py.has_char d cur = false →
    seg ∈ Py.split_go c cur s → Py.has_char d seg = false.
Proof.
  induction s as [|x s IH]; intros cur seg Hd Hcur Hseg; simpl in Hseg.
  { apply list_elem_of_singleton in Hseg as ->. by rewrite has_char_rev. }
  assert (d = c ∨ Py.has_char d s = false) as Hd'.
  { destruct Hd as [->|Hd]; [by left|right].
    rewrite has_char_cons in Hd. by apply orb_false_iff in Hd as [_ Hd]. }
  destruct (Ascii.eqb x c) eqn:Hx.
  - apply elem_of_cons in Hseg as [->|Hseg]; [by rewrite has_char_rev|].
    by apply (IH "").
  - apply (IH (String x cur)); [done| |done].
    rewrite has_char_cons, Hcur, orb_false_r.
    destruct Hd as [->|Hd]; [done|].
    rewrite has_char_cons in Hd. by apply orb_false_iff in Hd as [Hd _].
Qed.

Lemma split_go_app (c : ascii) (x rest : string) :
  ∀ cur, Py.has_char c x = false →
         Py.split_go c cur (x +:+ rest) = Py.split_go c (String.rev_app x cur) rest.
Proof.
  induction x as [|a x IH]; intros cur Hx; [done|].
  rewrite has_char_cons in Hx. apply orb_false_iff in Hx as [Ha Hx].
  rewrite append_cons. simpl. rewrite Ha. by apply IH.
Qed.

Lemma split_single (c : ascii) (x : string) :
  Py.has_char c x = false → Py.split c x = [x].
Proof.
  intros Hx. unfold Py.split.
  rewrite <- (append_nil_r x) at 1. rewrite split_go_app by done. simpl.
  change (String.rev_app x "") with (String.rev x). by rewrite rev_involutive.
Qed.

Lemma split_cons (c : ascii) (x rest : string) :
  Py.has_char c x = false →
  Py.split c (x +:+ String c rest) = x :: Py.split c rest.
Proof.
  intros Hx. unfold Py.split. rewrite split_go_app by done. simpl.
  rewrite Ascii.eqb_refl.
  change (String.rev_app x "") with (String.rev x). by rewrite rev_involutive.
Qed.

Lemma split_go_trailing (c : ascii) (s : string) :
  ∀ cur, Py.split_go c cur (s +:+ String c "") = Py.split_go c cur s ++ [""].
Proof.
  induction s as [|a s IH]; intros cur.
  { rewrite append_nil_l. simpl. by rewrite Ascii.eqb_refl. }
  rewrite append_cons. simpl.
  destruct (Ascii.eqb a c); [|apply IH].
  by rewrite IH.
Qed.

Lemma join_cons (sep x y : string) (l : list string) :
  Py.join sep (x :: y :: l) = x +:+ sep +:+ Py.join sep (y :: l).
Proof. done. Qed.

Lemma split_join (c : ascii) (segs : list string) :
  segs ≠ [] →
  Forall (λ x, Py.has_char c x = false) segs →
  Py.split c (Py.join (String c "") segs) = segs.
Proof.
  intros Hne Hsegs. induction Hsegs as [|x segs Hx Hsegs IH]; [done|].
  destruct segs as [|y segs].
  - by apply split_single.
  - rewrite join_cons, append_cons, append_nil_l. rewrite split_cons by done.
    by rewrite IH.
Qed.

Lemma has_char_join (c d : ascii) (segs : list string) :
  d ≠ c →
  Forall (λ x, Py.has_char d x = false) segs →
  Py.has_char d (Py.join (String c "") segs) = false.
Proof.
  intros Hne Hsegs. induction Hsegs as [|x segs Hx Hsegs IH]; [done|].
  destruct segs as [|y segs]; [done|].
  rewrite join_cons, !has_char_app, Hx, IH, has_char_cons.
  change (Py.has_char d "") with false.
  rewrite !orb_false_r. simpl. apply Ascii.eqb_neq. by intros ->.
Qed.

Lemma has_char_join_sep (c : ascii) (segs : list string) :
  2 ≤ length segs → Py.has_char c (Py.join (String c "") segs) = true.
Proof.
  destruct segs as [|x [|y segs]]; intros Hlen; simpl in Hlen; try lia.
  rewrite join_cons, !has_char_app, has_char_cons, Ascii.eqb_refl. simpl.
  by rewrite orb_true_r.
Qed.

(** ** [sanitize_filepath] *)

Lemma sanitize_components_clean (filepath : string) :
  Forall clean_component (sanitize_components filepath).
Proof.
  unfold sanitize_components. apply Forall_forall. intros x Hx.
  apply list_elem_of_filter in Hx as [Hne Hx].
  apply list_elem_of_fmap in Hx as (seg & -> & Hseg).
  split; [done|]. split; [apply clean_filename_idempotent|].
  unfold Py.split in Hseg.
  split; apply has_char_clean_filename.
  - eapply (split_go_segments "/" "/" _ ""); [by left|reflexivity|exact Hseg].
  - eapply (split_go_segments "/" Py.backslash _ ""); [right|reflexivity|exact Hseg].
    by apply has_char_replace_char.
Qed.

Lemma clean_components_fixed (segs : list string) :
  Forall clean_component segs →
  sanitize_components (Py.join "/" segs) = segs
  ∧ Py.has_char Py.backslash (Py.join "/" segs) = false
  ∧ (Py.has_char "/" (Py.join "/" segs) = false →
     clean_filename (Py.join "/" segs) = Py.join "/" segs)
  ∧ (segs ≠ [] → Py.split "/" (Py.join "/" segs) = segs).
Proof.
  intros Hsegs.
  assert (Py.has_char Py.backslash (Py.join "/" segs) = false) as Hback.
  { apply has_char_join; [done|].
    eapply Forall_impl; [exact Hsegs|]. by intros x (_ & _ & _ & Hx). }
  assert (segs ≠ [] → Py.split "/" (Py.join "/" segs) = segs) as Hsplit.
  { intros Hne. apply split_join; [done|].
    eapply Forall_impl; [exact Hsegs|]. by intros x (_ & _ & Hx & _). }
  split; [|split; [done|split; [|done]]].
  - unfold sanitize_components. rewrite replace_char_absent by done.
    destruct segs as [|x segs]; [done|].
    rewrite Hsplit by done.
    assert (clean_filename <$> x :: segs = x :: segs) as ->.
    { clear -Hsegs. induction Hsegs as [|y l (_ & Hy & _) _ IH]; [done|].
      rewrite fmap_cons. by rewrite Hy, IH. }
    clear -Hsegs. induction Hsegs as [|y l (Hy & _) _ IH]; [done|].
    rewrite filter_cons_True by done. by rewrite IH.
  - intros Hslash. destruct segs as [|x [|y segs]]; [done| |].
    + apply Forall_cons in Hsegs as [(_ & Hx & _) _]. done.
    + rewrite has_char_join_sep in Hslash by (simpl; lia). done.
Qed.

Lemma sanitize_filepath_components (filepath : string) :
  ∃ segs, Forall clean_component segs
          ∧ sanitize_filepath filepath false = Py.join "/" segs.
Proof.
  unfold sanitize_filepath.
  destruct (Py.has_char Py.backslash filepath || Py.has_char "/" filepath) eqn:Hsep.
  - exists (sanitize_components filepath).
    split; [apply sanitize_components_clean|done].
  - apply orb_false_iff in Hsep as [Hback Hslash].
    destruct (decide (clean_filename filepath = "")) as [Hempty|Hne].
    + exists []. split; [done|]. by rewrite Hempty.
    + exists [clean_filename filepath]. split; [|done].
      apply Forall_singleton. split; [done|].
      split; [apply clean_filename_idempotent|].
      split; by apply has_char_clean_filename.
Qed.

(** A sanitized file path has no backslash and is left as it is by
    [sanitize_filepath]. *)
Lemma sanitize_filepath_fixed (filepath : string) :
  Py.has_char Py.backslash (sanitize_filepath filepath false) = false
  ∧ sanitize_filepath (sanitize_filepath filepath false) false
    = sanitize_filepath filepath false.
Proof.
  destruct (sanitize_filepath_components filepath) as (segs & Hsegs & Hr).
  destruct (clean_components_fixed segs Hsegs) as (Hfix & Hback & Hclean & _).
  rewrite Hr. split; [done|].
  unfold sanitize_filepath. fold (sanitize_components (Py.join "/" segs)).
  rewrite Hback, Hfix. simpl.
  destruct (Py.has_char "/" (Py.join "/" segs)) eqn:Hslash; [done|].
  by apply Hclean.
Qed.

(** X14: what [sanitize_filepath] returns.  The result never contains a
    backslash; sanitizing it again changes nothing, with or without the
    trailing slash of a folder; and the components of a non-empty file
    path, cut at the slashes, are exactly its cleaned components: none is
    empty (so there is no doubled, leading or trailing slash), none has a
    slash or backslash, and each is equal to its own cleaning. *)
Theorem sanitize_filepath_idempotent (filepath : string) (folder : bool) :
  Py.has_char Py.backslash (sanitize_filepath filepath folder) = false
  ∧ sanitize_filepath (sanitize_filepath filepath folder) folder
    = sanitize_filepath filepath folder
  ∧ (sanitize_filepath filepath false ≠ "" →
     Forall clean_component (Py.split "/" (sanitize_filepath filepath false)))
  ∧ sanitize_filepath filepath true = sanitize_filepath filepath false +:+ "/".
Proof.
  destruct (sanitize_filepath_fixed filepath) as [Hclean Hidem].
  destruct (sanitize_filepath_components filepath) as (segs & Hsegs & Hr).
  destruct (clean_components_fixed segs Hsegs) as (Hfix & Hback & _ & Hsplit).
  assert (sanitize_filepath filepath true = Py.join "/" segs +:+ "/") as Htrue.
  { by rewrite <- Hr. }
  split; [|split; [|split]].
  - destruct folder; [|done].
    by rewrite Htrue, has_char_app, Hback.
  - destruct folder; [|done]. rewrite Htrue.
    unfold sanitize_filepath.
    fold (sanitize_components (Py.join "/" segs +:+ "/")).
    rewrite !has_char_app.
    change (Py.has_char "/"%char "/"%string) with true.
    rewrite !orb_true_r. f_equal.
    unfold sanitize_components.
    rewrite replace_char_absent by (by rewrite has_char_app, Hback).
    unfold Py.split. rewrite split_go_trailing.
    rewrite fmap_app, filter_app.
    assert (filter (λ x : string, x ≠ "") (clean_filename <$> [""]) = []) as ->
      by done.
    rewrite app_nil_r.
    fold (Py.split "/" (Py.join "/" segs)).
    rewrite <- (replace_char_absent Py.backslash "/" (Py.join "/" segs)) at 1
      by done.
    fold (sanitize_components (Py.join "/" segs)). by rewrite Hfix.
  - rewrite Hr. intros Hne. rewrite Hsplit; [done|].
    by intros ->.
  - by rewrite Htrue, Hr.
Qed.

(** ** Pausing *)

Section PauseProps.

Variable LT : LtTorrentState.
Variable sp : bool.
Variable handle_pause : Handle → option Handle.

(** X15: pausing a torrent the engine already holds paused.  When the cached
    status says paused, [pause] returns [True], does not call the engine's
    [pause], leaves auto-management off and announces "Paused" in exactly
    one event; the state itself is what [update_state] decides once
    auto-management is off: "Paused" when the engine reports the torrent
    paused and there is no error, but "Error" when there is one, in
    which case the event and the state disagree. *)
Theorem pause_when_paused (self : Torrent) :
  st_paused (status self) = true →
  (pause LT sp handle_pause self).1.1 = true
  ∧ (pause LT sp handle_pause self).2
    = [TorrentStateChangedEvent (torrent_id self) "Paused"]
  ∧ (pause LT sp handle_pause self).1.2
    = update_state LT sp
        (with_handle (handle_auto_managed false (handle self)) self)
  ∧ (st_paused (h_status (handle self)) = true →
     st_auto_managed (h_status (handle (pause LT sp handle_pause self).1.2)) = false
     ∧ state (pause LT sp handle_pause self).1.2
       = if (0 <? Py.len (st_error (h_status (handle self))))%nat
            || Py.startswith (statusmsg self) "Error:"
         then "Error" else "Paused").
Proof.
  intros Hcached. unfold pause. simpl. rewrite Hcached. simpl.
  split; [done|]. split.
  { by destruct (update_state_keeps_rest LT sp
                   (with_handle (handle_auto_managed false (handle self)) self))
      as (-> & _). }
  split; [done|]. intros Hpaused.
  rewrite update_state_eq. simpl. rewrite Hpaused.
  destruct (0 <? Py.len (st_error (h_status (handle self))))%nat; simpl; [done|].
  destruct (Py.startswith (statusmsg self) "Error:"); simpl; [done|].
  split; [done|]. unfold settled_state.
  by destruct sp, ((_ =? lt_Queued LT)%Z || _).
Qed.

(** X16: pausing a running torrent.  When the cached status says not paused,
    [pause] emits no event and leaves the state and the status message
    alone; it returns [True] exactly when the engine's [pause] does not
    raise.  Auto-management is switched off before the engine is asked to
    pause, so it is off in the engine even when [pause] returns [False]. *)
Theorem pause_when_running (self : Torrent) :
  st_paused (status self) = false →
  (pause LT sp handle_pause self).2 = []
  ∧ state (pause LT sp handle_pause self).1.2 = state self
  ∧ statusmsg (pause LT sp handle_pause self).1.2 = statusmsg self
  ∧ ((pause LT sp handle_pause self).1.1 = true ↔
     is_Some (handle_pause (handle_auto_managed false (handle self))))
  ∧ ((pause LT sp handle_pause self).1.1 = false →
     handle (pause LT sp handle_pause self).1.2
     = handle_auto_managed false (handle self)
     ∧ st_auto_managed (h_status (handle (pause LT sp handle_pause self).1.2)) = false
     ∧ h_calls (handle (pause LT sp handle_pause self).1.2)
       = h_calls (handle self) ++ [Call_auto_managed false]).
Proof.
  intros Hcached. unfold pause. simpl. rewrite Hcached.
  destruct (handle_pause (handle_auto_managed false (handle self))) as [h|]; simpl.
  - repeat split; try done; by eexists.
  - repeat split; try done; by intros [? ?].
Qed.

End PauseProps.

(** The example torrent with a cached status that says paused and an engine
    that reports "disk full": the event says "Paused", the state is
    "Error". *)
Lemma pause_when_paused_witness :
  (pause LT_TORRENT_STATE false (λ h, Some h)
     (with_status (h_status (handle_paused_with_error example_handle))
        (with_handle (handle_paused_with_error example_handle) example_torrent))).2
  = [TorrentStateChangedEvent (torrent_id example_torrent) "Paused"]
  ∧ state
      (pause LT_TORRENT_STATE false (λ h, Some h)
         (with_status (h_status (handle_paused_with_error example_handle))
            (with_handle (handle_paused_with_error example_handle)
               example_torrent))).1.2
    = "Error".
Proof.
  destruct (pause_when_paused LT_TORRENT_STATE false (λ h, Some h)
              (with_status (h_status (handle_paused_with_error example_handle))
                 (with_handle (handle_paused_with_error example_handle)
                    example_torrent)) eq_refl)
    as (_ & Hevents & _ & Hstate).
  split; [exact Hevents|]. by destruct (Hstate eq_refl) as [_ ->].
Defined.

(** The example torrent is not paused; the engine refuses to pause it. *)
Lemma pause_when_running_witness :
  (pause LT_TORRENT_STATE false (λ _, None) example_torrent).1.1 = false
  ∧ st_auto_managed
      (h_status (handle (pause LT_TORRENT_STATE false (λ _, None)
                           example_torrent).1.2)) = false.
Proof.
  destruct (pause_when_running LT_TORRENT_STATE false (λ _, None) example_torrent
              eq_refl) as (_ & _ & _ & _ & Hfailed).
  split; [done|]. by destruct (Hfailed eq_refl) as (_ & -> & _).
Defined.

(** ** Renaming: what the engine is asked to do *)

Lemma replace_first_prefix (old new s : string) :
  String.prefix old s = true →
  Py.replace_first old new s = new +:+ Py.drop (Py.len old) s.
Proof. intros Hprefix. destruct s; cbn [Py.replace_first]; by rewrite Hprefix. Qed.

Lemma rename_matching_calls (folder nf : string) (wd : nat)
    (files : list (nat * string)) :
  ∀ w : World,
    h_calls (handle (w_self (rename_matching folder nf wd files w)))
    = h_calls (handle (w_self w))
      ++ ((λ f, Call_rename_file f.1 (nf +:+ Py.drop (Py.len folder) f.2))
            <$> filter (λ f, Py.startswith f.2 folder = true) files).
Proof.
  unfold rename_matching.
  induction files as [|f files IH]; intros w; simpl.
  { by rewrite app_nil_r. }
  destruct (Py.startswith f.2 folder) eqn:Hmatch.
  - rewrite IH, filter_cons_True by done. simpl.
    rewrite replace_first_prefix by done. by rewrite <- app_assoc.
  - rewrite IH, filter_cons_False; [done|]. by rewrite Hmatch.
Qed.

Lemma new_DeferredList_handle (ref wd : nat) (w : World) :
  handle (w_self (new_DeferredList ref wd w)) = handle (w_self w).
Proof.
  unfold new_DeferredList. simpl.
  by destruct (size (default ∅ (w_dicts w !! wd)) =? 0)%nat.
Qed.

Lemma list_addBoth_handle (ref : nat) (cb : list_callback) (w : World) :
  handle (w_self (list_addBoth ref cb w)) = handle (w_self w).
Proof.
  unfold list_addBoth. destruct (w_lists w !! ref) as [dl|]; [|done].
  destruct (dl_called dl); [|done]. by destruct cb.
Qed.

(** ** [rename_files] *)

Lemma U_lstrip_elem_of (u : utext) (x : N) : x ∈ U.lstrip u → x ∈ u.
Proof.
  induction u as [|c u IH]; simpl; [done|].
  destruct (U.is_space c); [|done].
  intros Hx. right. by apply IH.
Qed.

Lemma U_strip_elem_of (u : utext) (x : N) : x ∈ U.strip u → x ∈ u.
Proof.
  unfold U.strip. intros Hx.
  rewrite elem_of_reverse in Hx. apply U_lstrip_elem_of in Hx.
  rewrite elem_of_reverse in Hx. by apply U_lstrip_elem_of.
Qed.

Lemma clean_filename_u_elem_of (u : utext) (x : N) :
  x ∈ clean_filename_u u → x ∈ u.
Proof.
  unfold clean_filename_u. case_bool_decide.
  - by intros ?%elem_of_nil.
  - apply U_strip_elem_of.
Qed.

Lemma U_split_go_subseteq (sep : N) (u : utext) :
  ∀ cur seg x, seg ∈ U.split_go sep cur u → x ∈ seg → x ∈ cur ∨ x ∈ u.
Proof.
  induction u as [|c u IH]; intros cur seg x Hseg Hx; simpl in Hseg.
  { apply list_elem_of_singleton in Hseg as ->. left. by apply elem_of_reverse. }
  destruct (c =? sep)%N.
  - apply elem_of_cons in Hseg as [->|Hseg].
    + left. by apply elem_of_reverse.
    + destruct (IH [] seg x Hseg Hx) as [[]%elem_of_nil|Hin]. right. by right.
  - destruct (IH (c :: cur) seg x Hseg Hx) as [Hin|Hin].
    + apply elem_of_cons in Hin as [->|Hin]; [right; left|by left].
    + right. by right.
Qed.

Lemma U_join_elem_of (sep : utext) (l : list utext) (x : N) :
  x ∈ U.join sep l → x ∈ sep ∨ ∃ seg, seg ∈ l ∧ x ∈ seg.
Proof.
  induction l as [|y l IH]; simpl; [by intros ?%elem_of_nil|].
  destruct l as [|z l].
  - intros Hx. right. exists y. split; [left|done].
  - intros Hx. apply elem_of_app in Hx as [Hx|Hx].
    { right. exists y. split; [left|done]. }
    apply elem_of_app in Hx as [Hx|Hx]; [by left|].
    destruct (IH Hx) as [Hsep|(seg & Hseg & Hin)]; [by left|].
    right. exists seg. split; [by right|done].
Qed.

Lemma sanitize_filepath_u_no_backslash (filepath : utext) :
  U.backslash ∉ sanitize_filepath_u filepath false.
Proof.
  unfold sanitize_filepath_u.
  destruct (decide (U.backslash ∈ filepath)) as [Hin|Hout];
    [rewrite (bool_decide_eq_true_2 _ Hin)|rewrite (bool_decide_eq_false_2 _ Hout)];
    simpl.
  2:{ destruct (bool_decide (U.slash ∈ filepath)).
      2:{ intros Hx. by apply clean_filename_u_elem_of in Hx. }
      intros Hx. apply U_join_elem_of in Hx as [Hx|(seg & Hseg & Hx)].
      { by apply list_elem_of_singleton in Hx. }
      apply list_elem_of_filter in Hseg as [_ Hseg].
      apply list_elem_of_fmap in Hseg as (raw & -> & Hraw).
      apply clean_filename_u_elem_of in Hx.
      destruct (U_split_go_subseteq _ _ _ _ _ Hraw Hx) as [[]%elem_of_nil|Hrep].
      unfold U.replace_char in Hrep.
      apply list_elem_of_fmap in Hrep as (c & Hc & _).
      destruct (N.eqb_spec c U.backslash); done. }
  intros Hx. apply U_join_elem_of in Hx as [Hx|(seg & Hseg & Hx)].
  { by apply list_elem_of_singleton in Hx. }
  apply list_elem_of_filter in Hseg as [_ Hseg].
  apply list_elem_of_fmap in Hseg as (raw & -> & Hraw).
  apply clean_filename_u_elem_of in Hx.
  destruct (U_split_go_subseteq _ _ _ _ _ Hraw Hx) as [[]%elem_of_nil|Hrep].
  unfold U.replace_char in Hrep.
  apply list_elem_of_fmap in Hrep as (c & Hc & _).
  destruct (N.eqb_spec c U.backslash); done.
Qed.

(** X18: what [rename_files] asks of the engine.  Every name is turned
    into a unicode object first: a byte string is decoded as UTF-8, a
    unicode object is taken as it is.  The pairs are served in order, one
    [rename_file] each with the file's index and the sanitized name, up to
    the first byte string that is no UTF-8: there [UnicodeDecodeError]
    leaves the method, the renames asked for so far stand and the rest is
    not reached.  Without such a name the method returns normally after one
    call per pair.  No name handed over contains a backslash, and nothing
    of the torrent changes but the call log of the handle. *)
Theorem rename_files_requests (decode_utf8 : string → option utext)
    (encode_utf8 : utext → string) (filenames : list (nat * filename_arg))
    (self : Torrent) :
  ∃ served : list (nat * utext),
    Forall2 (λ name pair,
               name.1 = pair.1 ∧ to_unicode decode_utf8 pair.2 = Some name.2)
      served (take (length served) filenames)
    ∧ h_calls (handle (rename_files decode_utf8 encode_utf8 filenames self).2)
      = h_calls (handle self)
        ++ ((λ name, Call_rename_file name.1
                       (encode_utf8 (sanitize_filepath_u name.2 false)))
              <$> served)
    ∧ Forall (λ name, U.backslash ∉ sanitize_filepath_u name.2 false) served
    ∧ ((rename_files decode_utf8 encode_utf8 filenames self).1 = inr tt
       ∧ length served = length filenames
       ∨ (rename_files decode_utf8 encode_utf8 filenames self).1
         = inl (ValueError "UnicodeDecodeError")
         ∧ ∃ index s, filenames !! length served = Some (index, StrName s)
                      ∧ decode_utf8 s = None)
    ∧ (rename_files decode_utf8 encode_utf8 filenames self).2
      = with_handle
          (handle (rename_files decode_utf8 encode_utf8 filenames self).2) self
    ∧ h_status (handle (rename_files decode_utf8 encode_utf8 filenames self).2)
      = h_status (handle self)
    ∧ h_piece_priorities
        (handle (rename_files decode_utf8 encode_utf8 filenames self).2)
      = h_piece_priorities (handle self).
Proof.
  revert self.
  induction filenames as [|[index filename] filenames IH]; intros self.
  { exists []. simpl. rewrite app_nil_r.
    repeat split; try done; [left; done|by destruct self]. }
  cbn [rename_files].
  destruct (to_unicode decode_utf8 filename) as [name|] eqn:Hname.
  2:{ exists []. simpl. rewrite app_nil_r.
      repeat split; try done; [|by destruct self].
      right. split; [done|].
      destruct filename as [s|u]; [|done]. by exists index, s. }
  cbn zeta.
  destruct (IH (with_handle
                  (handle_rename_file index
                     (encode_utf8 (sanitize_filepath_u name false)) (handle self))
                  self))
    as (served & Hconv & Hcalls & Hclean & Hend & Hframe & Hstatus & Hprio).
  exists ((index, name) :: served).
  split; [simpl; by constructor|].
  split; [etransitivity; [exact Hcalls|]; simpl; by rewrite <- app_assoc|].
  split; [constructor; [apply sanitize_filepath_u_no_backslash|done]|].
  split.
  { destruct Hend as [[Hok Hlen]|[Hraise Hbad]].
    - left. split; [done|]. simpl. by rewrite Hlen.
    - right. split; [done|]. done. }
  split; [etransitivity; [exact Hframe|]; by destruct self|].
  split; [exact Hstatus|exact Hprio].
Qed.

(** The name [u"\x1fa\x1f/b"]: for a unicode object the unit separator is
    white space, so the name handed over is [u"a/b"]. *)
Lemma sanitize_filepath_u_strips_unit_separator :
  sanitize_filepath_u [31; 97; 31; 47; 98]%N false = [97; 47; 98]%N.
Proof. by vm_compute. Qed.
